(** * package.py: content parsing and index synthesis

    A shallow embedding of [src/package.py] (the packager of "The Swift
    Programming Language" book) and the properties of its parsing and
    index-generation pipeline.

    Python values are modelled as follows.
    - [str] is a list of Unicode code points ([N]); literals of the source
      are written with [lit].
    - [pathlib.Path] is the list of its components.
    - [dict] is a [gmap] where only lookups are observed, and an
      insertion-ordered association list where iteration order is observed.
    - Exceptions are values of [PyError]; code that may raise returns
      [result]; code that logs or writes to the file system runs in the
      writer-and-error monad [IO], whose trace lists the requested effects
      in program order.
    - The source tree is read through a [FileSystem]; the writes of a run
      are recorded as events and are taken to succeed.

    A run is [SkillGenerator.build] on a cloned tree.  [GitRepository]
    (the clone and its clean-up) and the body of [main] after the
    arguments are parsed are modelled over a [World] that gives the
    outcomes of the temporary directory and of [git clone]; argument
    parsing and the interrupt handler are not modelled. *)

From Stdlib Require Import NArith Ascii String DecimalString.
From stdpp Require Import base option list gmap.

Local Open Scope N_scope.

(** ** Strings *)

Abbreviation str := (list N).

(** A source literal as a list of code points (ASCII literals only). *)
Definition lit (s : string) : str :=
  map N_of_ascii (list_ascii_of_string s).

(** [s.startswith(prefix)] *)
Fixpoint startswith (prefix s : str) : bool :=
  match prefix, s with
  | [], _ => true
  | x :: p', y :: s' => N.eqb x y && startswith p' s'
  | _ :: _, [] => false
  end.

(** [str.isspace] on one code point; it is also the class [\s] of [re] on
    [str] patterns. *)
Definition isspace (c : N) : bool :=
  ((9 <=? c) && (c <=? 13)) || ((28 <=? c) && (c <=? 32))
  || (c =? 133) || (c =? 160) || (c =? 5760)
  || ((8192 <=? c) && (c <=? 8202))
  || (c =? 8232) || (c =? 8233) || (c =? 8239) || (c =? 8287)
  || (c =? 12288).

(** The line boundaries of [str.splitlines]. *)
Definition is_linebreak (c : N) : bool :=
  ((10 <=? c) && (c <=? 13)) || ((28 <=? c) && (c <=? 30))
  || (c =? 133) || (c =? 8232) || (c =? 8233).

Fixpoint lstrip (s : str) : str :=
  match s with
  | [] => []
  | c :: s' => if isspace c then lstrip s' else s
  end.

Definition rstrip (s : str) : str := rev (lstrip (rev s)).

(** [s.strip()] *)
Definition strip (s : str) : str := rstrip (lstrip s).

(** [s.splitlines()]: [cur] is the current line, reversed.  A carriage
    return followed by a line feed is one boundary; a final line is kept
    only when it is not empty. *)
Fixpoint splitlines_from (cur : str) (s : str) : list str :=
  match s with
  | [] => match cur with [] => [] | _ => [rev cur] end
  | c :: s' =>
      if is_linebreak c then
        rev cur ::
          match s' with
          | 10 :: s'' => if c =? 13 then splitlines_from [] s''
                         else splitlines_from [] s'
          | _ => splitlines_from [] s'
          end
      else splitlines_from (c :: cur) s'
  end.

Definition splitlines (s : str) : list str := splitlines_from [] s.

(** [sep.join(parts)] *)
Fixpoint join (sep : str) (parts : list str) : str :=
  match parts with
  | [] => []
  | [p] => p
  | p :: ps => p ++ sep ++ join sep ps
  end.

(** [s.replace(old, new)] for one-character [old] and [new]. *)
Definition replace_char (old new : N) (s : str) : str :=
  map (fun c => if c =? old then new else c) s.

(** [str(n)] for a non-negative integer. *)
Definition str_of_nat (n : nat) : str :=
  lit (NilZero.string_of_uint (Nat.to_uint n)).

(** ** Exceptions and the effect monad *)

Abbreviation Path := (list str).

Inductive PyError :=
| UnboundLocalError (variable : str)
| FileNotFoundError (message : str)
| KeyError (key : str)
| NoDocumentsError (missing_sections : list str)
    (* RuntimeError("No documents found for sections: {missing_sections}.
       Expected structure changed.") *)
| ReadError (p : Path).
    (* whatever [Path.read_text] raises on a path it cannot read *)

Inductive result (A : Type) :=
| Ok (a : A)
| Err (e : PyError).
Arguments Ok {A} a.
Arguments Err {A} e.

Inductive Event :=
| LogInfo (msg : str)
| LogWarning (msg : str)
| AppendText (file : str) (data : str)
| Rmtree (p : Path)
| Mkdir (p : Path)
| Copy2 (src dst : Path)
| WriteText (p : Path) (data : str)
| MakeArchive (base_name : str) (root_dir : Path) (base_dir : str).

(** The events of a run so far, and its outcome. *)
Definition IO (A : Type) : Type := list Event * result A.

Definition ret {A} (a : A) : IO A := ([], Ok a).
Definition raise {A} (e : PyError) : IO A := ([], Err e).
Definition emit (ev : Event) : IO unit := ([ev], Ok tt).
Definition lift {A} (r : result A) : IO A := ([], r).

Definition bind {A B} (m : IO A) (k : A -> IO B) : IO B :=
  match m with
  | (t, Err e) => (t, Err e)
  | (t, Ok a) => let '(t', r) := k a in (t ++ t', r)
  end.

#[global] Instance IO_ret : MRet IO := @ret.
#[global] Instance IO_bind : MBind IO := fun A B k m => bind m k.

Definition when (b : bool) (m : IO unit) : IO unit :=
  if b then m else ret tt.

(** ** Paths *)

(** Split a relative path string at its slashes. *)
Fixpoint split_slash_from (cur : str) (s : str) : list str :=
  match s with
  | [] => match cur with [] => [] | _ => [rev cur] end
  | c :: s' =>
      if c =? 47 then
        match cur with
        | [] => split_slash_from [] s'
        | _ => rev cur :: split_slash_from [] s'
        end
      else split_slash_from (c :: cur) s'
  end.

(** [p / rel] for a relative [rel]. *)
Definition joinpath (p : Path) (rel : str) : Path :=
  p ++ split_slash_from [] rel.

(** [p.name] *)
Definition path_name (p : Path) : str := List.last p [].

(** [p.parent] *)
Definition path_parent (p : Path) : Path := removelast p.

(** [str(p)] *)
Definition path_str (p : Path) : str := join [47] p.

(** Index of the last dot of a name ([name.rfind('.')]), if any. *)
Fixpoint rfind_dot (i : nat) (s : str) : option nat :=
  match s with
  | [] => None
  | c :: s' =>
      match rfind_dot (S i) s' with
      | Some j => Some j
      | None => if c =? 46 then Some i else None
      end
  end.

(** [PurePath.stem] of a name: the name up to its last dot, unless that
    dot is the first or the last character. *)
Definition name_stem (name : str) : str :=
  match rfind_dot 0 name with
  | Some i =>
      if (Nat.ltb 0 i && Nat.ltb i (length name - 1))%bool
      then take i name else name
  | None => name
  end.

(** [p.stem] *)
Definition path_stem (p : Path) : str := name_stem (path_name p).

(** [p.with_suffix(suffix)] *)
Definition with_suffix (p : Path) (suffix : str) : Path :=
  path_parent p ++ [path_stem p ++ suffix].

(** The part of the file system the program reads. *)
Record FileSystem := {
  fs_exists : Path -> bool;             (* Path.exists *)
  fs_glob_md : Path -> list str;        (* names yielded by glob("*.md"),
                                           in the order of the scan *)
  fs_read_text : Path -> result str;    (* Path.read_text(encoding='utf-8') *)
}.

(** ** Content processing *)

Record DocumentMetadata := {
  filename : str;
  section : str;
  title : str;
  description : str;
  path : Path;
}.

Definition AT_SIGN : str := Eval cbv in lit "@".
Definition CLOSE_BRACE : str := Eval cbv in lit "}".
Definition HASH_SPACE : str := Eval cbv in lit "# ".
Definition HASH : str := Eval cbv in lit "#".
Definition LESS : str := Eval cbv in lit "<".
Definition GREATER : str := Eval cbv in lit ">".
Definition NO_DESCRIPTION : str := Eval cbv in lit "No description available.".

(** [not s] for a string, and for a list. *)
Definition is_empty (s : str) : bool :=
  match s with [] => true | _ => false end.

Definition is_empty_list {A} (l : list A) : bool :=
  match l with [] => true | _ => false end.

(** The [for line in lines] loop of [extract_metadata].  The state is the
    three locals [title], [in_metadata_block] and [found_title]; the loop
    returns the final [title], and [description] when the loop left by
    [break] ([None] when the loop ran to the end, in which case the local
    [description] was never assigned). *)
Fixpoint scan_lines (lines : list str) (title : str)
    (in_metadata_block found_title : bool) : str * option str :=
  match lines with
  | [] => (title, None)
  | line :: rest =>
      let stripped := strip line in
      if startswith AT_SIGN stripped then
        scan_lines rest title true found_title
      else if in_metadata_block then
        if bool_decide (stripped = CLOSE_BRACE) || bool_decide (stripped = []) then
          if bool_decide (stripped = CLOSE_BRACE)
          then scan_lines rest title false found_title
          else scan_lines rest title in_metadata_block found_title
        else scan_lines rest title in_metadata_block found_title
      else if is_empty stripped then
        scan_lines rest title in_metadata_block found_title
      else if negb found_title then
        if startswith HASH_SPACE stripped
        then scan_lines rest (strip (drop 2 stripped)) in_metadata_block true
        else scan_lines rest title in_metadata_block found_title
      else if startswith HASH stripped || startswith LESS stripped
              || startswith GREATER stripped then
        scan_lines rest title in_metadata_block found_title
      else (title, Some stripped)
  end.

(** [extract_metadata] on the text already read from [file_path]. *)
Definition extract_metadata_text (content : str) (file_path : Path)
    (section : str) : result DocumentMetadata :=
  let lines := splitlines content in
  let '(title, description) := scan_lines lines (path_stem file_path) false false in
  match description with
  | None => Err (UnboundLocalError (lit "description"))
  | Some d =>
      let d' := if is_empty d then NO_DESCRIPTION else d in
      Ok {| filename := path_name file_path; section := section;
            title := title; description := d'; path := file_path |}
  end.

(** [ContentParser.extract_metadata] *)
Definition extract_metadata (fs : FileSystem) (file_path : Path)
    (section : str) : result DocumentMetadata :=
  match fs_read_text fs file_path with
  | Err e => Err e
  | Ok content => extract_metadata_text content file_path section
  end.

(** ** Regular expressions

    The two patterns of the source are sequences of literal characters and
    greedy one-or-more repetitions of a character class, one of which is
    the capturing group.  [match_atoms] is the backtracking matcher of [re]
    on such a sequence: a repetition first tries to take one more
    character, and gives characters back when the rest of the pattern
    fails. *)

Inductive Atom :=
| Chr (c : N)                               (* a literal character *)
| Plus (cls : N -> bool) (capture : bool).  (* cls+, possibly as group 1 *)

Definition literal (s : str) : list Atom := map Chr s.

(** A continuation takes the capture so far and the remaining input, and
    returns the capture and the input left after the whole match. *)
Definition Cont : Type := option str -> str -> option (option str * str).

(** [cls+] after [acc] (reversed) has been taken: take at least one more
    character, preferring the longest run with which [k] succeeds. *)
Fixpoint match_plus (cls : N -> bool) (capture : bool) (k : Cont)
    (cap : option str) (acc : str) (s : str) : option (option str * str) :=
  match s with
  | [] => None
  | x :: s' =>
      if cls x then
        match match_plus cls capture k cap (x :: acc) s' with
        | Some r => Some r
        | None => k (if capture then Some (rev (x :: acc)) else cap) s'
        end
      else None
  end.

Fixpoint match_atoms (atoms : list Atom) : Cont :=
  match atoms with
  | [] => fun cap s => Some (cap, s)
  | Chr c :: atoms' => fun cap s =>
      match s with
      | x :: s' => if x =? c then match_atoms atoms' cap s' else None
      | [] => None
      end
  | Plus cls capture :: atoms' => fun cap s =>
      match_plus cls capture (match_atoms atoms') cap [] s
  end.

(** [re.search(pattern, s, re.MULTILINE)] for a pattern that starts with
    [^]: the pattern is tried at the start of [s] and after each line
    feed, from left to right; the result is group 1 of the first match. *)
Fixpoint search_bol (atoms : list Atom) (at_bol : bool) (s : str)
    : option (option str) :=
  match (if at_bol then match_atoms atoms None s else None) with
  | Some (cap, _) => Some cap
  | None =>
      match s with
      | [] => None
      | c :: s' => search_bol atoms (c =? 10) s'
      end
  end.

(** [re.findall(pattern, s)] for a pattern with one group: the captures of
    the successive non-overlapping matches, scanning from the left.  The
    recursion is on [fuel]; a match of these patterns is never empty, so
    [S (length s)] is enough. *)
Fixpoint findall_fuel (atoms : list Atom) (fuel : nat) (s : str) : list str :=
  match fuel with
  | O => []
  | S fuel' =>
      match match_atoms atoms None s with
      | Some (cap, rest) =>
          default [] cap :: findall_fuel atoms fuel' rest
      | None =>
          match s with
          | [] => []
          | _ :: s' => findall_fuel atoms fuel' s'
          end
      end
  end.

Definition findall (atoms : list Atom) (s : str) : list str :=
  findall_fuel atoms (S (length s)) s.

Definition not_chr (c : N) : N -> bool := fun x => negb (x =? c).

Definition DOC_OPEN : str := Eval cbv in lit "<doc:".
Definition BOOK_TITLE : str := Eval cbv in lit "The Swift Programming Language".
Definition LPAREN : N := 40.
Definition RPAREN : N := 41.
Definition GT : N := 62.

(** [r'<doc:([^>]+)>'] *)
Definition DOC_REF_PATTERN : list Atom :=
  literal DOC_OPEN ++ [Plus (not_chr GT) true; Chr GT].

(** [r'^#\s+The Swift Programming Language\s+\(([^)]+)\)'], without its
    leading [^], which [search_bol] implements *)
Definition VERSION_PATTERN : list Atom :=
  Chr 35 :: Plus isspace false :: literal BOOK_TITLE
    ++ [Plus isspace false; Chr LPAREN; Plus (not_chr RPAREN) true; Chr RPAREN].

(** The search of [get_version] on the text of the TOC file:
    [match.group(1) if match else None]. *)
Definition get_version_text (content : str) : option str :=
  match search_bol VERSION_PATTERN true content with
  | Some cap => cap
  | None => None
  end.

(** The search of [parse_toc_order] on the text of the TOC file. *)
Definition parse_toc_order_text (content : str) : list str :=
  findall DOC_REF_PATTERN content.

Definition log_info (msg : str) : IO unit := emit (LogInfo msg).
Definition log_warning (msg : str) : IO unit := emit (LogWarning msg).

(** [ContentParser.get_version] *)
Definition get_version (fs : FileSystem) (root_path : Path)
    (toc_rel_path : str) : IO (option str) :=
  let toc_path := joinpath root_path toc_rel_path in
  if negb (fs_exists fs toc_path) then
    log_warning (lit "TOC file not found at " ++ path_str toc_path);;
    mret None
  else
    content ← lift (fs_read_text fs toc_path);
    mret (get_version_text content).

(** [ContentParser.parse_toc_order] *)
Definition parse_toc_order (fs : FileSystem) (root_path : Path)
    (toc_rel_path : str) : IO (list str) :=
  let toc_path := joinpath root_path toc_rel_path in
  if negb (fs_exists fs toc_path) then
    raise (FileNotFoundError (lit "TOC file not found: " ++ path_str toc_path))
  else
    content ← lift (fs_read_text fs toc_path);
    mret (parse_toc_order_text content).

(** ** Skill generation *)

Record Configuration := {
  output_path : Path;
  keep_temp : bool;
  dry_run : bool;
  REPO_URL : str;
  SKILL_NAME : str;
  TOC_REL_PATH : str;
  SECTIONS : list str;
}.

Definition default_SECTIONS : list str :=
  [lit "GuidedTour"; lit "LanguageGuide"; lit "ReferenceManual"].

(** [Configuration(output_path, keep_temp, dry_run)] with the defaults of
    the other fields. *)
Definition make_config (output : Path) (keep dry : bool) : Configuration :=
  {| output_path := output; keep_temp := keep; dry_run := dry;
     REPO_URL := lit "https://github.com/swiftlang/swift-book.git";
     SKILL_NAME := lit "programming-swift";
     TOC_REL_PATH := lit "TSPL.docc/The-Swift-Programming-Language.md";
     SECTIONS := default_SECTIONS |}.

(** A [dict] whose iteration order is observed: keys in insertion order. *)
Abbreviation odict V := (list (str * V)).

Fixpoint odict_get {V} (k : str) (d : odict V) : option V :=
  match d with
  | [] => None
  | (k', v) :: d' => if bool_decide (k = k') then Some v else odict_get k d'
  end.

Fixpoint odict_set {V} (k : str) (v : V) (d : odict V) : odict V :=
  match d with
  | [] => [(k, v)]
  | (k', v') :: d' =>
      if bool_decide (k = k') then (k, v) :: d'
      else (k', v') :: odict_set k v d'
  end.

(** [for x in l: s = f(s, x)], stopping at the first exception. *)
Fixpoint foldM {A S} (f : S -> A -> IO S) (s : S) (l : list A) : IO S :=
  match l with
  | [] => mret s
  | x :: l' => s' ← f s x; foldM f s' l'
  end.

Section SkillGenerator.

Variable config : Configuration.
Variable fs : FileSystem.
Variable repo_path : Path.        (* repo.path, the root of the clone *)

Definition tspl_root : Path := joinpath repo_path (lit "TSPL.docc").

(** One round of the first loop of [_process_files]. *)
Definition index_section (file_map : gmap str (str * Path)) (section : str)
    : IO (gmap str (str * Path)) :=
  let section_path := joinpath tspl_root section in
  if negb (fs_exists fs section_path) then
    log_warning (lit "Missing section: " ++ section);;
    mret file_map
  else
    mret (foldl (fun fm name =>
                   let md_file := section_path ++ [name] in
                   <[path_stem md_file := (section, md_file)]> fm)
                file_map (fs_glob_md fs section_path)).

(** The index of the available files, [name -> (section, path)]. *)
Definition build_file_map : IO (gmap str (str * Path)) :=
  foldM index_section ∅ (SECTIONS config).

(** [{s: 0 for s in self.config.SECTIONS}] *)
Definition initial_counts : odict nat :=
  foldl (fun d s => odict_set s 0%nat d) [] (SECTIONS config).

(** One round of the loop over [doc_order]: the state is the registry
    and [processed_sections]. *)
Definition process_document (file_map : gmap str (str * Path))
    (st : list DocumentMetadata * odict nat) (doc_name : str)
    : IO (list DocumentMetadata * odict nat) :=
  match file_map !! doc_name with
  | None => mret st
  | Some (section, source_path) =>
      metadata ← lift (extract_metadata fs source_path section);
      let registry := st.1 ++ [metadata] in
      count ← lift (match odict_get section st.2 with
                    | Some c => Ok c
                    | None => Err (KeyError section)
                    end);
      let processed := odict_set section (S count) st.2 in
      when (negb (dry_run config))
        (let dest_dir := joinpath (output_path config) section in
         emit (Mkdir dest_dir);;
         emit (Copy2 source_path (joinpath dest_dir (path_name source_path))));;
      mret (registry, processed)
  end.

(** The resolution pass: the loop of [_process_files] over [doc_order],
    from an empty registry. *)
Definition resolution_pass (file_map : gmap str (str * Path))
    (doc_order : list str) : IO (list DocumentMetadata * odict nat) :=
  foldM (process_document file_map) ([], initial_counts) doc_order.

(** [[s for s, count in processed_sections.items() if count == 0]] *)
Definition missing_sections (processed : odict nat) : list str :=
  fst <$> filter (fun kv => kv.2 = 0%nat) processed.

(** [SkillGenerator._process_files]; returns [self.metadata_registry]. *)
Definition process_files (doc_order : list str) : IO (list DocumentMetadata) :=
  file_map ← build_file_map;
  st ← resolution_pass file_map doc_order;
  match missing_sections st.2 with
  | (_ :: _) as missing => raise (NoDocumentsError missing)
  | [] =>
      log_info (lit "Processed " ++ str_of_nat (length st.1)
                ++ lit " files to " ++ path_str (output_path config));;
      mret st.1
  end.

(** [SkillGenerator._prepare_directory].  As for every write of a run,
    [shutil.rmtree] and [Path.mkdir] are recorded as requested actions
    and taken to succeed: an output path that exists is taken to be a
    directory that the run may remove.  (On an output path that is a
    regular file [shutil.rmtree] raises instead; such runs are outside
    this model.) *)
Definition prepare_directory : IO unit :=
  when (fs_exists fs (output_path config)) (emit (Rmtree (output_path config)));;
  emit (Mkdir (output_path config)).

(** [SkillGenerator._create_zip_archive] *)
Definition create_zip_archive : IO unit :=
  let zip_path := with_suffix (output_path config) (lit ".zip") in
  emit (MakeArchive (path_str (output_path config))
                    (path_parent (output_path config))
                    (path_name (output_path config)));;
  log_info (lit "Archive created: " ++ path_str zip_path).

(** The loop of [_copy_license] over the candidate names. *)
Fixpoint copy_license_from (names : list str) : IO unit :=
  match names with
  | [] => raise (FileNotFoundError
            (lit "No license file found in repository root. Required for packaging."))
  | name :: rest =>
      let lic_path := joinpath repo_path name in
      if fs_exists fs lic_path then
        emit (Copy2 lic_path (joinpath (output_path config) name));;
        log_info (lit "Included license: " ++ name)
      else copy_license_from rest
  end.

(** [SkillGenerator._copy_license] *)
Definition copy_license : IO unit :=
  copy_license_from [lit "LICENSE.md"; lit "LICENSE"; lit "LICENSE.txt"].

(** [f" ({self.version})" if self.version else ""] *)
Definition version_suffix (version : option str) : str :=
  match version with
  | Some ((_ :: _) as v) => lit " (" ++ v ++ lit ")"
  | _ => []
  end.

(** The first loop of [_generate_skill_md]: the registry grouped by
    section, for the configured sections only. *)
Definition group_by_section (registry : list DocumentMetadata)
    : gmap str (list DocumentMetadata) :=
  let sections := foldl (fun d s => <[s := []]> d) ∅ (SECTIONS config) in
  foldl (fun d meta =>
           match d !! section meta with
           | Some docs => <[section meta := docs ++ [meta]]> d
           | None => d
           end)
        sections registry.

Definition section_titles : gmap str str :=
  list_to_map
    [(lit "GuidedTour", lit "Getting Started (GuidedTour)");
     (lit "LanguageGuide", lit "Language Guide");
     (lit "ReferenceManual", lit "Reference Manual")].

(** [doc.description.replace('[', '(').replace(']', ')')] *)
Definition safe_desc (description : str) : str :=
  replace_char 93 41 (replace_char 91 40 description).

(** The line of one document in the index. *)
Definition index_entry (doc : DocumentMetadata) : str :=
  let rel_path := section doc ++ lit "/" ++ filename doc in
  lit "- **" ++ title doc ++ lit "** ([" ++ rel_path ++ lit "]("
    ++ rel_path ++ lit ")): " ++ safe_desc (description doc).

(** One round of the loop over [SECTIONS] in [_generate_skill_md]. *)
Definition append_section (sections : gmap str (list DocumentMetadata))
    (content : list str) (section_key : str) : list str :=
  let docs := default [] (sections !! section_key) in
  if is_empty_list docs then content
  else
    let display_title := default section_key (section_titles !! section_key) in
    let content := content ++ [lit "### " ++ display_title] in
    let content := content ++ [[]] in
    let content := foldl (fun c doc => c ++ [index_entry doc]) content docs in
    content ++ [[]].

Definition index_header (version : option str) : list str :=
  let desc :=
    lit "Provides the complete content of 'The Swift Programming Language"
    ++ version_suffix version ++ lit "' book by Apple. "
    ++ lit "Use this skill when you need to verify Swift syntax, look up language features, understand concurrency, "
    ++ lit "resolve compiler errors, or consult the formal language reference." in
  [ lit "---";
    lit "name: " ++ SKILL_NAME config;
    lit "description: " ++ desc;
    lit "---";
    [];
    lit "# The Swift Programming Language";
    [];
    lit "The entire content of The Swift Programming Language"
      ++ version_suffix version
      ++ lit " book by Apple. This is a comprehensive language reference and guide to the Swift programming language.";
    [];
    lit "## Documentation Structure";
    [] ].

Definition index_footer : list str :=
  [ lit "## Usage Notes";
    [];
    lit "- Organized progressively: GuidedTour " ++ [8594]
      ++ lit " LanguageGuide " ++ [8594] ++ lit " ReferenceManual";
    [];
    lit "## License & Attribution";
    [];
    lit "This skill contains content from [The Swift Programming Language]("
      ++ REPO_URL config ++ lit "), "
      ++ lit "distributed under the **Apache 2.0 License**.";
    [];
    lit "Copyright " ++ [169] ++ lit " Apple Inc. and the Swift project authors.";
    [];
    lit "This package is a derivative work that aggregates the original markdown content "
      ++ lit "into a structure optimized for LLM context.";
    [] ].

(** The list [content] of [_generate_skill_md] before it is joined. *)
Definition skill_md_lines (registry : list DocumentMetadata)
    (version : option str) : list str :=
  let sections := group_by_section registry in
  let content := index_header version in
  let content := foldl (append_section sections) content (SECTIONS config) in
  content ++ index_footer.

(** The text written to [SKILL.md]. *)
Definition skill_md_text (registry : list DocumentMetadata)
    (version : option str) : str :=
  join [10] (skill_md_lines registry version).

(** [SkillGenerator._generate_skill_md] *)
Definition generate_skill_md (registry : list DocumentMetadata)
    (version : option str) : IO unit :=
  let out_file := joinpath (output_path config) (lit "SKILL.md") in
  emit (WriteText out_file (skill_md_text registry version)).

(** [bool(self.version)] *)
Definition truthy (version : option str) : bool :=
  match version with Some (_ :: _) => true | _ => false end.

(** [SkillGenerator.build]; [gh_output] is [os.getenv('GITHUB_OUTPUT')]. *)
Definition build (gh_output : option str) : IO unit :=
  version ← get_version fs repo_path (TOC_REL_PATH config);
  when (truthy version)
    (log_info (lit "Found Swift version: " ++ default [] version));;
  match gh_output with
  | Some ((_ :: _) as file) =>
      let ver := if truthy version then default [] version else lit "Unknown" in
      emit (AppendText file (lit "swift_version=" ++ ver ++ [10]))
  | _ => mret tt
  end;;
  doc_order ← parse_toc_order fs repo_path (TOC_REL_PATH config);
  when (negb (dry_run config)) prepare_directory;;
  registry ← process_files doc_order;
  when (negb (dry_run config)) copy_license;;
  when (negb (dry_run config)) (generate_skill_md registry version);;
  when (negb (dry_run config)) create_zip_archive;;
  log_info (lit "Packaging complete").

End SkillGenerator.

(** ** Example inputs *)

Definition LF : str := [10].

(** A document without a level-1 heading. *)
Definition doc_no_title : str :=
  lit "Some prose." ++ LF ++ lit "More prose.".

(** A document whose content after the title is headings and blockquotes. *)
Definition doc_headings_only : str :=
  lit "# Title" ++ LF ++ lit "## Heading" ++ LF ++ lit "> quote".

(** A document whose body opens a metadata block that is never closed. *)
Definition doc_open_block : str :=
  lit "# Title" ++ LF ++ lit "@Comment {" ++ LF ++ lit "Some prose."
    ++ LF ++ lit "More prose.".

(** ** Reference markers, as the specification words them *)

(** The text of a reference marker [<doc:ident>]. *)
Definition marker (ident : str) : str := DOC_OPEN ++ ident ++ [GT].

(** An identifier is a non-empty text without ['>']. *)
Definition is_identifier (ident : str) : Prop := ident ≠ [] ∧ GT ∉ ident.

(** [s] begins with a reference marker. *)
Definition marker_at (s : str) : Prop :=
  ∃ ident rest, is_identifier ident ∧ s = marker ident ++ rest.

(** [Occurrences s idents]: [idents] are the identifiers of the reference
    markers of [s] in order of appearance, each marker being the first one
    that begins after the end of the previous one. *)
Inductive Occurrences : str -> list str -> Prop :=
| occ_none s :
    (∀ pre suf, s = pre ++ suf → ¬ marker_at suf) →
    Occurrences s []
| occ_next gap ident rest idents :
    is_identifier ident →
    (∀ pre suf, gap = pre ++ suf → suf ≠ [] →
                ¬ marker_at (suf ++ marker ident ++ rest)) →
    Occurrences rest idents →
    Occurrences (gap ++ marker ident ++ rest) (ident :: idents).

(** ** Version headings, as the specification words them *)

(** A non-empty run of white space. *)
Definition is_blank (ws : str) : Prop :=
  ws ≠ [] ∧ Forall (fun c => isspace c = true) ws.

(** A version is a non-empty text without [')']. *)
Definition is_version (v : str) : Prop := v ≠ [] ∧ RPAREN ∉ v.

(** The heading ['#', ws1, the title, ws2, '(', v, ')']. *)
Definition heading_with (ws1 ws2 v : str) : str :=
  [35] ++ ws1 ++ BOOK_TITLE ++ ws2 ++ [LPAREN] ++ v ++ [RPAREN].

(** [s] begins with a heading of the book title with version [v]. *)
Definition heading_at (s v : str) : Prop :=
  ∃ ws1 ws2 rest,
    is_blank ws1 ∧ is_blank ws2 ∧ is_version v
    ∧ s = heading_with ws1 ws2 v ++ rest.

(** [pre] ends where a line starts: it is empty or ends with a line feed. *)
Definition line_start (pre : str) : Prop :=
  pre = [] ∨ ∃ pre', pre = pre' ++ LF.

(** The lines of a text, split at its line feeds. *)
Fixpoint lines_from (cur : str) (s : str) : list str :=
  match s with
  | [] => [rev cur]
  | c :: s' =>
      if c =? 10 then rev cur :: lines_from [] s'
      else lines_from (c :: cur) s'
  end.

Definition lines_of (s : str) : list str := lines_from [] s.

(** A TOC whose heading line has no parenthesized suffix, followed by a
    line that starts with a parenthesis. *)
Definition toc_heading_then_paren : str :=
  lit "# The Swift Programming Language" ++ LF ++ lit "(6.2)" ++ LF.

(** ** The index, as the specification words it *)

(** Square brackets become parentheses. *)
Definition sanitize_char (c : N) : N :=
  if c =? 91 then 40 else if c =? 93 then 41 else c.

(** The entry of a document: its title, its relative path (as the text
    and as the target of a link) and its description. *)
Definition entry_line (title rel_path desc : str) : str :=
  lit "- **" ++ title ++ lit "** ([" ++ rel_path ++ lit "](" ++ rel_path
    ++ lit ")): " ++ desc.

Definition entry_of (doc : DocumentMetadata) : str :=
  entry_line (title doc) (section doc ++ lit "/" ++ filename doc)
             (map sanitize_char (description doc)).

(** The block of a section: nothing when the registry has no document of
    the section; otherwise a heading, an empty line, one entry per document
    of the section in registry order, and an empty line. *)
Definition section_block (registry : list DocumentMetadata) (s : str)
    : list str :=
  match filter (fun doc => section doc = s) registry with
  | [] => []
  | docs =>
      [lit "### " ++ default s (section_titles !! s); []]
        ++ map entry_of docs ++ [[]]
  end.

(** ** The resolution pass, as the specification words it *)

(** The identifiers of the order that the index resolves, as the
    (section, path) pairs the index gives them; the others are dropped. *)
Definition resolved_documents (file_map : gmap str (str * Path))
    (doc_order : list str) : list (str * Path) :=
  omap (fun doc_name => file_map !! doc_name) doc_order.

(** The number of resolved documents of a section. *)
Definition count_section (s : str) (resolved : list (str * Path)) : nat :=
  length (filter (fun sp => sp.1 = s) resolved).

(** The file-system requests of the pass: for each resolved document, its
    section directory and its copy; none in a dry run. *)
Definition copy_events (config : Configuration) (resolved : list (str * Path))
    : list Event :=
  if dry_run config then []
  else flat_map (fun sp =>
                   let dest_dir := joinpath (output_path config) sp.1 in
                   [Mkdir dest_dir;
                    Copy2 sp.2 (joinpath dest_dir (path_name sp.2))])
                resolved.

(** ** The phases of a run *)

(** The warnings of the directory scan: one for each of the sections that
    has no directory, in the order of the sections. *)
Definition missing_warnings (fs : FileSystem) (repo_path : Path)
    (sections : list str) : list Event :=
  (fun s => LogWarning (lit "Missing section: " ++ s))
    <$> filter (fun s => fs_exists fs (joinpath (tspl_root repo_path) s) = false)
               sections.

(** The events of [build] before [_process_files], once the TOC is read. *)
Definition prelude_events (config : Configuration) (fs : FileSystem)
    (gh_output : option str) (version : option str) : list Event :=
  (if truthy version
   then [LogInfo (lit "Found Swift version: " ++ default [] version)]
   else [])
  ++ match gh_output with
     | Some ((_ :: _) as file) =>
         [AppendText file
            (lit "swift_version="
             ++ (if truthy version then default [] version else lit "Unknown")
             ++ [10])]
     | _ => []
     end
  ++ (if dry_run config then []
      else (if fs_exists fs (output_path config)
            then [Rmtree (output_path config)] else [])
           ++ [Mkdir (output_path config)]).

(** The rest of [build] after [_process_files]. *)
Definition finish (config : Configuration) (fs : FileSystem) (repo_path : Path)
    (registry : list DocumentMetadata) (version : option str) : IO unit :=
  when (negb (dry_run config)) (copy_license config fs repo_path);;
  when (negb (dry_run config)) (generate_skill_md config registry version);;
  when (negb (dry_run config)) (create_zip_archive config);;
  log_info (lit "Packaging complete").

Definition is_log (ev : Event) : bool :=
  match ev with LogInfo _ | LogWarning _ => true | _ => false end.

Definition is_write_text (ev : Event) : bool :=
  match ev with WriteText _ _ => true | _ => false end.

(** ** An example source tree *)

(** The file system with the given directories (each with the names that a
    scan for [*.md] yields, in scan order) and the given text files. *)
Definition make_fs (dirs : list (Path * list str)) (files : list (Path * str))
    : FileSystem :=
  {| fs_exists := fun p =>
       bool_decide (p ∈ fst <$> dirs) || bool_decide (p ∈ fst <$> files);
     fs_glob_md := fun p =>
       match list_find (fun d => d.1 = p) dirs with
       | Some (_, d) => d.2
       | None => []
       end;
     fs_read_text := fun p =>
       match list_find (fun f => f.1 = p) files with
       | Some (_, f) => Ok f.2
       | None => Err (ReadError p)
       end |}.

Definition example_repo : Path := [lit "repo"].
Definition example_tspl : Path := example_repo ++ [lit "TSPL.docc"].

Definition example_toc : str :=
  lit "# The Swift Programming Language (6.2)" ++ LF ++ LF
    ++ lit "- <doc:AboutSwift>" ++ LF ++ lit "- <doc:TheBasics>" ++ LF
    ++ lit "- <doc:Elsewhere>" ++ LF ++ lit "- <doc:LexicalStructure>" ++ LF.

(** The files of the tree apart from the document of the third section. *)
Definition example_common_files : list (Path * str) :=
  [ (example_tspl ++ [lit "The-Swift-Programming-Language.md"], example_toc);
    (example_tspl ++ [lit "GuidedTour"; lit "AboutSwift.md"],
     lit "# About Swift" ++ LF ++ LF ++ lit "Swift is a [fantastic] way to write software.");
    (example_tspl ++ [lit "LanguageGuide"; lit "TheBasics.md"],
     lit "# The Basics" ++ LF ++ LF ++ lit "Work with common kinds of data.");
    (example_repo ++ [lit "LICENSE.txt"], lit "Apache License") ].

(** A complete tree: the three section directories, one document each. *)
Definition example_fs : FileSystem :=
  make_fs
    [ (example_tspl ++ [lit "GuidedTour"], [lit "AboutSwift.md"]);
      (example_tspl ++ [lit "LanguageGuide"], [lit "TheBasics.md"]);
      (example_tspl ++ [lit "ReferenceManual"], [lit "LexicalStructure.md"]) ]
    (example_common_files
       ++ [ (example_tspl ++ [lit "ReferenceManual"; lit "LexicalStructure.md"],
             lit "# Lexical Structure" ++ LF ++ LF
               ++ lit "Use the lowest-level components of the syntax.") ]).

(** The same tree without the directory of the third section. *)
Definition example_fs_missing : FileSystem :=
  make_fs
    [ (example_tspl ++ [lit "GuidedTour"], [lit "AboutSwift.md"]);
      (example_tspl ++ [lit "LanguageGuide"], [lit "TheBasics.md"]) ]
    example_common_files.

Definition example_config (dry : bool) : Configuration :=
  make_config [lit "out"; lit "programming-swift"] false dry.

(** The index of [example_fs]. *)
Definition example_file_map : gmap str (str * Path) :=
  list_to_map
    [ (lit "AboutSwift",
       (lit "GuidedTour", example_tspl ++ [lit "GuidedTour"; lit "AboutSwift.md"]));
      (lit "TheBasics",
       (lit "LanguageGuide", example_tspl ++ [lit "LanguageGuide"; lit "TheBasics.md"]));
      (lit "LexicalStructure",
       (lit "ReferenceManual",
        example_tspl ++ [lit "ReferenceManual"; lit "LexicalStructure.md"])) ].

Definition example_order : list str :=
  [lit "AboutSwift"; lit "TheBasics"; lit "Elsewhere"; lit "LexicalStructure"].

(** The index that the scan of [example_fs_missing] builds. *)
Definition example_missing_file_map : gmap str (str * Path) :=
  match (build_file_map (example_config false) example_fs_missing example_repo).2 with
  | Ok fm => fm
  | Err _ => ∅
  end.

(** The registry and the counts of the pass over [example_fs_missing]. *)
Definition example_missing_pass : list DocumentMetadata * odict nat :=
  match (resolution_pass (example_config false) example_fs_missing
           example_missing_file_map example_order).2 with
  | Ok st => st
  | Err _ => ([], [])
  end.

(** ** A source tree with two files of one identifier *)

(** The data written as index documents by the events of a run. *)
Definition written_index (trace : list Event) : list str :=
  omap (fun ev => match ev with WriteText _ d => Some d | _ => None end) trace.

(** The copies (source, destination) requested by the events of a run. *)
Definition copied_files (trace : list Event) : list (Path * Path) :=
  omap (fun ev => match ev with Copy2 a b => Some (a, b) | _ => None end) trace.

Definition collision_toc : str :=
  lit "# The Swift Programming Language (6.2)" ++ LF
    ++ lit "- <doc:.md>" ++ LF ++ lit "- <doc:TheBasics>" ++ LF
    ++ lit "- <doc:LexicalStructure>" ++ LF.

(** In the first section, the files [.md] and [.md.md] both have the stem
    [.md]; the scan yields them in this order. *)
Definition collision_fs : FileSystem :=
  make_fs
    [ (example_tspl ++ [lit "GuidedTour"], [lit ".md"; lit ".md.md"]);
      (example_tspl ++ [lit "LanguageGuide"], [lit "TheBasics.md"]);
      (example_tspl ++ [lit "ReferenceManual"], [lit "LexicalStructure.md"]) ]
    [ (example_tspl ++ [lit "The-Swift-Programming-Language.md"], collision_toc);
      (example_tspl ++ [lit "GuidedTour"; lit ".md"],
       lit "# First" ++ LF ++ LF ++ lit "The file named dot md.");
      (example_tspl ++ [lit "GuidedTour"; lit ".md.md"],
       lit "# Second" ++ LF ++ LF ++ lit "The file named dot md dot md.");
      (example_tspl ++ [lit "LanguageGuide"; lit "TheBasics.md"],
       lit "# The Basics" ++ LF ++ LF ++ lit "Work with common kinds of data.");
      (example_tspl ++ [lit "ReferenceManual"; lit "LexicalStructure.md"],
       lit "# Lexical Structure" ++ LF ++ LF
         ++ lit "Use the lowest-level components of the syntax.");
      (example_repo ++ [lit "LICENSE.txt"], lit "Apache License") ].

(** The same tree, with every directory scanned in the reverse order. *)
Definition reverse_scan (fs : FileSystem) : FileSystem :=
  {| fs_exists := fs_exists fs;
     fs_glob_md := fun p => reverse (fs_glob_md fs p);
     fs_read_text := fs_read_text fs |}.

(** ** Further example inputs *)

(** A document with text before its title, and headings, markup and a
    blockquote between the title and its first paragraph. *)
Definition doc_plain : str :=
  lit "Preface." ++ LF ++ LF ++ lit "#  The Basics  " ++ LF ++ LF
    ++ lit "## Overview" ++ LF ++ lit "<!-- note -->" ++ LF ++ lit "> Quote"
    ++ LF ++ lit "  Work with common kinds of data.  " ++ LF
    ++ lit "Second line of the paragraph.".

(** The lines of a document that begins with a closed metadata block. *)
Definition block_open : str := lit "@Metadata {".
Definition block_body : list str :=
  [lit "  @PageKind(article)"; []; lit "  # Not a title"].
Definition block_close : str := lit "  }".
Definition block_rest : list str := [lit "# Real Title"; lit "Body text."].

(** ** The files that the directory scan meets *)

(** The index entries of the files of one section, in the order of the
    scan of its directory: none when the directory does not exist. *)
Definition section_entries (fs : FileSystem) (repo_path : Path) (s : str)
    : list (str * (str * Path)) :=
  let dir := joinpath (tspl_root repo_path) s in
  if fs_exists fs dir
  then (fun name => (path_stem (dir ++ [name]), (s, dir ++ [name])))
         <$> fs_glob_md fs dir
  else [].

(** The entries of all the sections, in the order of the sections. *)
Definition scan_entries (fs : FileSystem) (repo_path : Path)
    (sections : list str) : list (str * (str * Path)) :=
  sections ≫= section_entries fs repo_path.

(** The example tree with a second file of stem [TheBasics], in the third
    section, and a file of the same stem met later in the second one. *)
Definition example_fs_overlap : FileSystem :=
  make_fs
    [ (example_tspl ++ [lit "GuidedTour"], [lit "AboutSwift.md"]);
      (example_tspl ++ [lit "LanguageGuide"], [lit "TheBasics.md"]);
      (example_tspl ++ [lit "ReferenceManual"],
       [lit "TheBasics.md"; lit "LexicalStructure.md"]) ]
    example_common_files.

(** ** A configuration with another mode *)

(** The configuration with its [dry_run] flag set to [b]. *)
Definition with_dry_run (b : bool) (config : Configuration) : Configuration :=
  {| output_path := output_path config; keep_temp := keep_temp config;
     dry_run := b; REPO_URL := REPO_URL config;
     SKILL_NAME := SKILL_NAME config; TOC_REL_PATH := TOC_REL_PATH config;
     SECTIONS := SECTIONS config |}.

(** The tree of [example_fs] in which the document of the second section
    has a title and nothing else. *)
Definition example_fs_untitled : FileSystem :=
  make_fs
    [ (example_tspl ++ [lit "GuidedTour"], [lit "AboutSwift.md"]);
      (example_tspl ++ [lit "LanguageGuide"], [lit "TheBasics.md"]);
      (example_tspl ++ [lit "ReferenceManual"], [lit "LexicalStructure.md"]) ]
    [ (example_tspl ++ [lit "The-Swift-Programming-Language.md"], example_toc);
      (example_tspl ++ [lit "GuidedTour"; lit "AboutSwift.md"],
       lit "# About Swift" ++ LF ++ LF ++ lit "Swift is a way to write software.");
      (example_tspl ++ [lit "LanguageGuide"; lit "TheBasics.md"],
       lit "# The Basics" ++ LF);
      (example_tspl ++ [lit "ReferenceManual"; lit "LexicalStructure.md"],
       lit "# Lexical Structure" ++ LF ++ LF ++ lit "Use the syntax.");
      (example_repo ++ [lit "LICENSE.txt"], lit "Apache License") ].

(** The registry of the run over [example_fs]. *)
Definition example_registry : list DocumentMetadata :=
  match (process_files (example_config true) example_fs example_repo
           example_order).2 with
  | Ok registry => registry
  | Err _ => []
  end.

(** ** The license candidates *)

Definition LICENSE_NAMES : list str :=
  [lit "LICENSE.md"; lit "LICENSE"; lit "LICENSE.txt"].

Definition NO_LICENSE : PyError :=
  FileNotFoundError
    (lit "No license file found in repository root. Required for packaging.").

(** The example tree without its license file. *)
Definition example_fs_unlicensed : FileSystem :=
  make_fs
    [ (example_tspl ++ [lit "GuidedTour"], [lit "AboutSwift.md"]);
      (example_tspl ++ [lit "LanguageGuide"], [lit "TheBasics.md"]);
      (example_tspl ++ [lit "ReferenceManual"], [lit "LexicalStructure.md"]) ]
    [ (example_tspl ++ [lit "The-Swift-Programming-Language.md"], example_toc);
      (example_tspl ++ [lit "GuidedTour"; lit "AboutSwift.md"],
       lit "# About Swift" ++ LF ++ LF ++ lit "Swift is a way to write software.");
      (example_tspl ++ [lit "LanguageGuide"; lit "TheBasics.md"],
       lit "# The Basics" ++ LF ++ LF ++ lit "Work with common kinds of data.");
      (example_tspl ++ [lit "ReferenceManual"; lit "LexicalStructure.md"],
       lit "# Lexical Structure" ++ LF ++ LF ++ lit "Use the syntax.") ].

(** The events and the registry of [_process_files] over a tree, in a
    real run. *)
Definition example_process (fs : FileSystem)
    : list Event * list DocumentMetadata :=
  match process_files (example_config false) fs example_repo example_order with
  | (t, Ok registry) => (t, registry)
  | (t, Err _) => (t, [])
  end.

(** ** The clone and the entry point *)

(** The outcome of [subprocess.run(cmd, check=True, ...)] in [_clone]. *)
Inductive CloneOutcome :=
| Cloned
| CalledProcessError (stderr : str)
| CommandNotFound        (* FileNotFoundError: there is no [git] *)
| OtherException.        (* an exception that neither clause catches *)

(** What a run of [main] finds outside the program. *)
Record World := {
  w_mkdtemp : option str;        (* tempfile.mkdtemp, [None] when it raises *)
  w_git_clone : CloneOutcome;
  w_temp_exists : bool;          (* os.path.exists(self._temp_dir) in _cleanup *)
  w_rmtree : option str;         (* str(e) when shutil.rmtree raises e there *)
  w_tree : FileSystem;           (* the file system once the clone is made *)
  w_github_output : option str;  (* os.getenv('GITHUB_OUTPUT') *)
}.

(** The exception that reaches the handler of [main]. *)
Inductive Failure :=
| MkdtempError
| CloneError (message : str)     (* RuntimeError(message), from [_clone] *)
| SubprocessError                (* the exception of [OtherException] *)
| BuildError (e : PyError).

Inductive MainEvent :=
| Run (ev : Event)               (* a log record or an action, as in [build] *)
| Mkdtemp (temp_dir : str)
| GitClone (url : str) (dest : str)
| RemoveTemp (temp_dir : str)    (* shutil.rmtree(self._temp_dir) *)
| LogError (msg : str)
| LogFatal (e : Failure).        (* logger.error(f"Fatal error: {e}") *)

(** [Path(s)] for a normalised [s], as [tempfile.mkdtemp] returns.  The
    root of an absolute path is kept as an empty first component, so that
    [path_str] gives the leading slash back. *)
Definition path_of (s : str) : Path :=
  match s with
  | c :: s' =>
      if c =? 47 then [] :: split_slash_from [] s' else split_slash_from [] s
  | [] => []
  end.

(** [GitRepository.path] *)
Definition repo_of (temp_dir : str) : Path :=
  joinpath (path_of temp_dir) (lit "repo").

(** [GitRepository._cleanup] *)
Definition cleanup (config : Configuration) (w : World) (temp_dir : str)
    : list MainEvent :=
  if keep_temp config
  then [Run (LogInfo (lit "Temp directory retained: " ++ temp_dir))]
  else if (negb (is_empty_list temp_dir) && w_temp_exists w)%bool
  then match w_rmtree w with
       | None => [RemoveTemp temp_dir]
       | Some e =>
           [RemoveTemp temp_dir;
            Run (LogWarning (lit "Failed to clean up temp dir: " ++ e))]
       end
  else [].

(** [GitRepository._clone]: the events, and the temporary directory or
    the exception raised. *)
Definition clone (config : Configuration) (w : World)
    : list MainEvent * (Failure + str) :=
  match w_mkdtemp w with
  | None => ([], inl MkdtempError)
  | Some temp_dir =>
      let started :=
        [Mkdtemp temp_dir;
         Run (LogInfo (lit "Cloning repository from " ++ REPO_URL config
                       ++ lit "..."));
         GitClone (REPO_URL config) (path_str (repo_of temp_dir))] in
      match w_git_clone w with
      | Cloned =>
          (started ++ [Run (LogInfo (lit "Repository cloned successfully"))],
           inr temp_dir)
      | CalledProcessError stderr =>
          (started ++ [LogError (lit "Git clone failed: " ++ strip stderr)]
             ++ cleanup config w temp_dir,
           inl (CloneError (lit "Failed to clone repository: " ++ stderr)))
      | CommandNotFound =>
          (started ++ cleanup config w temp_dir,
           inl (CloneError
                  (lit "Git command not found. Please ensure git is installed.")))
      | OtherException => (started, inl SubprocessError)
      end
  end.

(** The [try] statement of [main], for the parsed configuration: the
    events and the exit status.  [__exit__] runs when the body of the
    [with] statement ends, normally or not; it does not run when
    [__enter__] raises. *)
Definition main (config : Configuration) (w : World)
    : list MainEvent * nat :=
  match clone config w with
  | (t, inl e) => (t ++ [LogFatal e], 1%nat)
  | (t, inr temp_dir) =>
      let '(tb, r) :=
        build config (w_tree w) (repo_of temp_dir) (w_github_output w) in
      let t := t ++ (Run <$> tb) ++ cleanup config w temp_dir in
      match r with
      | Ok _ => (t, 0%nat)
      | Err e => (t ++ [LogFatal (BuildError e)], 1%nat)
      end
  end.

Definition is_fatal (ev : MainEvent) : bool :=
  match ev with LogFatal _ => true | _ => false end.

Definition is_remove_temp (ev : MainEvent) : bool :=
  match ev with RemoveTemp _ => true | _ => false end.

(** The example tree as a clone in [/tmp/swift-skill-x]. *)
Definition example_temp_dir : str := lit "/tmp/swift-skill-x".

Definition example_clone : FileSystem :=
  make_fs
    [ (repo_of example_temp_dir ++ [lit "TSPL.docc"; lit "GuidedTour"],
       [lit "AboutSwift.md"]);
      (repo_of example_temp_dir ++ [lit "TSPL.docc"; lit "LanguageGuide"],
       [lit "TheBasics.md"]);
      (repo_of example_temp_dir ++ [lit "TSPL.docc"; lit "ReferenceManual"],
       [lit "LexicalStructure.md"]) ]
    [ (repo_of example_temp_dir
         ++ [lit "TSPL.docc"; lit "The-Swift-Programming-Language.md"],
       example_toc);
      (repo_of example_temp_dir
         ++ [lit "TSPL.docc"; lit "GuidedTour"; lit "AboutSwift.md"],
       lit "# About Swift" ++ LF ++ LF ++ lit "Swift is a way to write software.");
      (repo_of example_temp_dir
         ++ [lit "TSPL.docc"; lit "LanguageGuide"; lit "TheBasics.md"],
       lit "# The Basics" ++ LF ++ LF ++ lit "Work with common kinds of data.");
      (repo_of example_temp_dir
         ++ [lit "TSPL.docc"; lit "ReferenceManual"; lit "LexicalStructure.md"],
       lit "# Lexical Structure" ++ LF ++ LF ++ lit "Use the syntax.");
      (repo_of example_temp_dir ++ [lit "LICENSE.txt"], lit "Apache License") ].

Definition example_world (outcome : CloneOutcome) : World :=
  {| w_mkdtemp := Some example_temp_dir;
     w_git_clone := outcome;
     w_temp_exists := true;
     w_rmtree := None;
     w_tree := example_clone;
     w_github_output := None |}.

(** An output directory whose name has a suffix. *)
Definition example_config_dotted : Configuration :=
  make_config [lit "out"; lit "swift-6.0"] false false.

(** The tree of [example_fs_untitled] with the output directory of an
    earlier run. *)
Definition example_fs_rerun : FileSystem :=
  make_fs
    [ (example_tspl ++ [lit "GuidedTour"], [lit "AboutSwift.md"]);
      (example_tspl ++ [lit "LanguageGuide"], [lit "TheBasics.md"]);
      (example_tspl ++ [lit "ReferenceManual"], [lit "LexicalStructure.md"]);
      ([lit "out"; lit "programming-swift"], [lit "SKILL.md"]) ]
    [ (example_tspl ++ [lit "The-Swift-Programming-Language.md"], example_toc);
      (example_tspl ++ [lit "GuidedTour"; lit "AboutSwift.md"],
       lit "# About Swift" ++ LF ++ LF ++ lit "Swift is a way to write software.");
      (example_tspl ++ [lit "LanguageGuide"; lit "TheBasics.md"],
       lit "# The Basics" ++ LF);
      (example_tspl ++ [lit "ReferenceManual"; lit "LexicalStructure.md"],
       lit "# Lexical Structure" ++ LF ++ LF ++ lit "Use the syntax.");
      (example_repo ++ [lit "LICENSE.txt"], lit "Apache License") ].


(** ** Two clones of the same inputs *)

(** The path [p] relative to [repo_path], for a [p] under [repo_path]. *)
Definition relative_to (repo_path p : Path) : Path :=
  drop (length repo_path) p.

(** The copies requested by the events of a run, each with its source
    relative to the root of the clone. *)
Definition relative_copies (repo_path : Path) (trace : list Event)
    : list (Path * Path) :=
  (fun c => (relative_to repo_path c.1, c.2)) <$> copied_files trace.

(** Two results that are both exceptions, or both values, related by [R]. *)
Definition same_result {A B} (R : A → B → Prop)
    (r1 : result A) (r2 : result B) : Prop :=
  match r1, r2 with
  | Ok a, Ok b => R a b
  | Err _, Err _ => True
  | _, _ => False
  end.

Section TwoClones.

Variables repo1 repo2 : Path.

(** A file of the first clone and the file of the second clone at the
    same place. *)
Definition same_place (p1 p2 : Path) : Prop :=
  ∃ rel, rel ≠ [] ∧ p1 = repo1 ++ rel ∧ p2 = repo2 ++ rel.

Definition same_document (m1 m2 : DocumentMetadata) : Prop :=
  filename m1 = filename m2 ∧ section m1 = section m2
  ∧ title m1 = title m2 ∧ description m1 = description m2
  ∧ same_place (path m1) (path m2).

Definition same_entry (v1 v2 : str * Path) : Prop :=
  v1.1 = v2.1 ∧ same_place v1.2 v2.2.

Definition same_index (fm1 fm2 : gmap str (str * Path)) : Prop :=
  ∀ k, option_Forall2 same_entry (fm1 !! k) (fm2 !! k).

(** The registry and the counts of two passes. *)
Definition same_state (st1 st2 : list DocumentMetadata * odict nat) : Prop :=
  Forall2 same_document st1.1 st2.1 ∧ st1.2 = st2.2.

(** Two runs that write the same index texts, make the same copies and
    end alike. *)
Definition same_run {A B} (R : A → B → Prop) (m1 : IO A) (m2 : IO B) : Prop :=
  written_index m1.1 = written_index m2.1
  ∧ relative_copies repo1 m1.1 = relative_copies repo2 m2.1
  ∧ same_result R m1.2 m2.2.

End TwoClones.

(** [p] relative to [root], when [p] is under [root]. *)
Fixpoint path_under (root p : Path) : option Path :=
  match root, p with
  | [], _ => Some p
  | r :: root', c :: p' =>
      if bool_decide (r = c) then path_under root' p' else None
  | _ :: _, [] => None
  end.

(** The tree that a later run finds: the clone of [fs] made under
    [repo2] instead of [repo1], every directory scanned in the reverse
    order, and the output directory [out] of the earlier run. *)
Definition later_run (repo1 repo2 out : Path) (fs : FileSystem) : FileSystem :=
  {| fs_exists := fun p =>
       match path_under repo2 p with
       | Some rel => fs_exists fs (repo1 ++ rel)
       | None => bool_decide (p = out)
       end;
     fs_glob_md := fun p =>
       match path_under repo2 p with
       | Some rel => reverse (fs_glob_md fs (repo1 ++ rel))
       | None => []
       end;
     fs_read_text := fun p =>
       match path_under repo2 p with
       | Some rel => fs_read_text fs (repo1 ++ rel)
       | None => Err (ReadError p)
       end |}.

Definition first_clone : Path :=
  [[]; lit "tmp"; lit "swift-skill-a"; lit "repo"].

Definition second_clone : Path :=
  [[]; lit "tmp"; lit "swift-skill-b"; lit "repo"].

Definition two_documents_toc : str :=
  lit "# The Swift Programming Language (6.2)" ++ LF ++ LF
    ++ lit "- <doc:GuidedTour>" ++ LF ++ lit "- <doc:AboutSwift>" ++ LF
    ++ lit "- <doc:TheBasics>" ++ LF ++ lit "- <doc:LexicalStructure>" ++ LF.

(** A clone whose first section has two documents, which the scan
    yields in the order opposite to that of the TOC. *)
Definition first_run_fs : FileSystem :=
  make_fs
    [ (first_clone ++ [lit "TSPL.docc"; lit "GuidedTour"],
       [lit "AboutSwift.md"; lit "GuidedTour.md"]);
      (first_clone ++ [lit "TSPL.docc"; lit "LanguageGuide"],
       [lit "TheBasics.md"]);
      (first_clone ++ [lit "TSPL.docc"; lit "ReferenceManual"],
       [lit "LexicalStructure.md"]) ]
    [ (first_clone
         ++ [lit "TSPL.docc"; lit "The-Swift-Programming-Language.md"],
       two_documents_toc);
      (first_clone ++ [lit "TSPL.docc"; lit "GuidedTour"; lit "AboutSwift.md"],
       lit "# About Swift" ++ LF ++ LF ++ lit "Swift is a way to write software.");
      (first_clone ++ [lit "TSPL.docc"; lit "GuidedTour"; lit "GuidedTour.md"],
       lit "# A Swift Tour" ++ LF ++ LF ++ lit "Explore the features of Swift.");
      (first_clone ++ [lit "TSPL.docc"; lit "LanguageGuide"; lit "TheBasics.md"],
       lit "# The Basics" ++ LF ++ LF ++ lit "Work with common kinds of data.");
      (first_clone
         ++ [lit "TSPL.docc"; lit "ReferenceManual"; lit "LexicalStructure.md"],
       lit "# Lexical Structure" ++ LF ++ LF ++ lit "Use the syntax.");
      (first_clone ++ [lit "LICENSE.txt"], lit "Apache License") ].

Definition second_run_fs : FileSystem :=
  later_run first_clone second_clone (output_path (example_config false))
    first_run_fs.

(** * Properties *)

(** Decides a closed membership or equality goal by evaluation. *)
Ltac by_evaluation := apply (bool_decide_unpack _); vm_compute; exact I.

(** Checks a property of every element of a concrete list. *)
Ltac for_each_element H tac :=
  vm_compute in H;
  repeat (apply elem_of_cons in H as [H|H]; [simplify_eq; tac|]);
  by apply elem_of_nil in H.

(** ** Metadata extraction *)

(** Inside a metadata block that no later line closes, every line is
    skipped and the loop ends without a description. *)
Lemma scan_lines_open_block lines title found_title :
  Forall (fun line => strip line ≠ CLOSE_BRACE) lines ->
  scan_lines lines title true found_title = (title, None).
Proof.
  induction 1 as [|line rest Hline _ IH]; cbn [scan_lines]; [done|].
  destruct (startswith AT_SIGN (strip line)); [done|].
  rewrite (bool_decide_eq_false_2 _ Hline). cbn [orb].
  by destruct (bool_decide (strip line = [])).
Qed.

(** Until a line starts with ["# "], no line can become the description:
    the loop ends with the title it started with and no description. *)
Lemma scan_lines_no_title lines title in_block :
  Forall (fun line => startswith HASH_SPACE (strip line) = false) lines ->
  scan_lines lines title in_block false = (title, None).
Proof.
  intros H. revert in_block.
  induction H as [|line rest Hline _ IH]; intros in_block; cbn [scan_lines]; [done|].
  rewrite Hline.
  destruct (startswith AT_SIGN (strip line)); [done|].
  destruct in_block.
  - destruct (bool_decide (strip line = CLOSE_BRACE)); cbn [orb negb]; [done|].
    by destruct (bool_decide (strip line = [])).
  - cbn [negb]. by destruct (is_empty (strip line)).
Qed.

(** C1: on a document none of whose lines starts (once trimmed) with
    ["# "], [extract_metadata] does not return a record with the file
    stem as title: the loop ends without assigning [description], and the
    fallback test [if not description] raises [UnboundLocalError]. *)
Theorem extract_metadata_no_title_raises content file_path section :
  Forall (fun line => startswith HASH_SPACE (strip line) = false)
         (splitlines content) ->
  extract_metadata_text content file_path section
  = Err (UnboundLocalError (lit "description")).
Proof.
  intros H. unfold extract_metadata_text.
  by rewrite (scan_lines_no_title _ _ _ H).
Qed.

Lemma extract_metadata_no_title_raises_witness :
  Forall (fun line => startswith HASH_SPACE (strip line) = false)
         (splitlines doc_no_title)
  /\ extract_metadata_text doc_no_title [lit "Doc.md"] (lit "GuidedTour")
     = Err (UnboundLocalError (lit "description")).
Proof.
  assert (H : Forall (fun line => startswith HASH_SPACE (strip line) = false)
                     (splitlines doc_no_title)).
  { vm_compute. repeat constructor. }
  split; [exact H|].
  exact (extract_metadata_no_title_raises doc_no_title [lit "Doc.md"]
           (lit "GuidedTour") H).
Defined.

(** The same happens after a title that only headings and blockquotes
    follow: the fallback description is not returned. *)
Lemma extract_metadata_headings_only_raises :
  extract_metadata_text doc_headings_only [lit "Doc.md"] (lit "GuidedTour")
  = Err (UnboundLocalError (lit "description")).
Proof. reflexivity. Qed.

(** C10: in the document [doc_open_block] the ['@'] line after the title
    opens a metadata block; the prose lines after it are skipped, the loop
    ends with the title and without a description, and [extract_metadata]
    raises [UnboundLocalError] where the fallback description was to
    apply. *)
Theorem extract_metadata_open_block_after_title :
  scan_lines (splitlines doc_open_block) (lit "Doc") false false
  = (lit "Title", None)
  /\ extract_metadata_text doc_open_block [lit "Doc.md"] (lit "GuidedTour")
     = Err (UnboundLocalError (lit "description")).
Proof. split; reflexivity. Qed.

(** The document of the specification that begins with a metadata block. *)
Example extract_metadata_after_block :
  extract_metadata_text
    (lit "@Metadata" ++ LF ++ lit "@PageKind(article)" ++ LF ++ lit "}" ++ LF
       ++ lit "# Real Title" ++ LF ++ lit "Body text.")
    [lit "Doc.md"] (lit "GuidedTour")
  = Ok {| filename := lit "Doc.md"; section := lit "GuidedTour";
          title := lit "Real Title"; description := lit "Body text.";
          path := [lit "Doc.md"] |}.
Proof. reflexivity. Qed.

(** ** The matcher *)

Lemma startswith_spec prefix s :
  startswith prefix s = true ↔ ∃ t, s = prefix ++ t.
Proof.
  revert s. induction prefix as [|x p IH]; intros s; cbn [startswith].
  - split; [eauto|done].
  - destruct s as [|y s']; [split; [done|intros [t Ht]; done]|].
    rewrite andb_true_iff, N.eqb_eq, IH. split.
    + intros [-> [t ->]]. by exists t.
    + intros [t Ht]. simplify_eq/=. eauto.
Qed.

Lemma startswith_app prefix t : startswith prefix (prefix ++ t) = true.
Proof. apply startswith_spec. eauto. Qed.

(** Literal characters match exactly the text that starts with them. *)
Lemma match_literal p atoms cap s :
  match_atoms (literal p ++ atoms) cap s
  = if startswith p s then match_atoms atoms cap (drop (length p) s) else None.
Proof.
  revert s. induction p as [|x p IH]; intros s; [done|].
  cbn [literal map app match_atoms startswith length drop].
  destruct s as [|y s']; [done|].
  rewrite (N.eqb_sym y x). destruct (x =? y); [|done].
  cbn [andb]. apply IH.
Qed.

(** Every text splits into its longest prefix in a class and the rest. *)
Lemma longest_run cls (s : str) :
  ∃ run rest, s = run ++ rest ∧ Forall (fun c => cls c = true) run
    ∧ (rest = [] ∨ ∃ c r, rest = c :: r ∧ cls c = false).
Proof.
  induction s as [|x s (run & rest & -> & Hrun & Hrest)].
  - exists [], []. eauto.
  - destruct (cls x) eqn:Hx.
    + exists (x :: run), rest. eauto.
    + exists [], (x :: run ++ rest). split_and!; eauto.
Qed.

Lemma match_plus_stop cls capture k cap acc rest :
  (rest = [] ∨ ∃ c r, rest = c :: r ∧ cls c = false) →
  match_plus cls capture k cap acc rest = None.
Proof. intros [->|(c & r & -> & Hc)]; cbn [match_plus]; [done|by rewrite Hc]. Qed.

(** When the rest of the pattern cannot start with a character of the
    class, backtracking never helps: the repetition takes the longest
    run. *)
Lemma match_plus_longest cls capture (k : Cont) cap acc run rest :
  (∀ cap' x s', cls x = true → k cap' (x :: s') = None) →
  Forall (fun c => cls c = true) run → run ≠ [] →
  (rest = [] ∨ ∃ c r, rest = c :: r ∧ cls c = false) →
  match_plus cls capture k cap acc (run ++ rest)
  = k (if capture then Some (rev acc ++ run) else cap) rest.
Proof.
  intros Hk Hrun. revert acc.
  induction Hrun as [|x run Hx Hrun IH]; intros acc Hne Hrest; [done|].
  cbn [app match_plus]. rewrite Hx.
  destruct run as [|y run'].
  - cbn [app]. rewrite (match_plus_stop _ _ _ _ _ _ Hrest).
    by cbn [rev].
  - rewrite IH by done.
    assert (Hacc : rev (x :: acc) ++ y :: run' = rev acc ++ x :: y :: run').
    { cbn [rev]. by rewrite <- (assoc_L (++)). }
    rewrite Hacc.
    destruct (k _ rest) as [r|]; [done|].
    cbn [app]. apply Hk. by inversion Hrun.
Qed.

Lemma not_chr_true c x : not_chr c x = true ↔ x ≠ c.
Proof. unfold not_chr. rewrite negb_true_iff. apply N.eqb_neq. Qed.

Lemma not_chr_false c x : not_chr c x = false ↔ x = c.
Proof. unfold not_chr. rewrite negb_false_iff. apply N.eqb_eq. Qed.

Lemma Forall_not_chr c (s : str) :
  Forall (fun x => not_chr c x = true) s ↔ c ∉ s.
Proof.
  rewrite Forall_forall. setoid_rewrite not_chr_true.
  split; [intros H Hc; by apply (H c)|intros H x Hx ->; done].
Qed.

(** A repetition followed by a literal character outside its class takes
    the longest run, which that character must follow. *)
Lemma match_run_then cls capture c atoms cap run rest :
  cls c = false → run ≠ [] → Forall (fun x => cls x = true) run →
  match_atoms (Plus cls capture :: Chr c :: atoms) cap (run ++ c :: rest)
  = match_atoms atoms (if capture then Some run else cap) rest.
Proof.
  intros Hc Hne Hrun. cbn [match_atoms].
  rewrite match_plus_longest; [|..|done|done|by eauto].
  - cbn [rev app]. by rewrite N.eqb_refl.
  - intros cap' x s' Hx. destruct (N.eqb_spec x c) as [->|]; congruence.
Qed.

Lemma match_run_then_inv cls capture c atoms cap s r :
  cls c = false →
  match_atoms (Plus cls capture :: Chr c :: atoms) cap s = Some r →
  ∃ run rest, run ≠ [] ∧ Forall (fun x => cls x = true) run
    ∧ s = run ++ c :: rest
    ∧ match_atoms atoms (if capture then Some run else cap) rest = Some r.
Proof.
  intros Hc.
  destruct (longest_run cls s) as (run & rest' & -> & Hrun & Hrest).
  cbn [match_atoms]. destruct run as [|x run].
  { cbn [app]. by rewrite match_plus_stop. }
  rewrite match_plus_longest; [|..|done|done|done].
  - cbn [rev app].
    destruct Hrest as [->|(y & rest & -> & Hy)]; [done|].
    destruct (N.eqb_spec y c) as [->|]; [|done].
    intros Hr. exists (x :: run), rest. by split_and!.
  - intros cap' y s' Hy. destruct (N.eqb_spec y c) as [->|]; congruence.
Qed.

(** ** The order of the documents *)

(** The pattern matches at a reference marker, and captures its
    identifier. *)
Lemma match_doc_ref_marker ident rest :
  is_identifier ident →
  match_atoms DOC_REF_PATTERN None (marker ident ++ rest)
  = Some (Some ident, rest).
Proof.
  intros [Hne Hgt]. unfold DOC_REF_PATTERN, marker.
  rewrite match_literal, <- (assoc_L (++)), startswith_app, drop_app_length.
  rewrite <- (assoc_L (++)). cbn [app].
  rewrite match_run_then; [done|by apply not_chr_false|done|].
  by apply Forall_not_chr.
Qed.

(** The pattern matches only at a reference marker. *)
Lemma match_doc_ref_inv s cap rest :
  match_atoms DOC_REF_PATTERN None s = Some (cap, rest) →
  ∃ ident, cap = Some ident ∧ is_identifier ident ∧ s = marker ident ++ rest.
Proof.
  unfold DOC_REF_PATTERN. rewrite match_literal.
  destruct (startswith DOC_OPEN s) eqn:Hs; [|done].
  apply startswith_spec in Hs as [t ->]. rewrite drop_app_length.
  intros (run & rest' & Hne & Hrun & -> & [= <- <-])%match_run_then_inv;
    [|by apply not_chr_false].
  exists run. split; [done|]. split.
  - split; [done|by apply Forall_not_chr].
  - unfold marker. by rewrite <- !(assoc_L (++)).
Qed.


Lemma marker_length ident rest :
  (length rest < length (marker ident ++ rest))%nat.
Proof. unfold marker. rewrite !length_app. cbn. lia. Qed.

(** More fuel than the length of the text changes nothing. *)
Lemma findall_fuel_enough n m s :
  (length s < n)%nat → (length s < m)%nat →
  findall_fuel DOC_REF_PATTERN n s = findall_fuel DOC_REF_PATTERN m s.
Proof.
  revert m s. induction n as [|n IH]; intros m s Hn Hm; [lia|].
  destruct m as [|m]; [lia|]. cbn [findall_fuel].
  destruct (match_atoms _ _ s) as [[cap rest]|] eqn:Hmatch.
  - apply match_doc_ref_inv in Hmatch as (ident & _ & _ & ->).
    pose proof (marker_length ident rest).
    f_equal. apply IH; lia.
  - destruct s as [|c s']; [done|]. cbn [length] in *. apply IH; lia.
Qed.

(** The equation of [re.findall] for the reference pattern. *)
Lemma findall_doc_ref_eq s :
  findall DOC_REF_PATTERN s
  = match match_atoms DOC_REF_PATTERN None s with
    | Some (cap, rest) => default [] cap :: findall DOC_REF_PATTERN rest
    | None =>
        match s with
        | [] => []
        | _ :: s' => findall DOC_REF_PATTERN s'
        end
    end.
Proof.
  unfold findall at 1. cbn [findall_fuel].
  destruct (match_atoms _ _ s) as [[cap rest]|] eqn:Hmatch.
  - apply match_doc_ref_inv in Hmatch as (ident & _ & _ & ->).
    pose proof (marker_length ident rest).
    f_equal. apply findall_fuel_enough; lia.
  - destruct s as [|c s']; [done|]. cbn [length].
    apply findall_fuel_enough; lia.
Qed.



Lemma Occurrences_skip c s idents :
  ¬ marker_at (c :: s) → Occurrences s idents → Occurrences (c :: s) idents.
Proof.
  intros Hc Hs. destruct Hs as [s Hnone|gap ident rest idents Hid Hgap Hrest].
  - apply occ_none. intros [|x pre] suf Heq; simplify_eq/=; [done|].
    by apply (Hnone pre).
  - apply (occ_next (c :: gap)); [done| |done].
    intros [|x pre] suf Heq Hne; simplify_eq/=; [done|].
    by apply (Hgap pre).
Qed.

Lemma findall_Occurrences n s :
  (length s < n)%nat → Occurrences s (findall DOC_REF_PATTERN s).
Proof.
  revert s. induction n as [|n IH]; intros s Hn; [lia|].
  rewrite findall_doc_ref_eq.
  destruct (match_atoms _ _ s) as [[cap rest]|] eqn:Hmatch.
  - apply match_doc_ref_inv in Hmatch as (ident & -> & Hid & ->).
    pose proof (marker_length ident rest).
    apply (occ_next [] ident rest); [done| |apply IH; lia].
    by intros [|x pre] suf Heq Hne; simplify_eq/=.
  - assert (Hs : ¬ marker_at s).
    { intros (ident & rest & Hid & ->).
      by rewrite match_doc_ref_marker in Hmatch. }
    destruct s as [|c s'].
    + apply occ_none. by intros [|x pre] suf Heq; simplify_eq/=.
    + apply Occurrences_skip; [done|]. apply IH. cbn [length] in Hn. lia.
Qed.


(** References are returned in their order in the text, repeated ones
    included. *)
Example parse_toc_order_in_order :
  parse_toc_order_text
    (lit "- <doc:A>" ++ LF ++ lit "- <doc:C>" ++ LF ++ lit "<doc:B> and <doc:A>")
  = [lit "A"; lit "C"; lit "B"; lit "A"].
Proof. reflexivity. Qed.

(** ** The version of the book *)

Lemma version_pattern_eq :
  VERSION_PATTERN
  = Chr 35 :: Plus isspace false :: Chr 84
      :: literal (drop 1 BOOK_TITLE)
      ++ [Plus isspace false; Chr LPAREN; Plus (not_chr RPAREN) true; Chr RPAREN].
Proof. reflexivity. Qed.

Lemma book_title_eq : BOOK_TITLE = 84 :: drop 1 BOOK_TITLE.
Proof. reflexivity. Qed.

(** The pattern matches at a heading, and captures its version. *)
Lemma match_version_heading ws1 ws2 v rest :
  is_blank ws1 → is_blank ws2 → is_version v →
  match_atoms VERSION_PATTERN None (heading_with ws1 ws2 v ++ rest)
  = Some (Some v, rest).
Proof.
  intros [Hne1 Hws1] [Hne2 Hws2] [Hnev Hv].
  rewrite version_pattern_eq. unfold heading_with.
  rewrite book_title_eq, <- !(assoc_L (++)).
  cbn [app match_atoms N.eqb Pos.eqb].
  change (match_plus isspace false ?k None [] ?s)
    with (match_atoms (Plus isspace false :: Chr 84
            :: literal (drop 1 BOOK_TITLE)
            ++ [Plus isspace false; Chr LPAREN; Plus (not_chr RPAREN) true;
                Chr RPAREN]) None s).
  rewrite match_run_then by done.
  rewrite match_literal, startswith_app, drop_app_length.
  rewrite match_run_then by done.
  rewrite match_run_then; [done|by apply not_chr_false|done|].
  by apply Forall_not_chr.
Qed.

(** The pattern matches only at a heading. *)
Lemma match_version_inv s cap rest :
  match_atoms VERSION_PATTERN None s = Some (cap, rest) →
  ∃ ws1 ws2 v, cap = Some v ∧ is_blank ws1 ∧ is_blank ws2 ∧ is_version v
    ∧ s = heading_with ws1 ws2 v ++ rest.
Proof.
  rewrite version_pattern_eq.
  destruct s as [|c s]; [done|]. cbn [match_atoms].
  destruct (N.eqb_spec c 35) as [->|]; [|done].
  change (match_plus isspace false ?k None [] ?s)
    with (match_atoms (Plus isspace false :: Chr 84
            :: literal (drop 1 BOOK_TITLE)
            ++ [Plus isspace false; Chr LPAREN; Plus (not_chr RPAREN) true;
                Chr RPAREN]) None s).
  intros (ws1 & s1 & Hne1 & Hws1 & -> & Hm)%match_run_then_inv; [|done].
  rewrite match_literal in Hm.
  destruct (startswith (drop 1 BOOK_TITLE) s1) eqn:Hs1; [|done].
  apply startswith_spec in Hs1 as [s2 ->]. rewrite drop_app_length in Hm.
  apply match_run_then_inv in Hm as (ws2 & s3 & Hne2 & Hws2 & -> & Hm); [|done].
  apply match_run_then_inv in Hm as (v & s4 & Hnev & Hv & -> & [= <- <-]);
    [|by apply not_chr_false].
  exists ws1, ws2, v. split_and!; try done.
  - split; [done|by apply Forall_not_chr].
  - unfold heading_with. rewrite book_title_eq at 2.
    by rewrite <- !(assoc_L (++)).
Qed.

Lemma match_version_none s :
  (¬ ∃ v, heading_at s v) → match_atoms VERSION_PATTERN None s = None.
Proof.
  intros Hs. destruct (match_atoms _ _ s) as [[cap rest]|] eqn:Hm; [|done].
  apply match_version_inv in Hm as (ws1 & ws2 & v & _ & H1 & H2 & Hv & ->).
  destruct Hs. by exists v, ws1, ws2, rest.
Qed.

Lemma line_start_snoc pre c : line_start (pre ++ [c]) ↔ c = 10.
Proof.
  unfold line_start, LF. split.
  - intros [Hnil|[pre' Heq]]; [by destruct pre|].
    by apply app_inj_tail in Heq as [_ ->].
  - intros ->. right. by exists pre.
Qed.

(** The search returns the version of the earliest line start at which a
    heading begins; [pre0] is the text before [s]. *)
Lemma search_bol_version s : ∀ pre0 at_bol,
  (at_bol = true ↔ line_start pre0) →
  match search_bol VERSION_PATTERN at_bol s with
  | Some cap =>
      ∃ pre suf v, cap = Some v ∧ s = pre ++ suf ∧ line_start (pre0 ++ pre)
        ∧ heading_at suf v
        ∧ ∀ pre' suf', s = pre' ++ suf' → line_start (pre0 ++ pre') →
            (length pre' < length pre)%nat → ¬ ∃ v', heading_at suf' v'
  | None =>
      ∀ pre suf, s = pre ++ suf → line_start (pre0 ++ pre) →
        ¬ ∃ v, heading_at suf v
  end.
Proof.
  induction s as [|c s IH]; intros pre0 at_bol Hbol; cbn [search_bol].
  - destruct (if at_bol then _ else _) as [[cap rest]|] eqn:Hm.
    { destruct at_bol; [|done]. by apply match_version_inv in Hm
        as (ws1 & ws2 & v & _ & _ & _ & _ & ?). }
    intros pre suf Heq _ (v & ws1 & ws2 & rest & _ & _ & _ & ->).
    symmetry in Heq. by apply app_eq_nil in Heq as [_ ?].
  - destruct (if at_bol then _ else _) as [[cap rest]|] eqn:Hm.
    { destruct at_bol; [|done].
      apply match_version_inv in Hm
        as (ws1 & ws2 & v & -> & H1 & H2 & Hv & Heq).
      exists [], (c :: s), v. rewrite (right_id_L [] (++)).
      split_and!; [done|done|by apply Hbol|by exists ws1, ws2, rest|].
      intros pre' suf' _ _ Hlt. cbn in Hlt. lia. }
    assert (Hhere : line_start pre0 → ¬ ∃ v, heading_at (c :: s) v).
    { intros Hpre0%Hbol (v & ws1 & ws2 & rest & H1 & H2 & Hv & Heq). subst at_bol.
      by rewrite Heq, match_version_heading in Hm. }
    specialize (IH (pre0 ++ [c]) (c =? 10)).
    destruct (search_bol _ _ s) as [cap|].
    + destruct IH as (pre & suf & v & -> & -> & Hpre & Hv & Hfirst).
      { rewrite line_start_snoc. apply N.eqb_eq. }
      exists (c :: pre), suf, v.
      rewrite <- (assoc_L (++)) in Hpre.
      split_and!; [done|done|done|done|].
      intros [|x pre'] suf' Heq Hstart Hlt.
      * rewrite (right_id_L [] (++)) in Hstart. cbn [app] in Heq. subst suf'.
        by apply Hhere.
      * cbn [app] in Heq. injection Heq as <- Heq.
        apply (Hfirst pre' suf'); [done| |cbn [length] in Hlt; lia].
        by rewrite <- (assoc_L (++)).
    + intros [|x pre] suf Heq Hstart.
      * rewrite (right_id_L [] (++)) in Hstart. cbn [app] in Heq. subst suf.
        by apply Hhere.
      * cbn [app] in Heq. injection Heq as <- Heq.
        apply (fun H => IH H pre suf); [|done|by rewrite <- (assoc_L (++))].
        rewrite line_start_snoc. apply N.eqb_eq.
Qed.

(** C6, as amended: [get_version] returns the version of the first heading
    that begins at a line start, where the white space after ['#'] and
    after the title may contain line breaks and the version runs to the
    next [')'], possibly on a later line; it returns [None], without
    raising, when no heading begins at a line start. *)
Theorem get_version_first_heading content :
  match get_version_text content with
  | Some v =>
      ∃ pre suf, content = pre ++ suf ∧ line_start pre ∧ heading_at suf v
        ∧ ∀ pre' suf', content = pre' ++ suf' → line_start pre' →
            (length pre' < length pre)%nat → ¬ ∃ v', heading_at suf' v'
  | None =>
      ∀ pre suf, content = pre ++ suf → line_start pre →
        ¬ ∃ v, heading_at suf v
  end.
Proof.
  unfold get_version_text.
  pose proof (search_bol_version content [] true) as H.
  destruct (search_bol _ _ content) as [cap|].
  - destruct H as (pre & suf & v & -> & -> & Hpre & Hv & Hfirst).
    { split; [by left|done]. }
    exists pre, suf. by split_and!.
  - apply H. split; [by left|done].
Qed.

Example get_version_first_line :
  get_version_text (lit "# The Swift Programming Language (6.2)" ++ LF ++ lit "...")
  = Some (lit "6.2").
Proof. reflexivity. Qed.

Example get_version_later_line :
  get_version_text
    (lit "Welcome." ++ LF ++ lit "# The Swift Programming Language (6.2 beta)")
  = Some (lit "6.2 beta").
Proof. reflexivity. Qed.

Example get_version_no_suffix :
  get_version_text (lit "# The Swift Programming Language" ++ LF ++ lit "...")
  = None.
Proof. reflexivity. Qed.

(** C6, as stated, fails on [toc_heading_then_paren]: none of its lines is
    a heading with a parenthesized version, yet [get_version] returns the
    text in parentheses of the next line. *)
Lemma get_version_crosses_lines :
  (∀ line, line ∈ lines_of toc_heading_then_paren →
           ¬ ∃ v, heading_at line v)
  ∧ get_version_text toc_heading_then_paren = Some (lit "6.2").
Proof.
  split; [|reflexivity].
  intros line Hline (v & ws1 & ws2 & rest & _ & _ & _ & Heq).
  assert (Hparen : LPAREN ∈ line).
  { rewrite Heq. unfold heading_with.
    rewrite !elem_of_app, !list_elem_of_singleton. intuition. }
  assert (Hhash : head line = Some 35) by (by rewrite Heq).
  vm_compute in Hline.
  apply elem_of_cons in Hline as [->|Hline].
  { assert (Hno : LPAREN ∉ lit "# The Swift Programming Language").
    { apply (bool_decide_unpack _). by vm_compute. }
    exact (Hno Hparen). }
  apply elem_of_cons in Hline as [->|Hline]; [done|].
  apply elem_of_cons in Hline as [->|Hline]; [done|].
  by apply elem_of_nil in Hline.
Qed.

(** ** The rendered index *)

Lemma safe_desc_sanitize d : safe_desc d = map sanitize_char d.
Proof.
  unfold safe_desc, replace_char. rewrite map_map.
  apply map_ext. intros c. unfold sanitize_char.
  destruct (N.eqb_spec c 91) as [->|]; [done|].
  by destruct (N.eqb_spec c 93) as [->|].
Qed.

Lemma index_entry_eq doc : index_entry doc = entry_of doc.
Proof.
  unfold index_entry, entry_of, entry_line. by rewrite safe_desc_sanitize.
Qed.

Section Rendering.

Variable config : Configuration.

(** The dictionary [{s: [] for s in SECTIONS}]. *)
Lemma empty_groups_lookup (sections : list str) (d : gmap str (list DocumentMetadata)) s :
  foldl (fun d s => <[s := []]> d) d sections !! s
  = if bool_decide (s ∈ sections) then Some [] else d !! s.
Proof.
  revert d. induction sections as [|s' sections IH]; intros d; [done|].
  cbn [foldl]. rewrite IH.
  destruct (decide (s = s')) as [->|Hne].
  - rewrite lookup_insert_eq, (bool_decide_eq_true_2 (s' ∈ s' :: sections))
      by apply list_elem_of_here.
    by case_bool_decide.
  - rewrite lookup_insert_ne by done.
    rewrite (bool_decide_ext (s ∈ s' :: sections) (s ∈ sections)); [done|].
    rewrite elem_of_cons. split; [by intros [?|?]|by right].
Qed.

(** Appending the documents of the registry to their groups. *)
Lemma group_fold_lookup (registry : list DocumentMetadata) (d : gmap str (list DocumentMetadata)) s :
  foldl (fun d meta =>
           match d !! section meta with
           | Some docs => <[section meta := docs ++ [meta]]> d
           | None => d
           end) d registry !! s
  = (fun docs => docs ++ filter (fun doc => section doc = s) registry)
      <$> d !! s.
Proof.
  revert d. induction registry as [|meta registry IH]; intros d.
  - cbn. destruct (d !! s); cbn; [|done]. by rewrite (right_id_L [] (++)).
  - cbn [foldl]. rewrite IH. rewrite filter_cons.
    destruct (decide (section meta = s)) as [<-|Hne].
    + destruct (d !! section meta) as [docs|] eqn:Hd.
      * rewrite lookup_insert_eq. cbn. by rewrite <- (assoc_L (++)).
      * by rewrite Hd.
    + destruct (d !! section meta) as [docs|] eqn:Hd; [|done].
      by rewrite lookup_insert_ne.
Qed.

(** The group of a configured section holds the documents of the
    registry that are in this section, in registry order. *)
Lemma group_by_section_lookup (registry : list DocumentMetadata) s :
  s ∈ SECTIONS config →
  group_by_section config registry !! s
  = Some (filter (fun doc => section doc = s) registry).
Proof.
  intros Hs. unfold group_by_section.
  rewrite group_fold_lookup, empty_groups_lookup.
  by rewrite bool_decide_eq_true_2.
Qed.

Lemma append_entries content docs :
  foldl (fun c doc => c ++ [index_entry doc]) content docs
  = content ++ map entry_of docs.
Proof.
  revert content. induction docs as [|doc docs IH]; intros content;
    cbn [foldl map].
  - by rewrite (right_id_L [] (++)).
  - by rewrite IH, index_entry_eq, <- (assoc_L (++)).
Qed.

Lemma append_section_block (registry : list DocumentMetadata) content s :
  s ∈ SECTIONS config →
  append_section (group_by_section config registry) content s
  = content ++ section_block registry s.
Proof.
  intros Hs. unfold append_section, section_block.
  rewrite group_by_section_lookup by done. cbn [default].
  destruct (filter _ registry) as [|doc docs]; cbn [is_empty_list].
  - by rewrite (right_id_L [] (++)).
  - rewrite append_entries. by rewrite <- !(assoc_L (++)).
Qed.

Lemma append_sections_blocks (registry : list DocumentMetadata) sections content :
  sections ⊆ SECTIONS config →
  foldl (append_section (group_by_section config registry)) content sections
  = content ++ flat_map (section_block registry) sections.
Proof.
  revert content. induction sections as [|s sections IH]; intros content Hsub.
  - cbn. by rewrite (right_id_L [] (++)).
  - cbn [foldl flat_map]. rewrite IH, append_section_block.
    + by rewrite <- (assoc_L (++)).
    + apply Hsub, list_elem_of_here.
    + intros x Hx. apply Hsub. by apply list_elem_of_further.
Qed.

(** The text of a non-empty list of lines: every line is followed by a
    line feed, but for the last. *)
Lemma join_line_feeds (lines : list str) :
  lines ≠ [] →
  join LF lines ++ LF = flat_map (fun line => line ++ LF) lines.
Proof.
  induction lines as [|line lines IH]; [done|]. intros _.
  destruct lines as [|line' lines];
    [cbn [join flat_map]; by rewrite (right_id_L [] (++))|].
  change (join LF (line :: line' :: lines))
    with (line ++ LF ++ join LF (line' :: lines)).
  cbn [flat_map] in *. rewrite <- IH by done.
  by rewrite <- !(assoc_L (++)).
Qed.

(** C8: for every registry, the text that [_generate_skill_md] writes to
    [SKILL.md] is made of these lines, each followed by a line feed but
    for the last: the fixed header, then for each configured section
    that has documents a block with one entry per document of that
    section, in registry order, then the fixed footer.  An entry gives
    the title of the document, its relative path [section/filename] and
    its description, in which every ['['] is replaced by ['('] and every
    [']'] by [')']; so a description [[link]] is rendered as [(link)]. *)
Theorem skill_md_text_blocks (registry : list DocumentMetadata) version :
  skill_md_text config registry version ++ LF
  = flat_map (fun line => line ++ LF)
      (index_header config version
         ++ flat_map (section_block registry) (SECTIONS config)
         ++ index_footer config)
  ∧ generate_skill_md config registry version
    = ([WriteText (joinpath (output_path config) (lit "SKILL.md"))
          (skill_md_text config registry version)],
       Ok tt)
  ∧ (∀ doc, safe_desc (description doc) = map sanitize_char (description doc))
  ∧ map sanitize_char (lit "[link]") = lit "(link)".
Proof.
  split_and!; [|done|intros doc; apply safe_desc_sanitize|reflexivity].
  unfold skill_md_text, skill_md_lines.
  rewrite append_sections_blocks, <- (assoc_L (++)) by done.
  by apply join_line_feeds.
Qed.

End Rendering.

Lemma skill_md_lines_eq (config : Configuration)
    (registry : list DocumentMetadata) (version : option str) :
  skill_md_lines config registry version
  = index_header config version
      ++ flat_map (section_block registry) (SECTIONS config)
      ++ index_footer config.
Proof.
  unfold skill_md_lines. by rewrite append_sections_blocks, <- (assoc_L (++)).
Qed.

(** ** The effect monad *)

Lemma bind_eq {A B} (m : IO A) (k : A → IO B) : m ≫= k = bind m k.
Proof. reflexivity. Qed.

Lemma mret_eq {A} (a : A) : (mret a : IO A) = ([], Ok a).
Proof. reflexivity. Qed.

Lemma bind_Ok {A B} t (a : A) (k : A → IO B) :
  bind (t, Ok a) k = (t ++ (k a).1, (k a).2).
Proof. cbn. by destruct (k a). Qed.

Lemma bind_ret_l {A B} (a : A) (k : A → IO B) : bind ([], Ok a) k = k a.
Proof. cbn. by destruct (k a). Qed.

Lemma bind_ext {A B} (m : IO A) (k1 k2 : A → IO B) :
  (∀ a, k1 a = k2 a) → bind m k1 = bind m k2.
Proof. intros Hk. destruct m as [t [a|e]]; [|done]. by rewrite !bind_Ok, Hk. Qed.

Lemma bind_Err {A B} t e (k : A → IO B) : bind (t, Err e) k = (t, Err e).
Proof. reflexivity. Qed.

Lemma foldM_ext {A S} (f g : S → A → IO S) s l :
  (∀ s x, x ∈ l → f s x = g s x) → foldM f s l = foldM g s l.
Proof.
  revert s. induction l as [|x l IH]; intros s Hfg; [done|].
  cbn [foldM]. rewrite !bind_eq, Hfg by apply list_elem_of_here.
  destruct (g s x) as [t [s'|e]]; [|done].
  rewrite !bind_Ok, IH; [done|].
  intros s'' y Hy. apply Hfg. by apply list_elem_of_further.
Qed.

(** A property of the events of every round holds of the events of the
    loop. *)
Lemma foldM_events {A S} (P : Event → Prop) (f : S → A → IO S) s l :
  (∀ s x, Forall P (f s x).1) → Forall P (foldM f s l).1.
Proof.
  intros Hf. revert s. induction l as [|x l IH]; intros s; [by constructor|].
  cbn [foldM]. rewrite bind_eq. specialize (Hf s x).
  destruct (f s x) as [t [s'|e]]; [|done].
  rewrite bind_Ok. apply Forall_app. split; [done|apply IH].
Qed.

(** ** Ordered dictionaries *)

Lemma odict_get_set {V} k (v : V) d s :
  odict_get s (odict_set k v d)
  = if bool_decide (s = k) then Some v else odict_get s d.
Proof.
  induction d as [|[k' v'] d IH]; cbn [odict_set odict_get].
  - done.
  - destruct (decide (k = k')) as [<-|Hk].
    + rewrite (bool_decide_eq_true_2 (k = k)) by done.
      cbn [odict_get]. by case_bool_decide.
    + rewrite (bool_decide_eq_false_2 (k = k')) by done.
      cbn [odict_get]. rewrite IH.
      repeat case_bool_decide; congruence.
Qed.

Lemma odict_get_elem_of {V} s (v : V) d :
  odict_get s d = Some v → (s, v) ∈ d.
Proof.
  induction d as [|[k' v'] d IH]; cbn [odict_get]; [done|].
  case_bool_decide as Hk.
  - intros [= ->]. subst. apply list_elem_of_here.
  - intros H. by apply list_elem_of_further, IH.
Qed.

Lemma missing_sections_elem_of s counts :
  odict_get s counts = Some 0%nat → s ∈ missing_sections counts.
Proof.
  intros H%odict_get_elem_of. unfold missing_sections.
  apply list_elem_of_fmap. exists (s, 0%nat). split; [done|].
  by apply list_elem_of_filter.
Qed.

Lemma initial_counts_get config s :
  odict_get s (initial_counts config)
  = if bool_decide (s ∈ SECTIONS config) then Some 0%nat else None.
Proof.
  unfold initial_counts.
  assert (H : ∀ d sections,
    odict_get s (foldl (fun d s => odict_set s 0%nat d) d sections)
    = if bool_decide (s ∈ sections) then Some 0%nat else odict_get s d).
  { intros d sections. revert d.
    induction sections as [|s' sections IH]; intros d; [done|].
    cbn [foldl]. rewrite IH, odict_get_set.
    destruct (decide (s = s')) as [->|Hne].
    - rewrite (bool_decide_eq_true_2 (s' ∈ s' :: sections))
        by apply list_elem_of_here.
      rewrite (bool_decide_eq_true_2 (s' = s')) by done. by case_bool_decide.
    - rewrite (bool_decide_eq_false_2 (s = s')) by done.
      rewrite (bool_decide_ext (s ∈ s' :: sections) (s ∈ sections)); [done|].
      rewrite elem_of_cons. split; [by intros [?|?]|by right]. }
  apply H.
Qed.

(** ** The resolution pass *)

Section ResolutionPass.

Variable config : Configuration.
Variable fs : FileSystem.

Lemma copy_events_cons sp (resolved : list (str * Path)) :
  copy_events config (sp :: resolved)
  = copy_events config [sp] ++ copy_events config resolved.
Proof. unfold copy_events. by destruct (dry_run config). Qed.

Lemma copy_events_nil : copy_events config [] = [].
Proof. unfold copy_events. by destruct (dry_run config). Qed.

Lemma process_document_unresolved (fm : gmap str (str * Path)) st doc :
  fm !! doc = None → process_document config fs fm st doc = ([], Ok st).
Proof. intros H. unfold process_document. by rewrite H. Qed.

Lemma process_document_resolved (fm : gmap str (str * Path))
    registry counts doc sec p m c :
  fm !! doc = Some (sec, p) →
  extract_metadata fs p sec = Ok m →
  odict_get sec counts = Some c →
  process_document config fs fm (registry, counts) doc
  = (copy_events config [(sec, p)],
     Ok (registry ++ [m], odict_set sec (S c) counts)).
Proof.
  intros Hfm Hm Hc. unfold process_document, copy_events.
  rewrite Hfm, Hm. cbn [fst snd]. rewrite Hc.
  by destruct (dry_run config).
Qed.

(** The loop over the order, from any registry and any counts that have
    an entry for the sections of the resolved documents. *)
Lemma process_documents (fm : gmap str (str * Path)) doc_order :
  ∀ registry counts,
  (∀ sec p, (sec, p) ∈ resolved_documents fm doc_order →
     is_Some (odict_get sec counts) ∧ ∃ m, extract_metadata fs p sec = Ok m) →
  ∃ metas counts',
    foldM (process_document config fs fm) (registry, counts) doc_order
    = (copy_events config (resolved_documents fm doc_order),
       Ok (registry ++ metas, counts'))
    ∧ Forall2 (fun sp m => extract_metadata fs sp.2 sp.1 = Ok m)
              (resolved_documents fm doc_order) metas
    ∧ ∀ s, odict_get s counts'
           = (fun c => (c + count_section s (resolved_documents fm doc_order))%nat)
               <$> odict_get s counts.
Proof.
  induction doc_order as [|doc doc_order IH]; intros registry counts Hres.
  - exists [], counts. split_and!.
    + cbn [foldM resolved_documents omap list_omap].
      by rewrite copy_events_nil, (right_id_L [] (++)).
    + constructor.
    + intros s. cbn. destruct (odict_get s counts); cbn; f_equal; lia.
  - unfold resolved_documents in *. cbn [omap list_omap] in *.
    cbn [foldM]. rewrite bind_eq.
    destruct (fm !! doc) as [[sec p]|] eqn:Hdoc.
    + destruct (Hres sec p) as [[c Hc] [m Hm]]; [apply list_elem_of_here|].
      rewrite (process_document_resolved _ _ _ _ _ _ _ _ Hdoc Hm Hc).
      rewrite bind_Ok.
      destruct (IH (registry ++ [m]) (odict_set sec (S c) counts))
        as (metas & counts' & -> & Hmetas & Hcounts).
      { intros sec' p' Hin. split.
        - rewrite odict_get_set. case_bool_decide; [done|].
          apply (Hres sec' p'). by apply list_elem_of_further.
        - apply (Hres sec' p'). by apply list_elem_of_further. }
      exists (m :: metas), counts'. split_and!.
      * cbn [fst snd]. rewrite (copy_events_cons (sec, p) (omap _ _)).
        by rewrite <- (assoc_L (++) registry).
      * by constructor.
      * intros s. rewrite Hcounts, odict_get_set.
        unfold count_section. rewrite filter_cons. cbn [fst].
        destruct (decide (sec = s)) as [->|Hne].
        -- rewrite bool_decide_eq_true_2 by done. rewrite Hc. cbn.
           f_equal. lia.
        -- by rewrite bool_decide_eq_false_2 by done.
    + rewrite process_document_unresolved by done. rewrite bind_Ok.
      destruct (IH registry counts Hres)
        as (metas & counts' & -> & Hmetas & Hcounts).
      by exists metas, counts'.
Qed.

(** The pass from the empty registry. *)
Lemma resolution_pass_resolved (fm : gmap str (str * Path)) doc_order :
  (∀ sec p, (sec, p) ∈ resolved_documents fm doc_order →
     sec ∈ SECTIONS config ∧ ∃ m, extract_metadata fs p sec = Ok m) →
  ∃ registry counts,
    resolution_pass config fs fm doc_order
    = (copy_events config (resolved_documents fm doc_order),
       Ok (registry, counts))
    ∧ Forall2 (fun sp m => extract_metadata fs sp.2 sp.1 = Ok m)
              (resolved_documents fm doc_order) registry
    ∧ ∀ s, s ∈ SECTIONS config →
           odict_get s counts
           = Some (count_section s (resolved_documents fm doc_order)).
Proof.
  intros Hres. unfold resolution_pass.
  destruct (process_documents fm doc_order [] (initial_counts config))
    as (metas & counts & Heq & Hmetas & Hcounts).
  { intros sec p Hin. destruct (Hres sec p Hin) as [Hsec Hm].
    split; [|done]. rewrite initial_counts_get.
    by rewrite bool_decide_eq_true_2. }
  exists metas, counts. split_and!; [done|done|].
  intros s Hs. rewrite Hcounts, initial_counts_get.
  by rewrite bool_decide_eq_true_2.
Qed.

End ResolutionPass.




(** The order of the TOC is the order of the registry, whatever the order
    of the directory scan: [TheBasics] before [AboutSwift], and the
    unresolved [Elsewhere] is dropped. *)
Example resolution_pass_order :
  match (resolution_pass (example_config true) example_fs example_file_map
           [lit "TheBasics"; lit "Elsewhere"; lit "AboutSwift"]).2 with
  | Ok (registry, _) => title <$> registry = [lit "The Basics"; lit "About Swift"]
  | Err _ => False
  end.
Proof. vm_compute. reflexivity. Qed.

(** ** The directory scan *)

Section DirectoryScan.

Variable config : Configuration.
Variable fs : FileSystem.
Variable repo_path : Path.

(** The files of one directory enter the index under its section. *)
Lemma index_files_lookup (section_name : str) (section_path : Path)
    (names : list str) (fm : gmap str (str * Path)) k sec p :
  foldl (fun fm name =>
           let md_file := section_path ++ [name] in
           <[path_stem md_file := (section_name, md_file)]> fm)
        fm names !! k = Some (sec, p) →
  fm !! k = Some (sec, p) ∨ sec = section_name.
Proof.
  revert fm. induction names as [|name names IH]; intros fm; [by left|].
  cbn [foldl]. intros [H|H]%IH; [|by right].
  destruct (decide (path_stem (section_path ++ [name]) = k)) as [<-|Hne].
  - rewrite lookup_insert_eq in H. injection H as <- _. by right.
  - rewrite lookup_insert_ne in H by done. by left.
Qed.

(** The scan never fails; it warns about the sections without a
    directory, and every entry of its index is in a section that has a
    directory. *)
Lemma index_sections sections : ∀ fm0 : gmap str (str * Path),
  ∃ fm,
    foldM (index_section fs repo_path) fm0 sections
    = (missing_warnings fs repo_path sections, Ok fm)
    ∧ ∀ k sec p, fm !! k = Some (sec, p) →
        fm0 !! k = Some (sec, p)
        ∨ (sec ∈ sections
           ∧ fs_exists fs (joinpath (tspl_root repo_path) sec) = true).
Proof.
  induction sections as [|s sections IH]; intros fm0.
  - exists fm0. split; [done|]. by left.
  - cbn [foldM]. rewrite bind_eq. unfold index_section at 1.
    unfold missing_warnings. rewrite filter_cons.
    destruct (fs_exists fs (joinpath (tspl_root repo_path) s)) eqn:Hs;
      cbn [negb].
    + rewrite decide_False by done.
      destruct (IH (foldl (fun fm name =>
           let md_file := joinpath (tspl_root repo_path) s ++ [name] in
           <[path_stem md_file := (s, md_file)]> fm)
         fm0 (fs_glob_md fs (joinpath (tspl_root repo_path) s))))
        as (fm & Hfm & Hin).
      exists fm. split.
      * cbv zeta in Hfm. by rewrite mret_eq, bind_Ok, Hfm.
      * intros k sec p [Hk|[Hsec Hex]]%Hin.
        -- apply index_files_lookup in Hk as [Hk| ->]; [by left|].
           right. split; [apply list_elem_of_here|done].
        -- right. split; [by apply list_elem_of_further|done].
    + rewrite decide_True by done.
      destruct (IH fm0) as (fm & Hfm & Hin).
      exists fm. split.
      * rewrite bind_eq. unfold log_warning, emit.
        rewrite bind_Ok, mret_eq. cbn [fst snd].
        rewrite bind_Ok, Hfm. by cbn.
      * intros k sec p [Hk|[Hsec Hex]]%Hin; [by left|].
        right. split; [by apply list_elem_of_further|done].
Qed.

Lemma build_file_map_spec :
  ∃ fm,
    build_file_map config fs repo_path
    = (missing_warnings fs repo_path (SECTIONS config), Ok fm)
    ∧ ∀ k sec p, fm !! k = Some (sec, p) →
        sec ∈ SECTIONS config
        ∧ fs_exists fs (joinpath (tspl_root repo_path) sec) = true.
Proof.
  destruct (index_sections (SECTIONS config) ∅) as (fm & Hfm & Hin).
  exists fm. split; [done|].
  intros k sec p [Hk|H]%Hin; [|done]. by rewrite lookup_empty in Hk.
Qed.

End DirectoryScan.

(** ** The run *)

Section Run.

Variable config : Configuration.
Variable fs : FileSystem.
Variable repo_path : Path.

(** [parse_toc_order] returns only after it has read the TOC file. *)
Lemma parse_toc_order_inv t order :
  parse_toc_order fs repo_path (TOC_REL_PATH config) = (t, Ok order) →
  fs_exists fs (joinpath repo_path (TOC_REL_PATH config)) = true
  ∧ ∃ content,
      fs_read_text fs (joinpath repo_path (TOC_REL_PATH config)) = Ok content
      ∧ order = parse_toc_order_text content.
Proof.
  unfold parse_toc_order.
  destruct (fs_exists fs _); cbn [negb]; [|done].
  rewrite bind_eq. unfold lift.
  destruct (fs_read_text fs _) as [content|e]; [|done].
  rewrite bind_Ok, mret_eq. intros [= _ <-]. eauto.
Qed.

Lemma get_version_eq content :
  fs_exists fs (joinpath repo_path (TOC_REL_PATH config)) = true →
  fs_read_text fs (joinpath repo_path (TOC_REL_PATH config)) = Ok content →
  get_version fs repo_path (TOC_REL_PATH config)
  = ([], Ok (get_version_text content)).
Proof. intros Hex Hread. unfold get_version. by rewrite Hex, Hread. Qed.

Lemma parse_toc_order_eq content :
  fs_exists fs (joinpath repo_path (TOC_REL_PATH config)) = true →
  fs_read_text fs (joinpath repo_path (TOC_REL_PATH config)) = Ok content →
  parse_toc_order fs repo_path (TOC_REL_PATH config)
  = ([], Ok (parse_toc_order_text content)).
Proof. intros Hex Hread. unfold parse_toc_order. by rewrite Hex, Hread. Qed.

(** Once the TOC is read, a run is its prelude, [_process_files], and
    the writing of the outputs. *)
Lemma build_eq gh_output content :
  fs_exists fs (joinpath repo_path (TOC_REL_PATH config)) = true →
  fs_read_text fs (joinpath repo_path (TOC_REL_PATH config)) = Ok content →
  build config fs repo_path gh_output
  = bind (prelude_events config fs gh_output (get_version_text content), Ok tt)
      (fun _ =>
         bind (process_files config fs repo_path (parse_toc_order_text content))
           (fun registry =>
              finish config fs repo_path registry (get_version_text content))).
Proof.
  intros Hex Hread. unfold build, finish.
  rewrite (get_version_eq content), (parse_toc_order_eq content) by done.
  generalize (get_version_text content) as version.
  generalize (parse_toc_order_text content) as order.
  intros order version.
  unfold prelude_events, prepare_directory, when, log_info, emit.
  cbv [mbind IO_bind mret IO_ret]. rewrite bind_ret_l.
  destruct (truthy version), gh_output as [[|c file]|], (dry_run config),
    (fs_exists fs (output_path config)); cbn [negb]; unfold ret;
    repeat (rewrite bind_Ok; cbn beta iota; cbn [fst snd]);
    cbn [app]; by rewrite <- ?(assoc_L (++)).
Qed.

(** When the pass leaves a section without documents, [_process_files]
    raises after the events of the scan and of the pass. *)
Lemma process_files_halts order t1 fm t2 registry counts s :
  build_file_map config fs repo_path = (t1, Ok fm) →
  resolution_pass config fs fm order = (t2, Ok (registry, counts)) →
  odict_get s counts = Some 0%nat →
  process_files config fs repo_path order
  = (t1 ++ t2, Err (NoDocumentsError (missing_sections counts))).
Proof.
  intros Hfm Hpass Hs%missing_sections_elem_of.
  unfold process_files. rewrite !bind_eq, Hfm, bind_Ok, bind_eq, Hpass.
  rewrite bind_Ok. cbn [fst snd].
  destruct (missing_sections counts) as [|x missing].
  - by apply elem_of_nil in Hs.
  - unfold raise. cbn. by rewrite (right_id_L [] (++)).
Qed.

Lemma resolution_pass_events fm order :
  Forall (fun ev => is_write_text ev = false)
         (resolution_pass config fs fm order).1.
Proof.
  unfold resolution_pass. apply foldM_events. intros [registry counts] doc.
  unfold process_document.
  destruct (fm !! doc) as [[sec p]|]; [|by constructor].
  rewrite !bind_eq. unfold lift.
  destruct (extract_metadata fs p sec) as [m|e]; [|by constructor].
  rewrite bind_Ok. cbn [fst snd].
  destruct (odict_get sec counts) as [c|]; [|by constructor].
  rewrite bind_eq, bind_Ok. unfold when, emit.
  destruct (dry_run config); cbn; by repeat constructor.
Qed.

Lemma missing_warnings_events sections :
  Forall (fun ev => is_write_text ev = false)
         (missing_warnings fs repo_path sections).
Proof.
  unfold missing_warnings. apply Forall_fmap, Forall_forall. by intros s _.
Qed.

Lemma prelude_events_no_write gh_output version :
  Forall (fun ev => is_write_text ev = false)
         (prelude_events config fs gh_output version).
Proof.
  unfold prelude_events.
  destruct (truthy version), gh_output as [[|c file]|], (dry_run config),
    (fs_exists fs (output_path config)); by repeat constructor.
Qed.

End Run.

(** A run whose pass leaves a section without documents: its events are
    those of the prelude, of the scan and of the pass, and it raises the
    structural error that lists the sections without documents. *)
Lemma build_halts (config : Configuration) (fs : FileSystem) (repo_path : Path)
    gh_output t0 order t1 fm t2 registry counts s :
  parse_toc_order fs repo_path (TOC_REL_PATH config) = (t0, Ok order) →
  build_file_map config fs repo_path = (t1, Ok fm) →
  resolution_pass config fs fm order = (t2, Ok (registry, counts)) →
  odict_get s counts = Some 0%nat →
  ∃ content,
    fs_read_text fs (joinpath repo_path (TOC_REL_PATH config)) = Ok content
    ∧ build config fs repo_path gh_output
      = (prelude_events config fs gh_output (get_version_text content)
           ++ t1 ++ t2,
         Err (NoDocumentsError (missing_sections counts))).
Proof.
  intros (Hex & content & Hread & ->)%parse_toc_order_inv Hfm Hpass Hs.
  exists content. split; [done|].
  rewrite (build_eq _ _ _ _ content) by done.
  rewrite (process_files_halts _ _ _ _ _ _ _ _ _ _ Hfm Hpass Hs).
  by rewrite bind_Ok, bind_Err.
Qed.

Lemma no_write_text trace :
  Forall (fun ev => is_write_text ev = false) trace →
  ∀ p d, WriteText p d ∉ trace.
Proof.
  intros Hall p d Hin. rewrite Forall_forall in Hall.
  by specialize (Hall _ Hin).
Qed.

(** C7: when the resolution pass ends and the count of a section is zero,
    the run raises the structural error whose list of sections names that
    section, and it writes no index document. *)
Theorem empty_section_halts (config : Configuration) (fs : FileSystem)
    (repo_path : Path) gh_output t0 order t1 fm t2 registry counts s :
  parse_toc_order fs repo_path (TOC_REL_PATH config) = (t0, Ok order) →
  build_file_map config fs repo_path = (t1, Ok fm) →
  resolution_pass config fs fm order = (t2, Ok (registry, counts)) →
  odict_get s counts = Some 0%nat →
  ∃ trace missing,
    build config fs repo_path gh_output
    = (trace, Err (NoDocumentsError missing))
    ∧ s ∈ missing
    ∧ ∀ p d, WriteText p d ∉ trace.
Proof.
  intros Hparse Hfm Hpass Hs.
  destruct (build_halts config fs repo_path gh_output _ _ _ _ _ _ _ _
              Hparse Hfm Hpass Hs) as (content & _ & ->).
  eexists _, _. split; [done|]. split; [by apply missing_sections_elem_of|].
  apply no_write_text. rewrite !Forall_app. split_and!.
  - apply prelude_events_no_write.
  - destruct (build_file_map_spec config fs repo_path) as (fm' & Heq & _).
    rewrite Heq in Hfm. injection Hfm as <- _.
    apply missing_warnings_events.
  - pose proof (resolution_pass_events config fs fm order) as H.
    by rewrite Hpass in H.
Qed.

Lemma empty_section_halts_witness :
  (parse_toc_order example_fs_missing example_repo
     (TOC_REL_PATH (example_config false)) = ([], Ok example_order)
   ∧ build_file_map (example_config false) example_fs_missing example_repo
     = ([LogWarning (lit "Missing section: ReferenceManual")],
        Ok example_missing_file_map)
   ∧ resolution_pass (example_config false) example_fs_missing
       example_missing_file_map example_order
     = (copy_events (example_config false)
          (resolved_documents example_missing_file_map example_order),
        Ok (example_missing_pass.1, example_missing_pass.2))
   ∧ odict_get (lit "ReferenceManual") example_missing_pass.2 = Some 0%nat)
  ∧ ∃ trace missing,
      build (example_config false) example_fs_missing example_repo None
      = (trace, Err (NoDocumentsError missing))
      ∧ lit "ReferenceManual" ∈ missing
      ∧ ∀ p d, WriteText p d ∉ trace.
Proof.
  assert (H1 : parse_toc_order example_fs_missing example_repo
     (TOC_REL_PATH (example_config false)) = ([], Ok example_order))
    by (vm_compute; reflexivity).
  assert (H2 : build_file_map (example_config false) example_fs_missing example_repo
     = ([LogWarning (lit "Missing section: ReferenceManual")],
        Ok example_missing_file_map))
    by (vm_compute; reflexivity).
  assert (H3 : resolution_pass (example_config false) example_fs_missing
       example_missing_file_map example_order
     = (copy_events (example_config false)
          (resolved_documents example_missing_file_map example_order),
        Ok (example_missing_pass.1, example_missing_pass.2)))
    by (vm_compute; reflexivity).
  assert (H4 : odict_get (lit "ReferenceManual") example_missing_pass.2
               = Some 0%nat)
    by (vm_compute; reflexivity).
  split; [by split_and!|].
  exact (empty_section_halts (example_config false) example_fs_missing
           example_repo None _ _ _ _ _ _ _ _ H1 H2 H3 H4).
Defined.

(** ** A missing section directory *)





(** ** The dry run *)

Lemma bind_events {A B} (P : Event → Prop) (m : IO A) (k : A → IO B) :
  Forall P m.1 → (∀ a, Forall P (k a).1) → Forall P (bind m k).1.
Proof.
  intros Hm Hk. destruct m as [t [a|e]]; [|done].
  rewrite bind_Ok. apply Forall_app. split; [done|apply Hk].
Qed.

(** In a dry run, the only events of a run are log records and the line
    appended to the file that [GITHUB_OUTPUT] names. *)
Lemma dry_run_events (config : Configuration) (fs : FileSystem)
    (repo_path : Path) (gh_output : option str) :
  dry_run config = true →
  Forall (fun ev => is_log ev = true
                    ∨ ∃ data, ev = AppendText (default [] gh_output) data)
         (build config fs repo_path gh_output).1.
Proof.
  intros Hdry. unfold build. rewrite Hdry. cbn [negb].
  cbv [mbind IO_bind mret IO_ret].
  apply bind_events; [|intros version; apply bind_events;
    [|intros _; apply bind_events;
      [|intros _; apply bind_events;
        [|intros order; apply bind_events;
          [|intros _; apply bind_events;
            [|intros registry]]]]]].
  - unfold get_version. destruct (fs_exists fs _); cbn [negb].
    + unfold lift. cbv [mbind IO_bind mret IO_ret].
      destruct (fs_read_text fs _); by repeat constructor.
    + repeat constructor.
  - unfold when. destruct (truthy version); repeat constructor.
  - destruct gh_output as [[|c file]|]; [by constructor| |by constructor].
    constructor; [right; eauto|constructor].
  - unfold parse_toc_order. destruct (fs_exists fs _); cbn [negb].
    + unfold lift. cbv [mbind IO_bind mret IO_ret].
      destruct (fs_read_text fs _); by repeat constructor.
    + repeat constructor.
  - repeat constructor.
  - unfold process_files. cbv [mbind IO_bind mret IO_ret].
    apply bind_events; [|intros fm; apply bind_events; [|intros st]].
    + destruct (build_file_map_spec config fs repo_path) as (fm & -> & _).
      unfold missing_warnings. apply Forall_fmap, Forall_forall.
      intros s _. by left.
    + unfold resolution_pass. apply foldM_events. intros [registry counts] doc.
      unfold process_document. destruct (fm !! doc) as [[sec p]|];
        [|by constructor].
      cbv [mbind IO_bind mret IO_ret]. unfold lift.
      destruct (extract_metadata fs p sec) as [m|e]; [|by constructor].
      rewrite bind_ret_l. cbn [fst snd].
      destruct (odict_get sec counts) as [c|]; [|by constructor].
      rewrite bind_ret_l, Hdry. by constructor.
    + destruct (missing_sections st.2); repeat constructor.
  - unfold when, ret, log_info, emit.
    repeat (rewrite bind_Ok; cbn beta iota; cbn [fst snd]).
    repeat constructor.
Qed.

(** C3: the dry run of the example tree with [GITHUB_OUTPUT] set appends
    a line to the file that the variable names. *)
Theorem dry_run_appends_to_github_output :
  dry_run (example_config true) = true
  ∧ build (example_config true) example_fs example_repo
      (Some (lit "/tmp/github_output"))
    = ([LogInfo (lit "Found Swift version: 6.2");
        AppendText (lit "/tmp/github_output") (lit "swift_version=6.2" ++ LF);
        LogInfo (lit "Processed 3 files to out/programming-swift");
        LogInfo (lit "Packaging complete")],
       Ok tt).
Proof. split; vm_compute; reflexivity. Qed.

(** ** Two runs over the same inputs *)

(** The order in which the files of a directory enter the index does not
    matter when their stems differ. *)
Lemma index_files_permutation {V} (key : str → str) (val : str → V)
    (names1 names2 : list str) :
  names1 ≡ₚ names2 → NoDup (key <$> names1) →
  ∀ fm : gmap str V,
    foldl (fun fm name => <[key name := val name]> fm) fm names1
    = foldl (fun fm name => <[key name := val name]> fm) fm names2.
Proof.
  induction 1 as [|x l1 l2 Hperm IH|x y l|l1 l2 l3 H12 IH12 H23 IH23];
    intros Hdup fm.
  - done.
  - cbn [foldl]. apply IH. by apply NoDup_cons in Hdup as [_ ?].
  - cbn [foldl]. f_equal. apply insert_insert_ne.
    cbn in Hdup. apply NoDup_cons in Hdup as [Hy _].
    intros Heq. apply Hy. rewrite Heq. apply list_elem_of_here.
  - rewrite IH12 by done. apply IH23.
    by rewrite <- H12.
Qed.

Lemma path_stem_child (dir : Path) (name : str) :
  path_stem (dir ++ [name]) = name_stem name.
Proof. unfold path_stem, path_name. by rewrite last_last. Qed.

Lemma written_index_app (t t' : list Event) :
  written_index (t ++ t') = written_index t ++ written_index t'.
Proof. apply omap_app. Qed.

Lemma relative_copies_app (repo_path : Path) (t t' : list Event) :
  relative_copies repo_path (t ++ t')
  = relative_copies repo_path t ++ relative_copies repo_path t'.
Proof. unfold relative_copies, copied_files. by rewrite omap_app, fmap_app. Qed.

Lemma relative_to_under (repo_path rel : Path) :
  relative_to repo_path (repo_path ++ rel) = rel.
Proof. apply drop_app_length. Qed.

Lemma path_name_under (repo_path rel : Path) :
  rel ≠ [] → path_name (repo_path ++ rel) = path_name rel.
Proof.
  intros Hrel. unfold path_name.
  induction repo_path as [|c repo_path IH]; [done|].
  cbn [app]. rewrite <- IH.
  destruct (repo_path ++ rel) eqn:Heq; [|done].
  by apply app_eq_nil in Heq as [_ ?].
Qed.

Lemma path_under_app (root rel : Path) :
  path_under root (root ++ rel) = Some rel.
Proof.
  induction root as [|c root IH]; [by destruct rel|].
  cbn [app path_under]. by rewrite bool_decide_eq_true_2.
Qed.

Section SameRuns.

Variables repo1 repo2 : Path.

Lemma same_run_bind {A A' B B'} (R : A → A' → Prop) (S : B → B' → Prop)
    (m1 : IO A) (m2 : IO A') (k1 : A → IO B) (k2 : A' → IO B') :
  same_run repo1 repo2 R m1 m2 →
  (∀ a a', R a a' → same_run repo1 repo2 S (k1 a) (k2 a')) →
  same_run repo1 repo2 S (bind m1 k1) (bind m2 k2).
Proof.
  destruct m1 as [t1 [a|e]], m2 as [t2 [a'|e']];
    intros (Hw & Hc & Hr) Hk; cbn [fst snd] in Hw, Hc, Hr; try done.
  specialize (Hk a a' Hr). unfold bind.
  destruct (k1 a) as [t1' r1], (k2 a') as [t2' r2].
  destruct Hk as (Hw' & Hc' & Hr'). cbn [fst snd] in Hw', Hc', Hr'.
  split_and!; cbn [fst snd]; [| |done].
  - by rewrite !written_index_app, Hw, Hw'.
  - by rewrite !relative_copies_app, Hc, Hc'.
Qed.

Lemma same_run_foldM {A S1 S2} (R : S1 → S2 → Prop)
    (f1 : S1 → A → IO S1) (f2 : S2 → A → IO S2) (l : list A) :
  (∀ s1 s2 x, x ∈ l → R s1 s2 → same_run repo1 repo2 R (f1 s1 x) (f2 s2 x)) →
  ∀ s1 s2, R s1 s2 → same_run repo1 repo2 R (foldM f1 s1 l) (foldM f2 s2 l).
Proof.
  induction l as [|x l IH]; intros Hf s1 s2 HR; cbn [foldM].
  - unfold same_run. by split_and!.
  - cbv [mbind IO_bind]. apply (same_run_bind R).
    + apply Hf; [apply list_elem_of_here|done].
    + intros a a' Ha. apply IH; [|done].
      intros ? ? y Hy. apply Hf. by apply list_elem_of_further.
Qed.

Lemma same_run_lift {A B} (R : A → B → Prop) (r1 : result A) (r2 : result B) :
  same_result R r1 r2 → same_run repo1 repo2 R (lift r1) (lift r2).
Proof. intros Hr. unfold same_run. by split_and!. Qed.

Lemma same_index_insert (fm1 fm2 : gmap str (str * Path)) (k : str)
    (v1 v2 : str * Path) :
  same_index repo1 repo2 fm1 fm2 → same_entry repo1 repo2 v1 v2 →
  same_index repo1 repo2 (<[k := v1]> fm1) (<[k := v2]> fm2).
Proof.
  intros Hfm Hv k'. destruct (decide (k = k')) as [->|Hne].
  - rewrite !lookup_insert_eq. by constructor.
  - rewrite !lookup_insert_ne by done. apply Hfm.
Qed.

Lemma index_files_same_index (s : str) (rel : Path) (names : list str) :
  ∀ fm1 fm2 : gmap str (str * Path),
    same_index repo1 repo2 fm1 fm2 →
    same_index repo1 repo2
      (foldl (fun fm name =>
                <[path_stem ((repo1 ++ rel) ++ [name])
                  := (s, (repo1 ++ rel) ++ [name])]> fm) fm1 names)
      (foldl (fun fm name =>
                <[path_stem ((repo2 ++ rel) ++ [name])
                  := (s, (repo2 ++ rel) ++ [name])]> fm) fm2 names).
Proof.
  induction names as [|name names IH]; intros fm1 fm2 Hfm; [done|].
  cbn [foldl]. apply IH. rewrite !path_stem_child.
  apply same_index_insert; [done|]. split; [done|].
  exists (rel ++ [name]). split_and!; [by destruct rel| |];
    by rewrite (assoc_L (++)).
Qed.

Lemma same_documents_filter (s : str) (l1 l2 : list DocumentMetadata) :
  Forall2 (same_document repo1 repo2) l1 l2 →
  Forall2 (same_document repo1 repo2)
    (filter (fun doc => section doc = s) l1)
    (filter (fun doc => section doc = s) l2).
Proof.
  induction 1 as [|m1 m2 l1 l2 Hm _ IH]; [constructor|].
  rewrite !filter_cons. pose proof Hm as (_ & Hs & _). rewrite <- Hs.
  destruct (decide (section m1 = s)); [|done]. by constructor.
Qed.

End SameRuns.

Lemma same_documents_entries (repo1 repo2 : Path)
    (l1 l2 : list DocumentMetadata) :
  Forall2 (same_document repo1 repo2) l1 l2 →
  map entry_of l1 = map entry_of l2.
Proof.
  induction 1 as [|m1 m2 l1 l2 (Hf & Hs & Ht & Hd & _) _ IH]; [done|].
  cbn [map]. rewrite IH. unfold entry_of. by rewrite Hf, Hs, Ht, Hd.
Qed.

Lemma skill_md_text_same_documents (config : Configuration)
    (repo1 repo2 : Path) (registry1 registry2 : list DocumentMetadata)
    (version : option str) :
  Forall2 (same_document repo1 repo2) registry1 registry2 →
  skill_md_text config registry1 version
  = skill_md_text config registry2 version.
Proof.
  intros Hreg. unfold skill_md_text. rewrite !skill_md_lines_eq.
  do 3 f_equal. apply flat_map_ext. intros s. unfold section_block.
  pose proof (same_documents_filter repo1 repo2 s _ _ Hreg) as Hdocs.
  pose proof (same_documents_entries _ _ _ _ Hdocs) as Hentries.
  destruct Hdocs; [done|]. by rewrite Hentries.
Qed.

Section SameInputs.

Variable config : Configuration.
Variables fs1 fs2 : FileSystem.
Variables repo1 repo2 : Path.

Hypothesis same_exists : ∀ rel,
  fs_exists fs1 (repo1 ++ rel) = fs_exists fs2 (repo2 ++ rel).
Hypothesis same_text : ∀ rel,
  same_result eq (fs_read_text fs1 (repo1 ++ rel))
                 (fs_read_text fs2 (repo2 ++ rel)).
Hypothesis same_files : ∀ rel,
  fs_glob_md fs1 (repo1 ++ rel) ≡ₚ fs_glob_md fs2 (repo2 ++ rel).
Hypothesis distinct_stems : ∀ s,
  s ∈ SECTIONS config →
  NoDup (name_stem <$> fs_glob_md fs1 (joinpath (tspl_root repo1) s)).

Lemma get_version_same_run rel :
  same_run repo1 repo2 eq (get_version fs1 repo1 rel) (get_version fs2 repo2 rel).
Proof.
  unfold get_version, joinpath. rewrite same_exists.
  destruct (fs_exists fs2 _); cbn [negb].
  - cbv [mbind IO_bind mret IO_ret]. apply (same_run_bind _ _ eq).
    + apply same_run_lift, same_text.
    + intros c ? <-. unfold same_run. by split_and!.
  - unfold same_run. by split_and!.
Qed.

Lemma parse_toc_order_same_run rel :
  same_run repo1 repo2 eq (parse_toc_order fs1 repo1 rel)
    (parse_toc_order fs2 repo2 rel).
Proof.
  unfold parse_toc_order, joinpath. rewrite same_exists.
  destruct (fs_exists fs2 _); cbn [negb].
  - cbv [mbind IO_bind mret IO_ret]. apply (same_run_bind _ _ eq).
    + apply same_run_lift, same_text.
    + intros c ? <-. unfold same_run. by split_and!.
  - unfold same_run. by split_and!.
Qed.

Lemma index_section_same_run fm1 fm2 s :
  s ∈ SECTIONS config →
  same_index repo1 repo2 fm1 fm2 →
  same_run repo1 repo2 (same_index repo1 repo2)
    (index_section fs1 repo1 fm1 s) (index_section fs2 repo2 fm2 s).
Proof.
  intros Hs Hfm. pose proof (distinct_stems s Hs) as Hdup.
  unfold index_section. unfold tspl_root, joinpath in *.
  rewrite <- !(assoc_L (++) repo1), <- !(assoc_L (++) repo2) in *.
  set (rel := split_slash_from [] (lit "TSPL.docc") ++ split_slash_from [] s)
    in *.
  rewrite same_exists. destruct (fs_exists fs2 _); cbn [negb].
  - unfold same_run. split_and!; [done|done|]. cbn [snd mret IO_ret ret same_result].
    cbv zeta.
    assert (Heq :
      foldl (fun fm name =>
               <[path_stem ((repo2 ++ rel) ++ [name])
                 := (s, (repo2 ++ rel) ++ [name])]> fm) fm2
            (fs_glob_md fs2 (repo2 ++ rel))
      = foldl (fun fm name =>
                 <[path_stem ((repo2 ++ rel) ++ [name])
                   := (s, (repo2 ++ rel) ++ [name])]> fm) fm2
              (fs_glob_md fs1 (repo1 ++ rel))).
    { apply (index_files_permutation
               (fun name => path_stem ((repo2 ++ rel) ++ [name]))
               (fun name => (s, (repo2 ++ rel) ++ [name]))).
      - symmetry. apply same_files.
      - erewrite list_fmap_ext; [|intros i name _; apply path_stem_child].
        by rewrite <- (same_files rel). }
    rewrite Heq. by apply index_files_same_index.
  - unfold same_run. by split_and!.
Qed.

Lemma build_file_map_same_run :
  same_run repo1 repo2 (same_index repo1 repo2)
    (build_file_map config fs1 repo1) (build_file_map config fs2 repo2).
Proof.
  unfold build_file_map. apply same_run_foldM.
  - intros fm1 fm2 s Hs Hfm. by apply index_section_same_run.
  - intros k. rewrite !lookup_empty. constructor.
Qed.

Lemma extract_metadata_same_result p1 p2 sec :
  same_place repo1 repo2 p1 p2 →
  same_result (same_document repo1 repo2)
    (extract_metadata fs1 p1 sec) (extract_metadata fs2 p2 sec).
Proof.
  intros (rel & Hrel & -> & ->). unfold extract_metadata.
  pose proof (same_text rel) as Htext.
  destruct (fs_read_text fs1 _) as [c1|e1], (fs_read_text fs2 _) as [c2|e2];
    cbn in Htext; try done.
  subst c2. unfold extract_metadata_text, path_stem.
  rewrite !path_name_under by done.
  destruct (scan_lines _ _ _ _) as [t [d|]]; [|done].
  cbn [same_result]. split_and!; try done. by exists rel.
Qed.

Lemma process_document_same_run fm1 fm2 st1 st2 doc :
  same_index repo1 repo2 fm1 fm2 →
  same_state repo1 repo2 st1 st2 →
  same_run repo1 repo2 (same_state repo1 repo2)
    (process_document config fs1 fm1 st1 doc)
    (process_document config fs2 fm2 st2 doc).
Proof.
  intros Hfm [Hreg Hcounts]. unfold process_document.
  destruct (Hfm doc) as [[s1 p1] [s2 p2] [Hs Hp]|]; cbn [fst snd] in *.
  - subst s2. cbv [mbind IO_bind mret IO_ret].
    apply (same_run_bind _ _ (same_document repo1 repo2)).
    { by apply same_run_lift, extract_metadata_same_result. }
    intros m1 m2 Hm. apply (same_run_bind _ _ eq).
    { apply same_run_lift. rewrite Hcounts.
      by destruct (odict_get s1 st2.2). }
    intros c ? <-. apply (same_run_bind _ _ (fun _ _ => True)).
    { destruct (dry_run config); cbn [negb when];
        [unfold same_run; by split_and!|].
      destruct Hp as (rel & Hrel & -> & ->).
      unfold same_run, relative_copies. split_and!; [done| |done].
      cbn. by rewrite !relative_to_under, !path_name_under. }
    intros _ _ _. unfold same_run. split_and!; [done|done|].
    cbn [snd ret same_result]. split; cbn [fst snd].
    + apply Forall2_app; [done|by constructor].
    + by rewrite Hcounts.
  - unfold same_run. by split_and!.
Qed.

Lemma process_files_same_run order :
  same_run repo1 repo2 (Forall2 (same_document repo1 repo2))
    (process_files config fs1 repo1 order)
    (process_files config fs2 repo2 order).
Proof.
  unfold process_files. cbv [mbind IO_bind mret IO_ret].
  apply (same_run_bind _ _ (same_index repo1 repo2));
    [apply build_file_map_same_run|].
  intros fm1 fm2 Hfm.
  apply (same_run_bind _ _ (same_state repo1 repo2)).
  { unfold resolution_pass. apply same_run_foldM.
    - intros st1 st2 doc _ Hst. by apply process_document_same_run.
    - by split. }
  intros st1 st2 [Hreg Hcounts]. rewrite Hcounts.
  destruct (missing_sections st2.2); unfold same_run; by split_and!.
Qed.

Lemma copy_license_from_same_run names :
  same_run repo1 repo2 (fun _ _ => True)
    (copy_license_from config fs1 repo1 names)
    (copy_license_from config fs2 repo2 names).
Proof.
  induction names as [|name names IH]; cbn [copy_license_from].
  - unfold same_run. by split_and!.
  - unfold joinpath at 1 3. rewrite same_exists.
    destruct (fs_exists fs2 _); [|done].
    unfold same_run, relative_copies, joinpath. split_and!; [done| |done].
    cbn. by rewrite !relative_to_under.
Qed.

(** Two runs over the same inputs write the same index texts, make the
    same copies and end alike. *)
Lemma build_same_run gh_output :
  same_run repo1 repo2 (fun _ _ => True)
    (build config fs1 repo1 gh_output) (build config fs2 repo2 gh_output).
Proof.
  unfold build. cbv [mbind IO_bind mret IO_ret].
  apply (same_run_bind _ _ eq); [apply get_version_same_run|].
  intros version ? <-.
  apply (same_run_bind _ _ (fun _ _ => True)).
  { destruct (truthy version); unfold same_run; by split_and!. }
  intros _ _ _. apply (same_run_bind _ _ (fun _ _ => True)).
  { destruct gh_output as [[|c file]|]; unfold same_run; by split_and!. }
  intros _ _ _. apply (same_run_bind _ _ eq); [apply parse_toc_order_same_run|].
  intros order ? <-. apply (same_run_bind _ _ (fun _ _ => True)).
  { unfold prepare_directory.
    destruct (dry_run config), (fs_exists fs1 _), (fs_exists fs2 _);
      unfold same_run; by split_and!. }
  intros _ _ _.
  apply (same_run_bind _ _ (Forall2 (same_document repo1 repo2)));
    [apply process_files_same_run|].
  intros registry1 registry2 Hreg.
  apply (same_run_bind _ _ (fun _ _ => True)).
  { destruct (dry_run config); cbn [negb when];
      [unfold same_run; by split_and!|apply copy_license_from_same_run]. }
  intros _ _ _. apply (same_run_bind _ _ (fun _ _ => True)).
  { unfold generate_skill_md.
    rewrite (skill_md_text_same_documents config repo1 repo2 _ _ version Hreg).
    destruct (dry_run config); unfold same_run; by split_and!. }
  intros _ _ _. apply (same_run_bind _ _ (fun _ _ => True)).
  { destruct (dry_run config); unfold same_run; by split_and!. }
  intros _ _ _. unfold same_run. by split_and!.
Qed.

End SameInputs.

(** The tree that a later run finds has the inputs of the earlier one. *)
Lemma later_run_exists (repo1 repo2 out : Path) (fs : FileSystem) (rel : Path) :
  fs_exists fs (repo1 ++ rel)
  = fs_exists (later_run repo1 repo2 out fs) (repo2 ++ rel).
Proof. cbn [later_run fs_exists]. by rewrite path_under_app. Qed.

Lemma later_run_read_text (repo1 repo2 out : Path) (fs : FileSystem)
    (rel : Path) :
  same_result eq (fs_read_text fs (repo1 ++ rel))
    (fs_read_text (later_run repo1 repo2 out fs) (repo2 ++ rel)).
Proof.
  cbn [later_run fs_read_text]. rewrite path_under_app.
  by destruct (fs_read_text fs (repo1 ++ rel)).
Qed.

Lemma later_run_glob_md (repo1 repo2 out : Path) (fs : FileSystem)
    (rel : Path) :
  fs_glob_md fs (repo1 ++ rel)
  ≡ₚ fs_glob_md (later_run repo1 repo2 out fs) (repo2 ++ rel).
Proof.
  cbn [later_run fs_glob_md]. rewrite path_under_app.
  symmetry. apply reverse_Permutation.
Qed.

(** C9, as amended: two runs of the pipeline, each on its own clone, over
    the same TOC text, the same documents and the same contents (a file
    exists, is listed and is read at a place of one clone as at the same
    place of the other; the scan of a directory may yield its files in
    another order, and the output directory may exist for one run and
    not for the other) write the same index text and make the same
    copies, from the same places of the clone to the same destinations,
    and one completes when the other does, provided that no two files of
    the directory of a configured section have the same stem. *)
Theorem build_deterministic_without_collisions (config : Configuration)
    (fs1 fs2 : FileSystem) (repo1 repo2 : Path) (gh_output : option str) :
  (∀ rel, fs_exists fs1 (repo1 ++ rel) = fs_exists fs2 (repo2 ++ rel)) →
  (∀ rel, same_result eq (fs_read_text fs1 (repo1 ++ rel))
                         (fs_read_text fs2 (repo2 ++ rel))) →
  (∀ rel, fs_glob_md fs1 (repo1 ++ rel) ≡ₚ fs_glob_md fs2 (repo2 ++ rel)) →
  (∀ s, s ∈ SECTIONS config →
        NoDup (name_stem <$> fs_glob_md fs1 (joinpath (tspl_root repo1) s))) →
  written_index (build config fs1 repo1 gh_output).1
  = written_index (build config fs2 repo2 gh_output).1
  ∧ relative_copies repo1 (build config fs1 repo1 gh_output).1
    = relative_copies repo2 (build config fs2 repo2 gh_output).1
  ∧ ((build config fs1 repo1 gh_output).2 = Ok tt
     ↔ (build config fs2 repo2 gh_output).2 = Ok tt).
Proof.
  intros Hexists Htext Hfiles Hstems.
  destruct (build_same_run config fs1 fs2 repo1 repo2 Hexists Htext Hfiles
              Hstems gh_output) as (Hindex & Hcopies & Hresult).
  split_and!; [done|done|].
  by destruct (build config fs1 repo1 gh_output).2 as [[]|e1],
    (build config fs2 repo2 gh_output).2 as [[]|e2].
Qed.

Lemma build_deterministic_without_collisions_witness :
  ((∀ rel, fs_exists first_run_fs (first_clone ++ rel)
           = fs_exists second_run_fs (second_clone ++ rel))
   ∧ (∀ rel, same_result eq (fs_read_text first_run_fs (first_clone ++ rel))
                            (fs_read_text second_run_fs (second_clone ++ rel)))
   ∧ (∀ rel, fs_glob_md first_run_fs (first_clone ++ rel)
             ≡ₚ fs_glob_md second_run_fs (second_clone ++ rel))
   ∧ (∀ s, s ∈ SECTIONS (example_config false) →
        NoDup (name_stem
                 <$> fs_glob_md first_run_fs
                       (joinpath (tspl_root first_clone) s))))
  ∧ (fs_glob_md first_run_fs (joinpath (tspl_root first_clone) (lit "GuidedTour"))
     = [lit "AboutSwift.md"; lit "GuidedTour.md"]
     ∧ fs_glob_md second_run_fs
         (joinpath (tspl_root second_clone) (lit "GuidedTour"))
       = [lit "GuidedTour.md"; lit "AboutSwift.md"]
     ∧ fs_exists first_run_fs (output_path (example_config false)) = false
     ∧ fs_exists second_run_fs (output_path (example_config false)) = true
     ∧ (build (example_config false) first_run_fs first_clone None).2 = Ok tt
     ∧ length (relative_copies first_clone
                 (build (example_config false) first_run_fs first_clone None).1)
       = 5%nat)
  ∧ written_index (build (example_config false) first_run_fs first_clone None).1
    = written_index
        (build (example_config false) second_run_fs second_clone None).1
  ∧ relative_copies first_clone
      (build (example_config false) first_run_fs first_clone None).1
    = relative_copies second_clone
        (build (example_config false) second_run_fs second_clone None).1
  ∧ ((build (example_config false) first_run_fs first_clone None).2 = Ok tt
     ↔ (build (example_config false) second_run_fs second_clone None).2 = Ok tt).
Proof.
  assert (H1 : ∀ rel, fs_exists first_run_fs (first_clone ++ rel)
                      = fs_exists second_run_fs (second_clone ++ rel))
    by (intros rel; apply later_run_exists).
  assert (H2 : ∀ rel,
             same_result eq (fs_read_text first_run_fs (first_clone ++ rel))
               (fs_read_text second_run_fs (second_clone ++ rel)))
    by (intros rel; apply later_run_read_text).
  assert (H3 : ∀ rel, fs_glob_md first_run_fs (first_clone ++ rel)
                      ≡ₚ fs_glob_md second_run_fs (second_clone ++ rel))
    by (intros rel; apply later_run_glob_md).
  assert (H4 : ∀ s, s ∈ SECTIONS (example_config false) →
     NoDup (name_stem
              <$> fs_glob_md first_run_fs (joinpath (tspl_root first_clone) s))).
  { intros s Hs. for_each_element Hs ltac:(by_evaluation). }
  split; [by split_and!|].
  split; [split_and!; vm_compute; reflexivity|].
  exact (build_deterministic_without_collisions (example_config false)
           first_run_fs second_run_fs first_clone second_clone None
           H1 H2 H3 H4).
Defined.

(** C9, as stated, fails on [collision_fs]: two runs over the same TOC
    text, the same documents and the same contents, which differ only in
    the order in which the scan of a directory yields its files, both
    complete, and they write different index texts and copy different
    files. *)
Lemma scan_order_changes_output :
  let config := example_config false in
  let run1 := build config collision_fs example_repo None in
  let run2 := build config (reverse_scan collision_fs) example_repo None in
  (∀ p, fs_exists collision_fs p = fs_exists (reverse_scan collision_fs) p)
  ∧ (∀ p, fs_read_text collision_fs p
          = fs_read_text (reverse_scan collision_fs) p)
  ∧ (∀ p, fs_glob_md collision_fs p ≡ₚ fs_glob_md (reverse_scan collision_fs) p)
  ∧ run1.2 = Ok tt ∧ run2.2 = Ok tt
  ∧ written_index run1.1 ≠ written_index run2.1
  ∧ (example_tspl ++ [lit "GuidedTour"; lit ".md.md"],
     [lit "out"; lit "programming-swift"; lit "GuidedTour"; lit ".md.md"])
    ∈ copied_files run1.1
  ∧ (example_tspl ++ [lit "GuidedTour"; lit ".md.md"],
     [lit "out"; lit "programming-swift"; lit "GuidedTour"; lit ".md.md"])
    ∉ copied_files run2.1.
Proof.
  cbv zeta. split_and!.
  - reflexivity.
  - reflexivity.
  - intros p. symmetry. apply reverse_Permutation.
  - vm_compute. reflexivity.
  - vm_compute. reflexivity.
  - by_evaluation.
  - by_evaluation.
  - by_evaluation.
Qed.


(** * Further properties *)

(** ** What metadata extraction returns *)

(** The loop leaves with a description only at a line that follows a
    title; the description is the trimmed line and the title the trimmed
    rest of a line that starts with ["# "]. *)
Lemma scan_lines_break lines : ∀ title0 in_block found_title title d,
  scan_lines lines title0 in_block found_title = (title, Some d) →
  (∃ line, line ∈ lines ∧ d = strip line ∧ d ≠ []
     ∧ startswith AT_SIGN d = false ∧ startswith HASH d = false
     ∧ startswith LESS d = false ∧ startswith GREATER d = false)
  ∧ ((found_title = true ∧ title = title0)
     ∨ ∃ line, line ∈ lines ∧ startswith HASH_SPACE (strip line) = true
               ∧ title = strip (drop 2 (strip line))).
Proof.
  induction lines as [|line rest IH]; intros title0 in_block found_title title d;
    cbn [scan_lines]; [done|].
  assert (Hrec : ∀ t b f,
    scan_lines rest t b f = (title, Some d) →
    (∃ l, l ∈ line :: rest ∧ d = strip l ∧ d ≠ []
       ∧ startswith AT_SIGN d = false ∧ startswith HASH d = false
       ∧ startswith LESS d = false ∧ startswith GREATER d = false)
    ∧ ((f = true ∧ title = t)
       ∨ ∃ l, l ∈ line :: rest ∧ startswith HASH_SPACE (strip l) = true
              ∧ title = strip (drop 2 (strip l)))).
  { intros t b f [(l & Hl & Hd) Ht]%IH. split.
    - exists l. split; [by apply list_elem_of_further|done].
    - destruct Ht as [?|(l' & Hl' & ?)]; [by left|right].
      exists l'. split; [by apply list_elem_of_further|done]. }
  destruct (startswith AT_SIGN (strip line)) eqn:Hat.
  { intros H. by apply Hrec in H. }
  destruct in_block.
  { destruct (bool_decide (strip line = CLOSE_BRACE)); cbn [orb];
      [|destruct (bool_decide (strip line = []))];
      intros H; by apply Hrec in H. }
  destruct (is_empty (strip line)) eqn:Hempty.
  { intros H. by apply Hrec in H. }
  destruct found_title; cbn [negb].
  - destruct (startswith HASH (strip line)) eqn:Hhash; cbn [orb].
    { intros H. by apply Hrec in H. }
    destruct (startswith LESS (strip line)) eqn:Hless; cbn [orb].
    { intros H. by apply Hrec in H. }
    destruct (startswith GREATER (strip line)) eqn:Hgreater.
    { intros H. by apply Hrec in H. }
    intros [= <- <-]. split; [|by left].
    exists line. split; [apply list_elem_of_here|].
    split_and!; try done. by destruct (strip line).
  - destruct (startswith HASH_SPACE (strip line)) eqn:Hhs.
    + intros H. apply Hrec in H.
      destruct H as [Hd [[_ ->]|Ht]]; (split; [done|right]); [|done].
      exists line. split; [apply list_elem_of_here|done].
    + intros H. apply Hrec in H.
      destruct H as [Hd [[? _]|Ht]]; [done|]. by split; [|right].
Qed.

(** X1: whenever [extract_metadata] returns a record, the description of
    the record is the value that the loop assigned before it left: the
    trimmed text of a line of the document, which is not empty and does
    not begin with ['@'], ['#'], ['<'] or ['>'].  So the test
    [if not description] is false on every record that is returned, and
    the text ["No description available."] is never substituted. *)
Theorem extract_metadata_description_is_line content file_path section_name m :
  extract_metadata_text content file_path section_name = Ok m →
  scan_lines (splitlines content) (path_stem file_path) false false
  = (title m, Some (description m))
  ∧ ∃ line, line ∈ splitlines content ∧ description m = strip line
      ∧ description m ≠ []
      ∧ startswith AT_SIGN (description m) = false
      ∧ startswith HASH (description m) = false
      ∧ startswith LESS (description m) = false
      ∧ startswith GREATER (description m) = false.
Proof.
  unfold extract_metadata_text.
  destruct (scan_lines _ _ _ _) as [t [d|]] eqn:Hscan; [|done].
  pose proof Hscan as Hbreak.
  apply scan_lines_break in Hbreak as [(line & Hline & -> & Hne & Hd) _].
  intros [= <-]. cbn [description title].
  destruct (strip line) as [|c rest] eqn:Hstrip; [done|].
  cbn [is_empty]. split; [done|].
  exists line. by rewrite Hstrip.
Qed.

Lemma extract_metadata_description_is_line_witness :
  extract_metadata_text doc_plain [lit "TheBasics.md"] (lit "LanguageGuide")
  = Ok {| filename := lit "TheBasics.md"; section := lit "LanguageGuide";
          title := lit "The Basics";
          description := lit "Work with common kinds of data.";
          path := [lit "TheBasics.md"] |}
  ∧ scan_lines (splitlines doc_plain) (path_stem [lit "TheBasics.md"])
      false false
    = (lit "The Basics", Some (lit "Work with common kinds of data."))
  ∧ ∃ line, line ∈ splitlines doc_plain
      ∧ lit "Work with common kinds of data." = strip line
      ∧ lit "Work with common kinds of data." ≠ []
      ∧ startswith AT_SIGN (lit "Work with common kinds of data.") = false
      ∧ startswith HASH (lit "Work with common kinds of data.") = false
      ∧ startswith LESS (lit "Work with common kinds of data.") = false
      ∧ startswith GREATER (lit "Work with common kinds of data.") = false.
Proof.
  assert (H : extract_metadata_text doc_plain [lit "TheBasics.md"]
                (lit "LanguageGuide")
    = Ok {| filename := lit "TheBasics.md"; section := lit "LanguageGuide";
            title := lit "The Basics";
            description := lit "Work with common kinds of data.";
            path := [lit "TheBasics.md"] |}) by reflexivity.
  split; [exact H|].
  exact (extract_metadata_description_is_line _ _ _ _ H).
Defined.

(** X2: whenever [extract_metadata] returns a record, its title is the
    trimmed text after the ["# "] of a line of the document whose trimmed
    text starts with ["# "]. *)
Theorem extract_metadata_title_is_heading content file_path section_name m :
  extract_metadata_text content file_path section_name = Ok m →
  ∃ line, line ∈ splitlines content
    ∧ startswith HASH_SPACE (strip line) = true
    ∧ title m = strip (drop 2 (strip line)).
Proof.
  unfold extract_metadata_text.
  destruct (scan_lines _ _ _ _) as [t [d|]] eqn:Hscan; [|done].
  apply scan_lines_break in Hscan as [_ [[? _]|(line & Hline & Hhs & ->)]];
    [done|].
  intros [= <-]. cbn [title]. by exists line.
Qed.

Lemma extract_metadata_title_is_heading_witness :
  extract_metadata_text doc_plain [lit "TheBasics.md"] (lit "LanguageGuide")
  = Ok {| filename := lit "TheBasics.md"; section := lit "LanguageGuide";
          title := lit "The Basics";
          description := lit "Work with common kinds of data.";
          path := [lit "TheBasics.md"] |}
  ∧ ∃ line, line ∈ splitlines doc_plain
      ∧ startswith HASH_SPACE (strip line) = true
      ∧ lit "The Basics" = strip (drop 2 (strip line)).
Proof.
  assert (H : extract_metadata_text doc_plain [lit "TheBasics.md"]
                (lit "LanguageGuide")
    = Ok {| filename := lit "TheBasics.md"; section := lit "LanguageGuide";
            title := lit "The Basics";
            description := lit "Work with common kinds of data.";
            path := [lit "TheBasics.md"] |}) by reflexivity.
  split; [exact H|].
  exact (extract_metadata_title_is_heading _ _ _ _ H).
Defined.

Lemma scan_lines_in_block block close rest title found_title :
  Forall (fun line => strip line ≠ CLOSE_BRACE) block →
  strip close = CLOSE_BRACE →
  scan_lines (block ++ close :: rest) title true found_title
  = scan_lines rest title false found_title.
Proof.
  intros Hblock Hclose.
  induction Hblock as [|line block Hline _ IH]; cbn [app scan_lines].
  - rewrite Hclose. cbn. by rewrite bool_decide_eq_true_2.
  - destruct (startswith AT_SIGN (strip line)); [done|].
    rewrite (bool_decide_eq_false_2 _ Hline). cbn [orb].
    by destruct (bool_decide (strip line = [])).
Qed.

(** X3: a metadata block, from a line that starts with ['@'] to the next
    line that is a lone ['}'], is skipped whole, whatever its lines are and
    wherever in the document it stands: the scan goes on after it with the
    title it had and outside any block. *)
Theorem scan_lines_skips_closed_block open block close rest title in_block
    found_title :
  startswith AT_SIGN (strip open) = true →
  Forall (fun line => strip line ≠ CLOSE_BRACE) block →
  strip close = CLOSE_BRACE →
  scan_lines (open :: block ++ close :: rest) title in_block found_title
  = scan_lines rest title false found_title.
Proof.
  intros Hopen Hblock Hclose. cbn [scan_lines]. rewrite Hopen.
  by apply scan_lines_in_block.
Qed.

Lemma scan_lines_skips_closed_block_witness :
  (startswith AT_SIGN (strip block_open) = true
   ∧ Forall (fun line => strip line ≠ CLOSE_BRACE) block_body
   ∧ strip block_close = CLOSE_BRACE)
  ∧ scan_lines (block_open :: block_body ++ block_close :: block_rest)
      (lit "Doc") false false
    = scan_lines block_rest (lit "Doc") false false.
Proof.
  assert (H1 : startswith AT_SIGN (strip block_open) = true) by reflexivity.
  assert (H2 : Forall (fun line => strip line ≠ CLOSE_BRACE) block_body).
  { repeat constructor; by vm_compute. }
  assert (H3 : strip block_close = CLOSE_BRACE) by reflexivity.
  split; [by split_and!|].
  exact (scan_lines_skips_closed_block block_open block_body block_close
           block_rest (lit "Doc") false false H1 H2 H3).
Defined.

Lemma heading_not_directive (s : str) :
  startswith HASH_SPACE s = true →
  startswith AT_SIGN s = false ∧ is_empty s = false.
Proof.
  unfold HASH_SPACE, AT_SIGN.
  destruct s as [|a s]; cbn [startswith is_empty]; [done|].
  destruct (N.eqb_spec 35 a) as [<-|]; [done|]. by cbn.
Qed.

(** Before the title, lines that are neither directives nor level-1
    headings are passed over. *)
Lemma scan_lines_before_title pre lines title :
  Forall (fun line => startswith AT_SIGN (strip line) = false
                      ∧ startswith HASH_SPACE (strip line) = false) pre →
  scan_lines (pre ++ lines) title false false
  = scan_lines lines title false false.
Proof.
  induction 1 as [|line pre [Hat Hhs] _ IH]; cbn [app scan_lines]; [done|].
  rewrite Hat, Hhs. cbn [negb]. by destruct (is_empty (strip line)).
Qed.

(** After the title, empty lines, headings, markup and blockquotes are
    passed over. *)
Lemma scan_lines_after_title mid lines title :
  Forall (fun line => startswith AT_SIGN (strip line) = false
            ∧ (strip line = [] ∨ startswith HASH (strip line) = true
               ∨ startswith LESS (strip line) = true
               ∨ startswith GREATER (strip line) = true)) mid →
  scan_lines (mid ++ lines) title false true
  = scan_lines lines title false true.
Proof.
  induction 1 as [|line mid [Hat Hskip] _ IH]; cbn [app scan_lines]; [done|].
  rewrite Hat. cbn [negb].
  destruct Hskip as [Hs|[Hs|[Hs|Hs]]]; rewrite Hs; [done|..];
    destruct (is_empty (strip line)); try done;
    by rewrite ?orb_true_r.
Qed.

(** X4: in a document without directive lines around its title, the title
    is the trimmed text after the ["# "] of the first line that starts
    with it, and the description is the trimmed text of the first line
    after the title that is not empty and is no heading, markup or
    blockquote; the lines after that one (the rest of the paragraph
    included) play no part. *)
Theorem extract_metadata_first_paragraph_line content file_path section_name
    pre title_line mid description_line rest :
  splitlines content = pre ++ title_line :: mid ++ description_line :: rest →
  Forall (fun line => startswith AT_SIGN (strip line) = false
                      ∧ startswith HASH_SPACE (strip line) = false) pre →
  startswith HASH_SPACE (strip title_line) = true →
  Forall (fun line => startswith AT_SIGN (strip line) = false
            ∧ (strip line = [] ∨ startswith HASH (strip line) = true
               ∨ startswith LESS (strip line) = true
               ∨ startswith GREATER (strip line) = true)) mid →
  strip description_line ≠ [] →
  startswith AT_SIGN (strip description_line) = false →
  startswith HASH (strip description_line) = false →
  startswith LESS (strip description_line) = false →
  startswith GREATER (strip description_line) = false →
  extract_metadata_text content file_path section_name
  = Ok {| filename := path_name file_path; section := section_name;
          title := strip (drop 2 (strip title_line));
          description := strip description_line;
          path := file_path |}.
Proof.
  intros Hlines Hpre Htitle Hmid Hne Hat Hhash Hless Hgreater.
  unfold extract_metadata_text. rewrite Hlines.
  rewrite scan_lines_before_title by done. cbn [scan_lines].
  destruct (heading_not_directive _ Htitle) as [-> ->].
  rewrite Htitle. cbn [negb].
  rewrite scan_lines_after_title by done. cbn [scan_lines].
  rewrite Hat, Hhash, Hless, Hgreater. cbn [orb negb].
  by destruct (strip description_line).
Qed.

Lemma extract_metadata_first_paragraph_line_witness :
  (splitlines doc_plain
   = [lit "Preface."; []] ++ lit "#  The Basics  "
       :: [[]; lit "## Overview"; lit "<!-- note -->"; lit "> Quote"]
       ++ lit "  Work with common kinds of data.  "
       :: [lit "Second line of the paragraph."]
   ∧ Forall (fun line => startswith AT_SIGN (strip line) = false
                         ∧ startswith HASH_SPACE (strip line) = false)
            [lit "Preface."; []]
   ∧ startswith HASH_SPACE (strip (lit "#  The Basics  ")) = true
   ∧ Forall (fun line => startswith AT_SIGN (strip line) = false
               ∧ (strip line = [] ∨ startswith HASH (strip line) = true
                  ∨ startswith LESS (strip line) = true
                  ∨ startswith GREATER (strip line) = true))
            [[]; lit "## Overview"; lit "<!-- note -->"; lit "> Quote"]
   ∧ strip (lit "  Work with common kinds of data.  ") ≠ []
   ∧ startswith AT_SIGN (strip (lit "  Work with common kinds of data.  ")) = false
   ∧ startswith HASH (strip (lit "  Work with common kinds of data.  ")) = false
   ∧ startswith LESS (strip (lit "  Work with common kinds of data.  ")) = false
   ∧ startswith GREATER (strip (lit "  Work with common kinds of data.  ")) = false)
  ∧ extract_metadata_text doc_plain [lit "TheBasics.md"] (lit "LanguageGuide")
    = Ok {| filename := path_name [lit "TheBasics.md"];
            section := lit "LanguageGuide";
            title := strip (drop 2 (strip (lit "#  The Basics  ")));
            description := strip (lit "  Work with common kinds of data.  ");
            path := [lit "TheBasics.md"] |}.
Proof.
  assert (H1 : splitlines doc_plain
   = [lit "Preface."; []] ++ lit "#  The Basics  "
       :: [[]; lit "## Overview"; lit "<!-- note -->"; lit "> Quote"]
       ++ lit "  Work with common kinds of data.  "
       :: [lit "Second line of the paragraph."]) by reflexivity.
  assert (H2 : Forall (fun line => startswith AT_SIGN (strip line) = false
                         ∧ startswith HASH_SPACE (strip line) = false)
            [lit "Preface."; []]) by (repeat constructor).
  assert (H3 : startswith HASH_SPACE (strip (lit "#  The Basics  ")) = true)
    by reflexivity.
  assert (H4 : Forall (fun line => startswith AT_SIGN (strip line) = false
               ∧ (strip line = [] ∨ startswith HASH (strip line) = true
                  ∨ startswith LESS (strip line) = true
                  ∨ startswith GREATER (strip line) = true))
            [[]; lit "## Overview"; lit "<!-- note -->"; lit "> Quote"]).
  { repeat (constructor; [split; [reflexivity|]|]);
      [by left|by right; left|by right; right; left|by right; right; right|].
    constructor. }
  assert (H5 : strip (lit "  Work with common kinds of data.  ") ≠ [])
    by (by vm_compute).
  split; [by split_and!|].
  exact (extract_metadata_first_paragraph_line doc_plain [lit "TheBasics.md"]
           (lit "LanguageGuide") _ _ _ _ _ H1 H2 H3 H4 H5
           eq_refl eq_refl eq_refl eq_refl).
Defined.

(** ** The TOC file *)

(** X5: when the TOC file does not exist, a run logs the warning of
    [get_version], appends [swift_version=Unknown] to the file that
    [GITHUB_OUTPUT] names (if it names one), and then fails with the
    [FileNotFoundError] of [parse_toc_order]: the output directory is
    neither removed nor created, in a dry run or not. *)
Theorem build_missing_toc (config : Configuration) (fs : FileSystem)
    (repo_path : Path) (gh_output : option str) :
  fs_exists fs (joinpath repo_path (TOC_REL_PATH config)) = false →
  build config fs repo_path gh_output
  = (LogWarning (lit "TOC file not found at "
                 ++ path_str (joinpath repo_path (TOC_REL_PATH config)))
       :: match gh_output with
          | Some ((_ :: _) as file) =>
              [AppendText file (lit "swift_version=" ++ lit "Unknown" ++ LF)]
          | _ => []
          end,
     Err (FileNotFoundError
            (lit "TOC file not found: "
             ++ path_str (joinpath repo_path (TOC_REL_PATH config))))).
Proof.
  intros Hex. unfold build, get_version, parse_toc_order. rewrite Hex.
  cbn [negb]. unfold log_warning, emit, raise, when.
  cbv [mbind IO_bind mret IO_ret]. unfold ret.
  by destruct gh_output as [[|c file]|].
Qed.

Lemma build_missing_toc_witness :
  fs_exists example_fs
    (joinpath [lit "elsewhere"] (TOC_REL_PATH (example_config false))) = false
  ∧ build (example_config false) example_fs [lit "elsewhere"]
      (Some (lit "/tmp/github_output"))
    = (LogWarning (lit "TOC file not found at "
                   ++ path_str (joinpath [lit "elsewhere"]
                                  (TOC_REL_PATH (example_config false))))
         :: [AppendText (lit "/tmp/github_output")
               (lit "swift_version=" ++ lit "Unknown" ++ LF)],
       Err (FileNotFoundError
              (lit "TOC file not found: "
               ++ path_str (joinpath [lit "elsewhere"]
                              (TOC_REL_PATH (example_config false)))))).
Proof.
  assert (H : fs_exists example_fs
    (joinpath [lit "elsewhere"] (TOC_REL_PATH (example_config false))) = false)
    by reflexivity.
  split; [exact H|].
  exact (build_missing_toc (example_config false) example_fs [lit "elsewhere"]
           (Some (lit "/tmp/github_output")) H).
Defined.

(** X6: a version that [get_version] returns is never the empty string
    and contains no [')']; so the tests [if self.version] and
    [self.version or "Unknown"] of [build] only tell a found version from
    a missing one. *)
Theorem get_version_text_not_empty content v :
  get_version_text content = Some v →
  v ≠ [] ∧ (RPAREN ∉ v) ∧ truthy (Some v) = true.
Proof.
  unfold get_version_text. intros Hv.
  pose proof (search_bol_version content [] true) as H.
  destruct (search_bol _ _ content) as [cap|]; [|done]. subst cap.
  destruct H as (pre & suf & v' & [= <-] & _ & _ & Hhead & _).
  { split; [by left|done]. }
  destruct Hhead as (ws1 & ws2 & rest & _ & _ & [Hne Hparen] & _).
  split_and!; [done|done|by destruct v].
Qed.

Lemma get_version_text_not_empty_witness :
  get_version_text example_toc = Some (lit "6.2")
  ∧ lit "6.2" ≠ [] ∧ (RPAREN ∉ lit "6.2") ∧ truthy (Some (lit "6.2")) = true.
Proof.
  assert (H : get_version_text example_toc = Some (lit "6.2")) by reflexivity.
  split; [exact H|].
  exact (get_version_text_not_empty example_toc (lit "6.2") H).
Defined.

Lemma Occurrences_identifiers s idents :
  Occurrences s idents →
  Forall (fun ident => is_identifier ident
                       ∧ ∃ pre suf, s = pre ++ marker ident ++ suf) idents.
Proof.
  induction 1 as [s _|gap ident rest idents Hid _ _ IH]; constructor.
  - split; [done|]. by exists gap, rest.
  - eapply Forall_impl; [exact IH|].
    intros ident' [Hid' (pre & suf & ->)]. split; [done|].
    exists (gap ++ marker ident ++ pre), suf.
    by rewrite <- !(assoc_L (++)).
Qed.

(** X7: every identifier that [parse_toc_order] returns is written in the
    text between ["<doc:"] and ['>']; it is not empty and contains no
    ['>'] (it may contain line breaks and ['<']). *)
Theorem parse_toc_order_identifiers content :
  Forall (fun ident => ident ≠ [] ∧ (GT ∉ ident)
            ∧ ∃ pre suf, content = pre ++ DOC_OPEN ++ ident ++ [GT] ++ suf)
         (parse_toc_order_text content).
Proof.
  unfold parse_toc_order_text.
  eapply Forall_impl.
  - apply Occurrences_identifiers,
      (findall_Occurrences (S (length content))). lia.
  - intros ident [[Hne Hgt] (pre & suf & ->)]. split_and!; [done|done|].
    exists pre, suf. unfold marker. by rewrite <- !(assoc_L (++)).
Qed.


(** ** The index of the available files *)

Lemma index_files_map {V} (key : str → str) (val : str → V) names :
  ∀ fm : gmap str V,
    foldl (fun fm name => <[key name := val name]> fm) fm names
    = list_to_map (reverse ((fun name => (key name, val name)) <$> names)) ∪ fm.
Proof.
  induction names as [|name names IH]; intros fm.
  - cbn. by rewrite (left_id_L ∅ (∪)).
  - cbn [foldl]. rewrite IH. rewrite fmap_cons, reverse_cons, list_to_map_app.
    rewrite <- (assoc_L (∪)). f_equal.
    cbn. by rewrite <- insert_union_l, (left_id_L ∅ (∪)).
Qed.

(** The scan builds the map of the entries it meets, a later entry
    replacing an earlier one of the same stem. *)
Lemma index_sections_map (fs : FileSystem) (repo_path : Path) sections :
  ∀ fm0 : gmap str (str * Path),
    foldM (index_section fs repo_path) fm0 sections
    = (missing_warnings fs repo_path sections,
       Ok (list_to_map (reverse (scan_entries fs repo_path sections)) ∪ fm0)).
Proof.
  induction sections as [|s sections IH]; intros fm0.
  - cbn. by rewrite (left_id_L ∅ (∪)).
  - cbn [foldM]. rewrite bind_eq. unfold index_section at 1.
    unfold scan_entries. rewrite bind_cons, reverse_app, list_to_map_app.
    unfold missing_warnings. rewrite filter_cons.
    unfold section_entries at 2.
    destruct (fs_exists fs (joinpath (tspl_root repo_path) s)) eqn:Hs;
      cbn [negb].
    + rewrite decide_False by done.
      rewrite mret_eq, bind_Ok, IH. cbn [fst snd app].
      rewrite <- (assoc_L (∪)). do 3 f_equal.
      apply (index_files_map
               (fun name => path_stem (joinpath (tspl_root repo_path) s ++ [name]))
               (fun name => (s, joinpath (tspl_root repo_path) s ++ [name]))).
    + rewrite decide_True by done.
      rewrite bind_eq. unfold log_warning, emit.
      rewrite bind_Ok, mret_eq. cbn [fst snd].
      rewrite bind_Ok, IH. cbn [fst snd app].
      by rewrite reverse_nil, list_to_map_nil, (right_id_L ∅ (∪)).
Qed.

Lemma build_file_map_eq (config : Configuration) (fs : FileSystem)
    (repo_path : Path) :
  build_file_map config fs repo_path
  = (missing_warnings fs repo_path (SECTIONS config),
     Ok (list_to_map (reverse (scan_entries fs repo_path (SECTIONS config))))).
Proof.
  unfold build_file_map. rewrite index_sections_map.
  by rewrite (right_id_L ∅ (∪)).
Qed.

(** X8: the directory scan never fails, and when several files have the
    same stem, within a section or across sections, the index keeps the
    one that the scan meets last (sections in configured order, files in
    the order of the scan of their directory). *)
Theorem build_file_map_last_scanned_wins (config : Configuration)
    (fs : FileSystem) (repo_path : Path) before k v after :
  scan_entries fs repo_path (SECTIONS config) = before ++ (k, v) :: after →
  k ∉ after.*1 →
  ∃ trace fm,
    build_file_map config fs repo_path = (trace, Ok fm) ∧ fm !! k = Some v.
Proof.
  intros Hentries Hlast. eexists _, _. split; [apply build_file_map_eq|].
  rewrite Hentries, reverse_app, reverse_cons, !list_to_map_app.
  assert (Hk : (list_to_map (reverse after) ∪ list_to_map [(k, v)]
                : gmap str (str * Path)) !! k = Some v).
  { rewrite lookup_union_r.
    - cbn. by rewrite lookup_insert_eq.
    - apply not_elem_of_list_to_map.
      by rewrite fmap_reverse, elem_of_reverse. }
  by rewrite lookup_union_l', Hk.
Qed.

Lemma build_file_map_last_scanned_wins_witness :
  (scan_entries example_fs_overlap example_repo (SECTIONS (example_config true))
   = [ (lit "AboutSwift",
        (lit "GuidedTour", example_tspl ++ [lit "GuidedTour"; lit "AboutSwift.md"]));
       (lit "TheBasics",
        (lit "LanguageGuide",
         example_tspl ++ [lit "LanguageGuide"; lit "TheBasics.md"])) ]
     ++ (lit "TheBasics",
         (lit "ReferenceManual",
          example_tspl ++ [lit "ReferenceManual"; lit "TheBasics.md"]))
     :: [ (lit "LexicalStructure",
           (lit "ReferenceManual",
            example_tspl ++ [lit "ReferenceManual"; lit "LexicalStructure.md"])) ]
   ∧ lit "TheBasics"
     ∉ [ (lit "LexicalStructure",
           (lit "ReferenceManual",
            example_tspl ++ [lit "ReferenceManual"; lit "LexicalStructure.md"])) ].*1)
  ∧ ∃ trace fm,
      build_file_map (example_config true) example_fs_overlap example_repo
      = (trace, Ok fm)
      ∧ fm !! lit "TheBasics"
        = Some (lit "ReferenceManual",
                example_tspl ++ [lit "ReferenceManual"; lit "TheBasics.md"]).
Proof.
  assert (H1 : scan_entries example_fs_overlap example_repo
                 (SECTIONS (example_config true))
   = [ (lit "AboutSwift",
        (lit "GuidedTour", example_tspl ++ [lit "GuidedTour"; lit "AboutSwift.md"]));
       (lit "TheBasics",
        (lit "LanguageGuide",
         example_tspl ++ [lit "LanguageGuide"; lit "TheBasics.md"])) ]
     ++ (lit "TheBasics",
         (lit "ReferenceManual",
          example_tspl ++ [lit "ReferenceManual"; lit "TheBasics.md"]))
     :: [ (lit "LexicalStructure",
           (lit "ReferenceManual",
            example_tspl ++ [lit "ReferenceManual"; lit "LexicalStructure.md"])) ])
    by (vm_compute; reflexivity).
  assert (H2 : lit "TheBasics"
     ∉ [ (lit "LexicalStructure",
           (lit "ReferenceManual",
            example_tspl ++ [lit "ReferenceManual"; lit "LexicalStructure.md"])) ].*1)
    by by_evaluation.
  split; [by split|].
  exact (build_file_map_last_scanned_wins (example_config true)
           example_fs_overlap example_repo _ _ _ _ H1 H2).
Defined.

(** X9: the keys of the index are exactly the stems of the [*.md] files
    of the existing directories of the configured sections, and each key
    is bound to the section and the path of such a file with that stem. *)
Theorem build_file_map_keys (config : Configuration) (fs : FileSystem)
    (repo_path : Path) :
  ∃ trace fm,
    build_file_map config fs repo_path = (trace, Ok fm)
    ∧ (∀ k, is_Some (fm !! k)
            ↔ ∃ s name,
                s ∈ SECTIONS config
                ∧ fs_exists fs (joinpath (tspl_root repo_path) s) = true
                ∧ name ∈ fs_glob_md fs (joinpath (tspl_root repo_path) s)
                ∧ k = name_stem name)
    ∧ (∀ k s p, fm !! k = Some (s, p) →
         s ∈ SECTIONS config
         ∧ fs_exists fs (joinpath (tspl_root repo_path) s) = true
         ∧ ∃ name,
             name ∈ fs_glob_md fs (joinpath (tspl_root repo_path) s)
             ∧ k = name_stem name
             ∧ p = joinpath (tspl_root repo_path) s ++ [name]).
Proof.
  eexists _, _. split; [apply build_file_map_eq|].
  assert (Hentry : ∀ k s p,
    (k, (s, p)) ∈ scan_entries fs repo_path (SECTIONS config)
    ↔ s ∈ SECTIONS config
      ∧ fs_exists fs (joinpath (tspl_root repo_path) s) = true
      ∧ ∃ name,
          name ∈ fs_glob_md fs (joinpath (tspl_root repo_path) s)
          ∧ k = name_stem name
          ∧ p = joinpath (tspl_root repo_path) s ++ [name]).
  { intros k s p. unfold scan_entries. rewrite list_elem_of_bind. split.
    - intros (s' & Hin & Hs'). unfold section_entries in Hin.
      destruct (fs_exists fs _) eqn:Hex; [|by apply elem_of_nil in Hin].
      apply list_elem_of_fmap in Hin as (name & [= -> -> ->] & Hname).
      split_and!; [done|done|]. exists name.
      by rewrite path_stem_child.
    - intros (Hs & Hex & name & Hname & -> & ->). exists s. split; [|done].
      unfold section_entries. rewrite Hex. apply list_elem_of_fmap.
      exists name. by rewrite path_stem_child. }
  split.
  - intros k. split.
    + intros [[s p] Hk]. apply elem_of_list_to_map_2 in Hk.
      rewrite elem_of_reverse in Hk.
      apply Hentry in Hk as (Hs & Hex & name & Hname & -> & _).
      by exists s, name.
    + intros (s & name & Hs & Hex & Hname & ->).
      apply not_eq_None_Some. rewrite <- not_elem_of_list_to_map.
      intros Hnot. apply Hnot. rewrite fmap_reverse, elem_of_reverse.
      apply list_elem_of_fmap.
      exists (name_stem name, (s, joinpath (tspl_root repo_path) s ++ [name])).
      split; [done|]. apply Hentry. eauto 10.
  - intros k s p Hk. apply elem_of_list_to_map_2 in Hk.
    rewrite elem_of_reverse in Hk. by apply Hentry in Hk.
Qed.


(** ** How the resolution pass ends *)

Lemma foldM_app {A S} (f : S → A → IO S) s l1 l2 :
  foldM f s (l1 ++ l2) = bind (foldM f s l1) (fun s' => foldM f s' l2).
Proof.
  revert s. induction l1 as [|x l1 IH]; intros s; cbn [app foldM].
  - by rewrite mret_eq, bind_ret_l.
  - rewrite !bind_eq. destruct (f s x) as [t [s'|e]]; [|done].
    rewrite !bind_Ok, IH.
    destruct (foldM f s' l1) as [t1 [s1|e1]]; [|done].
    rewrite !bind_Ok. cbn [fst snd]. by rewrite bind_Ok, (assoc_L (++)).
Qed.

Lemma extract_metadata_section (fs : FileSystem) p sec m :
  extract_metadata fs p sec = Ok m → section m = sec.
Proof.
  unfold extract_metadata, extract_metadata_text.
  destruct (fs_read_text fs p) as [content|e]; [|done].
  destruct (scan_lines _ _ _ _) as [t [d|]]; [|done]. by intros [= <-].
Qed.

(** What [extract_metadata] raises is the error of the read, or the
    [UnboundLocalError] of the description. *)
Lemma extract_metadata_errors (fs : FileSystem) p sec e :
  extract_metadata fs p sec = Err e →
  fs_read_text fs p = Err e ∨ e = UnboundLocalError (lit "description").
Proof.
  unfold extract_metadata, extract_metadata_text.
  destruct (fs_read_text fs p) as [content|e']; [|intros [= ->]; by left].
  destruct (scan_lines _ _ _ _) as [t [d|]]; [done|]. intros [= <-]. by right.
Qed.

Section PassOutcome.

Variable config : Configuration.
Variable fs : FileSystem.
Variable fm : gmap str (str * Path).

(** A pass that ends has extracted the metadata of every resolved
    document, in order. *)
Lemma process_documents_inv doc_order : ∀ registry counts t registry' counts',
  foldM (process_document config fs fm) (registry, counts) doc_order
  = (t, Ok (registry', counts')) →
  ∃ metas,
    registry' = registry ++ metas
    ∧ t = copy_events config (resolved_documents fm doc_order)
    ∧ Forall2 (fun sp m => extract_metadata fs sp.2 sp.1 = Ok m)
              (resolved_documents fm doc_order) metas
    ∧ ∀ s, odict_get s counts'
           = (fun c => (c + count_section s (resolved_documents fm doc_order))%nat)
               <$> odict_get s counts.
Proof.
  induction doc_order as [|doc doc_order IH];
    intros registry counts t registry' counts'.
  - cbn [foldM]. rewrite mret_eq. intros [= <- <- <-]. exists [].
    split_and!.
    + by rewrite (right_id_L [] (++)).
    + unfold resolved_documents. cbn. by rewrite copy_events_nil.
    + constructor.
    + intros s. cbn. destruct (odict_get s counts); cbn; f_equal; lia.
  - unfold resolved_documents in *. cbn [omap list_omap foldM].
    rewrite bind_eq.
    destruct (fm !! doc) as [[sec p]|] eqn:Hdoc.
    + destruct (extract_metadata fs p sec) as [m|e] eqn:Hm.
      2:{ unfold process_document. rewrite Hdoc, Hm. by cbn. }
      destruct (odict_get sec counts) as [c|] eqn:Hc.
      2:{ unfold process_document. rewrite Hdoc, Hm. cbn [fst snd].
          rewrite Hc. by cbn. }
      rewrite (process_document_resolved _ _ _ _ _ _ _ _ _ _ Hdoc Hm Hc).
      rewrite bind_Ok.
      destruct (foldM _ _ doc_order) as [t' [[r' c']|e']] eqn:Hfold; [|done].
      cbn [fst snd]. intros [= <- <- <-].
      apply IH in Hfold as (metas & -> & -> & Hmetas & Hcounts).
      exists (m :: metas). split_and!.
      * by rewrite <- (assoc_L (++)).
      * by rewrite (copy_events_cons _ (sec, p) (omap _ _)).
      * by constructor.
      * intros s. rewrite Hcounts, odict_get_set.
        unfold count_section. rewrite filter_cons. cbn [fst].
        destruct (decide (sec = s)) as [->|Hne].
        -- rewrite bool_decide_eq_true_2 by done. rewrite Hc. cbn.
           f_equal. lia.
        -- by rewrite bool_decide_eq_false_2 by done.
    + rewrite process_document_unresolved by done. rewrite bind_ret_l.
      apply IH.
Qed.

End PassOutcome.

Lemma odict_elem_of_get {V} s (v : V) (d : odict V) :
  (s, v) ∈ d → is_Some (odict_get s d).
Proof.
  induction d as [|[k' v'] d IH]; [by intros ?%elem_of_nil|].
  intros [[= <- <-]|Hin]%elem_of_cons; cbn [odict_get].
  - by rewrite bool_decide_eq_true_2.
  - case_bool_decide; [done|by apply IH].
Qed.

Lemma missing_sections_configured (config : Configuration) counts s :
  (∀ s', is_Some (odict_get s' counts) → s' ∈ SECTIONS config) →
  s ∈ missing_sections counts → s ∈ SECTIONS config.
Proof.
  intros Hkeys. unfold missing_sections.
  intros ([s' c] & -> & [_ Hin]%list_elem_of_filter)%list_elem_of_fmap.
  by apply Hkeys, (odict_elem_of_get _ c).
Qed.

(** What [_process_files] returns or raises, from the index of the scan
    and the outcome of the pass. *)
Lemma process_files_outcome (config : Configuration) (fs : FileSystem)
    (repo_path : Path) order :
  ∃ fm,
    (∀ k sec p, fm !! k = Some (sec, p) →
       sec ∈ SECTIONS config
       ∧ fs_exists fs (joinpath (tspl_root repo_path) sec) = true)
    ∧ (process_files config fs repo_path order).2
      = match (resolution_pass config fs fm order).2 with
        | Err e => Err e
        | Ok st =>
            match missing_sections st.2 with
            | [] => Ok st.1
            | missing => Err (NoDocumentsError missing)
            end
        end.
Proof.
  destruct (build_file_map_spec config fs repo_path) as (fm & Hfm & Hin).
  exists fm. split; [done|].
  unfold process_files. rewrite !bind_eq, Hfm, bind_Ok. cbn [fst snd].
  rewrite bind_eq.
  destruct (resolution_pass config fs fm order) as [t [st|e]]; [|done].
  rewrite bind_Ok. cbn [fst snd].
  destruct (missing_sections st.2); [|done].
  unfold log_info, emit. by rewrite bind_eq, bind_Ok, mret_eq.
Qed.

(** X10: when [_process_files] returns, every configured section has at
    least one document in the registry, and every document of the
    registry is in a configured section: the index of a completed run has
    a block for each configured section. *)
Theorem process_files_covers_sections (config : Configuration)
    (fs : FileSystem) (repo_path : Path) (order : list str) (trace : list Event)
    (registry : list DocumentMetadata) :
  process_files config fs repo_path order = (trace, Ok registry) →
  (∀ s, s ∈ SECTIONS config → ∃ m, m ∈ registry ∧ section m = s)
  ∧ (∀ m, m ∈ registry → section m ∈ SECTIONS config).
Proof.
  intros Hrun.
  destruct (process_files_outcome config fs repo_path order)
    as (fm & Hin & Hout).
  rewrite Hrun in Hout. cbn [snd] in Hout.
  destruct (resolution_pass config fs fm order) as [t [[reg counts]|e]] eqn:Hpass;
    [|done].
  cbn [fst snd] in Hout.
  destruct (missing_sections counts) as [|x l] eqn:Hmissing; [|done].
  injection Hout as ->.
  apply process_documents_inv in Hpass as (metas & -> & _ & Hmetas & Hcounts).
  cbn [app]. split.
  - intros s Hs.
    specialize (Hcounts s). rewrite initial_counts_get in Hcounts.
    rewrite bool_decide_eq_true_2 in Hcounts by done. cbn in Hcounts.
    unfold count_section in Hcounts.
    destruct (filter (fun sp : str * Path => sp.1 = s)
                (resolved_documents fm order)) as [|[sec p] rest] eqn:Hf.
    { apply missing_sections_elem_of in Hcounts.
      rewrite Hmissing in Hcounts. by apply elem_of_nil in Hcounts. }
    assert (Hsp : (sec, p) ∈ filter (fun sp : str * Path => sp.1 = s)
                    (resolved_documents fm order))
      by (rewrite Hf; apply list_elem_of_here).
    apply list_elem_of_filter in Hsp as [Hsec Hsp]. cbn in Hsec. subst sec.
    apply list_elem_of_lookup in Hsp as [i Hi].
    destruct (Forall2_lookup_l _ _ _ _ _ Hmetas Hi) as (m & Hm & Hextract).
    exists m. split; [by eapply list_elem_of_lookup_2|].
    by apply extract_metadata_section in Hextract.
  - intros m [i Hi]%list_elem_of_lookup.
    destruct (Forall2_lookup_r _ _ _ _ _ Hmetas Hi) as ([sec p] & Hsp & Hextract).
    apply extract_metadata_section in Hextract as ->. cbn [fst].
    apply list_elem_of_lookup_2, list_elem_of_omap in Hsp as (doc & _ & Hdoc).
    by apply Hin in Hdoc as [? _].
Qed.

Lemma process_files_covers_sections_witness :
  process_files (example_config true) example_fs example_repo example_order
  = ([LogInfo (lit "Processed 3 files to out/programming-swift")],
     Ok example_registry)
  ∧ (∀ s, s ∈ SECTIONS (example_config true) →
          ∃ m, m ∈ example_registry ∧ section m = s)
  ∧ (∀ m, m ∈ example_registry → section m ∈ SECTIONS (example_config true)).
Proof.
  assert (H : process_files (example_config true) example_fs example_repo
                example_order
    = ([LogInfo (lit "Processed 3 files to out/programming-swift")],
       Ok example_registry)) by (vm_compute; reflexivity).
  split; [exact H|].
  exact (process_files_covers_sections (example_config true) example_fs
           example_repo example_order _ _ H).
Defined.

(** X11: [_process_files] fails in three ways only: with the error of the
    read of a document, with the [UnboundLocalError] of a document without
    description, or with the structural error, whose list is not empty
    and holds configured sections only.  In particular the count of a
    resolved document's section is always there to be incremented. *)
Theorem process_files_errors (config : Configuration) (fs : FileSystem)
    (repo_path : Path) (order : list str) (e : PyError) :
  (process_files config fs repo_path order).2 = Err e →
  (∃ p, fs_read_text fs p = Err e)
  ∨ e = UnboundLocalError (lit "description")
  ∨ ∃ missing, e = NoDocumentsError missing ∧ missing ≠ []
               ∧ ∀ s, s ∈ missing → s ∈ SECTIONS config.
Proof.
  destruct (process_files_outcome config fs repo_path order)
    as (fm & Hin & ->).
  destruct (resolution_pass config fs fm order) as [t [[reg counts]|e']] eqn:Hpass.
  - cbn [fst snd].
    destruct (missing_sections counts) as [|x l] eqn:Hmissing; [done|].
    intros [= <-]. right. right. exists (x :: l). split_and!; [done|done|].
    intros s Hs. rewrite <- Hmissing in Hs.
    apply (missing_sections_configured config counts); [|done].
    apply process_documents_inv in Hpass as (_ & _ & _ & _ & Hcounts).
    intros s' Hs'. rewrite Hcounts, initial_counts_get in Hs'.
    case_bool_decide; [done|]. by destruct Hs'.
  - intros [= <-].
    assert (Hcounted : ∀ doc_order st t,
      (∀ sec, sec ∈ SECTIONS config → is_Some (odict_get sec st.2)) →
      foldM (process_document config fs fm) st doc_order = (t, Err e') →
      ∃ p sec, extract_metadata fs p sec = Err e').
    { induction doc_order as [|doc doc_order IH]; intros st t' Hst; [done|].
      cbn [foldM]. rewrite bind_eq.
      destruct (process_document config fs fm st doc) as [t1 [st1|e1]] eqn:Hstep.
      - rewrite bind_Ok.
        destruct (foldM _ st1 doc_order) as [t2 [st2|e2]] eqn:Hf; [done|].
        intros [= _ <-]. apply (IH st1 t2); [|done].
        unfold process_document in Hstep.
        destruct (fm !! doc) as [[sec p]|] eqn:Hdoc.
        2:{ rewrite mret_eq in Hstep. by injection Hstep as _ <-. }
        destruct (extract_metadata fs p sec) as [m|e0]; [|done].
        destruct st as [reg0 counts0]. cbn [fst snd] in *.
        destruct (odict_get sec counts0) as [c|] eqn:Hc; [|done].
        assert (Hst1 : st1 = (reg0 ++ [m], odict_set sec (S c) counts0)).
        { revert Hstep. unfold lift, when, emit, ret.
          cbv [mbind IO_bind mret IO_ret]. rewrite !bind_ret_l.
          destruct (dry_run config); cbn [negb];
            repeat (rewrite bind_Ok; cbn beta iota; cbn [fst snd]);
            by intros [= _ <-]. }
        subst st1. cbn [snd]. intros sec' Hsec'.
        rewrite odict_get_set. case_bool_decide; [done|by apply Hst].
      - intros [= _ <-]. unfold process_document in Hstep.
        destruct (fm !! doc) as [[sec p]|] eqn:Hdoc; [|done].
        destruct (extract_metadata fs p sec) as [m|e0] eqn:Hm.
        + destruct (Hst sec) as [c Hc]; [by apply Hin in Hdoc as [? _]|].
          revert Hstep. unfold lift, when, emit, ret. rewrite Hc.
          cbv [mbind IO_bind mret IO_ret]. rewrite !bind_ret_l.
          destruct (dry_run config); cbn [negb];
            repeat (rewrite bind_Ok; cbn beta iota; cbn [fst snd]); done.
        + exists p, sec. revert Hstep. unfold lift. cbv [mbind IO_bind].
          by intros [= _ <-]. }
    destruct (Hcounted order ([], initial_counts config) t) as (p & sec & He).
    + intros sec Hsec. cbn [snd]. rewrite initial_counts_get.
      by rewrite bool_decide_eq_true_2.
    + exact Hpass.
    + apply extract_metadata_errors in He as [He| ->]; [left; eauto|by right; left].
Qed.

Lemma process_files_errors_witness :
  (process_files (example_config true) example_fs_untitled example_repo
     example_order).2 = Err (UnboundLocalError (lit "description"))
  ∧ ((∃ p, fs_read_text example_fs_untitled p
           = Err (UnboundLocalError (lit "description")))
     ∨ UnboundLocalError (lit "description")
       = UnboundLocalError (lit "description")
     ∨ ∃ missing,
         UnboundLocalError (lit "description") = NoDocumentsError missing
         ∧ missing ≠ []
         ∧ ∀ s, s ∈ missing → s ∈ SECTIONS (example_config true)).
Proof.
  assert (H : (process_files (example_config true) example_fs_untitled
                 example_repo example_order).2
              = Err (UnboundLocalError (lit "description")))
    by (vm_compute; reflexivity).
  split; [exact H|].
  exact (process_files_errors (example_config true) example_fs_untitled
           example_repo example_order _ H).
Defined.

(** X12: the pass stops at the first resolved document whose metadata
    cannot be extracted: it raises that error; the documents resolved
    before it have been copied (outside a dry run) and no later one is
    looked at. *)
Theorem resolution_pass_first_failure (config : Configuration) (fs : FileSystem)
    (fm : gmap str (str * Path)) (before : list str) (doc : str)
    (after : list str) (sec : str) (p : Path) (e : PyError) :
  (∀ sec' p', (sec', p') ∈ resolved_documents fm before →
     sec' ∈ SECTIONS config ∧ ∃ m, extract_metadata fs p' sec' = Ok m) →
  fm !! doc = Some (sec, p) →
  extract_metadata fs p sec = Err e →
  resolution_pass config fs fm (before ++ doc :: after)
  = (copy_events config (resolved_documents fm before), Err e).
Proof.
  intros Hbefore Hdoc He. unfold resolution_pass. rewrite foldM_app.
  destruct (resolution_pass_resolved config fs fm before Hbefore)
    as (registry & counts & Hpass & _).
  unfold resolution_pass in Hpass. rewrite Hpass, bind_Ok.
  assert (Hstep : process_document config fs fm (registry, counts) doc
                  = ([], Err e)).
  { unfold process_document. by rewrite Hdoc, He. }
  cbn [foldM]. rewrite bind_eq, Hstep, bind_Err.
  cbn [fst snd]. by rewrite (right_id_L [] (++)).
Qed.

Lemma resolution_pass_first_failure_witness :
  ((∀ sec' p',
      (sec', p') ∈ resolved_documents example_file_map [lit "AboutSwift"] →
      sec' ∈ SECTIONS (example_config false)
      ∧ ∃ m, extract_metadata example_fs_untitled p' sec' = Ok m)
   ∧ example_file_map !! lit "TheBasics"
     = Some (lit "LanguageGuide",
             example_tspl ++ [lit "LanguageGuide"; lit "TheBasics.md"])
   ∧ extract_metadata example_fs_untitled
       (example_tspl ++ [lit "LanguageGuide"; lit "TheBasics.md"])
       (lit "LanguageGuide")
     = Err (UnboundLocalError (lit "description")))
  ∧ resolution_pass (example_config false) example_fs_untitled example_file_map
      ([lit "AboutSwift"] ++ lit "TheBasics" :: [lit "LexicalStructure"])
    = (copy_events (example_config false)
         (resolved_documents example_file_map [lit "AboutSwift"]),
       Err (UnboundLocalError (lit "description"))).
Proof.
  assert (H1 : ∀ sec' p',
      (sec', p') ∈ resolved_documents example_file_map [lit "AboutSwift"] →
      sec' ∈ SECTIONS (example_config false)
      ∧ ∃ m, extract_metadata example_fs_untitled p' sec' = Ok m).
  { intros sec' p' Hin.
    for_each_element Hin ltac:(split; [by_evaluation|eexists; vm_compute; reflexivity]). }
  assert (H2 : example_file_map !! lit "TheBasics"
     = Some (lit "LanguageGuide",
             example_tspl ++ [lit "LanguageGuide"; lit "TheBasics.md"]))
    by (vm_compute; reflexivity).
  assert (H3 : extract_metadata example_fs_untitled
       (example_tspl ++ [lit "LanguageGuide"; lit "TheBasics.md"])
       (lit "LanguageGuide")
     = Err (UnboundLocalError (lit "description")))
    by (vm_compute; reflexivity).
  split; [by split_and!|].
  exact (resolution_pass_first_failure (example_config false)
           example_fs_untitled example_file_map _ _ _ _ _ _ H1 H2 H3).
Defined.

(** ** The dry run and the real run *)

Lemma bind_result {A B} (m : IO A) (k : A → IO B) :
  (bind m k).2 = match m.2 with Ok a => (k a).2 | Err e => Err e end.
Proof. destruct m as [t [a|e]]; [|done]. by rewrite bind_Ok. Qed.

(** The pass has the same outcome in both modes, and logs nothing. *)
Lemma process_documents_modes (config : Configuration) (fs : FileSystem)
    (fm : gmap str (str * Path)) doc_order : ∀ st,
  (foldM (process_document (with_dry_run true config) fs fm) st doc_order).2
  = (foldM (process_document (with_dry_run false config) fs fm) st doc_order).2
  ∧ (foldM (process_document (with_dry_run true config) fs fm) st doc_order).1
    = []
  ∧ filter is_log
      (foldM (process_document (with_dry_run false config) fs fm) st doc_order).1
    = [].
Proof.
  induction doc_order as [|doc doc_order IH]; intros st; [done|].
  cbn [foldM]. rewrite !bind_eq.
  assert (Hstep : ∃ r,
    process_document (with_dry_run true config) fs fm st doc = ([], r)
    ∧ ∃ t, process_document (with_dry_run false config) fs fm st doc = (t, r)
           ∧ filter is_log t = []).
  { unfold process_document. destruct (fm !! doc) as [[sec p]|].
    2:{ exists (Ok st). split; [done|]. by exists []. }
    unfold lift, when, emit, ret. cbv [mbind IO_bind mret IO_ret].
    destruct (extract_metadata fs p sec) as [m|e].
    2:{ exists (Err e). split; [done|]. by exists []. }
    rewrite !bind_ret_l.
    destruct (odict_get sec st.2) as [c|].
    2:{ exists (Err (KeyError sec)). split; [done|]. by exists []. }
    rewrite !bind_ret_l. cbn [dry_run with_dry_run negb output_path].
    repeat (rewrite bind_Ok; cbn beta iota; cbn [fst snd]).
    eexists. split; [done|]. eexists. split; [done|]. done. }
  destruct Hstep as (r & -> & t & -> & Ht).
  destruct r as [st1|e]; [|done].
  rewrite !bind_Ok. cbn [fst snd].
  destruct (IH st1) as (-> & -> & Hlog).
  by rewrite filter_app, Ht, Hlog.
Qed.

(** The scan and the pass in the two modes. *)
Lemma process_files_dry_and_real (config : Configuration) (fs : FileSystem)
    (repo_path : Path) (order : list str) :
  (process_files (with_dry_run true config) fs repo_path order).2
  = (process_files (with_dry_run false config) fs repo_path order).2
  ∧ (process_files (with_dry_run true config) fs repo_path order).1
    = filter is_log
        (process_files (with_dry_run false config) fs repo_path order).1.
Proof.
  unfold process_files.
  change (build_file_map (with_dry_run true config) fs repo_path)
    with (build_file_map config fs repo_path).
  change (build_file_map (with_dry_run false config) fs repo_path)
    with (build_file_map config fs repo_path).
  rewrite !bind_eq, (build_file_map_eq config fs repo_path), !bind_Ok.
  cbn [fst snd]. rewrite !bind_eq. unfold resolution_pass.
  change (initial_counts (with_dry_run true config))
    with (initial_counts config).
  change (initial_counts (with_dry_run false config))
    with (initial_counts config).
  destruct (process_documents_modes config fs
              (list_to_map (reverse (scan_entries fs repo_path (SECTIONS config))))
              order ([], initial_counts config)) as (Hres & Hdry & Hreal).
  destruct (foldM (process_document (with_dry_run true config) fs _) _ order)
    as [t1 r1].
  destruct (foldM (process_document (with_dry_run false config) fs _) _ order)
    as [t2 r2].
  cbn [fst snd] in *. subst t1 r1.
  assert (Hwarn : filter is_log (missing_warnings fs repo_path (SECTIONS config))
                  = missing_warnings fs repo_path (SECTIONS config)).
  { unfold missing_warnings.
    induction (filter _ (SECTIONS config)) as [|s l IH]; [done|].
    rewrite fmap_cons, filter_cons_True by done. by rewrite IH. }
  destruct r2 as [st|e].
  2:{ rewrite !bind_Err. cbn [fst snd].
      by rewrite filter_app, Hwarn, Hreal. }
  rewrite !bind_Ok. cbn [fst snd output_path with_dry_run].
  destruct (missing_sections st.2).
  - unfold log_info, emit. rewrite !bind_eq, !bind_Ok, mret_eq.
    cbn [fst snd]. split; [done|].
    rewrite !filter_app, Hwarn, Hreal. cbn [app].
    by rewrite filter_cons_True by done.
  - unfold raise. cbn [fst snd]. split; [done|].
    by rewrite !filter_app, Hwarn, Hreal.
Qed.

(** X13: [_process_files] has the same outcome in a dry run and in a real
    run (the same registry, or the same error), and logs the same records;
    the two differ only in the directories made and the files copied. *)
Theorem process_files_modes (config : Configuration) (fs : FileSystem)
    (repo_path : Path) (order : list str) :
  (process_files (with_dry_run true config) fs repo_path order).2
  = (process_files (with_dry_run false config) fs repo_path order).2
  ∧ (process_files (with_dry_run true config) fs repo_path order).1
    = filter is_log
        (process_files (with_dry_run false config) fs repo_path order).1.
Proof. exact (process_files_dry_and_real config fs repo_path order). Qed.

(** X14: a dry run is a sound rehearsal of the failures: whenever the dry
    run of a configuration raises an error, the real run over the same
    tree raises an error too and does not complete.  (The converse fails:
    the license file is looked for in a real run only.) *)
Theorem dry_run_failure_is_real (config : Configuration) (fs : FileSystem)
    (repo_path : Path) (gh_output : option str) (e : PyError) :
  (build (with_dry_run true config) fs repo_path gh_output).2 = Err e →
  ∃ e', (build (with_dry_run false config) fs repo_path gh_output).2 = Err e'.
Proof.
  intros Hdry. exists e. revert Hdry.
  assert (Hlog : ∀ v, (when (truthy v)
                    (log_info (lit "Found Swift version: " ++ default [] v))).2
                 = Ok tt) by (intros v; by destruct (truthy v)).
  assert (Hgh : ∀ v, (match gh_output with
                 | Some ((_ :: _) as file) =>
                     emit (AppendText file
                             (lit "swift_version="
                              ++ (if truthy v then default [] v else lit "Unknown")
                              ++ [10]))
                 | _ => ret tt
                 end).2 = Ok tt)
    by (intros v; by destruct gh_output as [[|c file]|]).
  assert (Hprep : (when true (prepare_directory (with_dry_run false config) fs)).2
                  = Ok tt).
  { unfold when, prepare_directory, emit, ret. cbv [mbind IO_bind].
    rewrite bind_result. by destruct (fs_exists fs _). }
  unfold build. cbv [mbind IO_bind mret IO_ret].
  cbn [TOC_REL_PATH with_dry_run dry_run negb].
  rewrite !bind_result.
  destruct (get_version fs repo_path (TOC_REL_PATH config)) as [tv [v|ev]];
    cbn [snd]; [|done].
  repeat first [rewrite bind_result | rewrite Hlog | rewrite Hgh].
  destruct (parse_toc_order fs repo_path (TOC_REL_PATH config))
    as [tp [order|ep]]; cbn [snd]; [|done].
  repeat first [rewrite bind_result | rewrite Hprep | progress cbn [snd when ret]].
  destruct (process_files_dry_and_real config fs repo_path order) as [-> _].
  destruct (process_files (with_dry_run false config) fs repo_path order).2
    as [registry|ef]; [|done].
  by repeat first [rewrite bind_result | progress cbn [snd when ret]].
Qed.

Lemma dry_run_failure_is_real_witness :
  (build (with_dry_run true (example_config true)) example_fs_untitled
     example_repo None).2 = Err (UnboundLocalError (lit "description"))
  ∧ ∃ e', (build (with_dry_run false (example_config true)) example_fs_untitled
             example_repo None).2 = Err e'.
Proof.
  assert (H : (build (with_dry_run true (example_config true))
                 example_fs_untitled example_repo None).2
              = Err (UnboundLocalError (lit "description")))
    by (vm_compute; reflexivity).
  split; [exact H|].
  exact (dry_run_failure_is_real (example_config true) example_fs_untitled
           example_repo None _ H).
Defined.


(** ** The license and the outputs *)

Section Outputs.

Variable config : Configuration.
Variable fs : FileSystem.
Variable repo_path : Path.

Lemma copy_license_from_missing names :
  Forall (fun name => fs_exists fs (joinpath repo_path name) = false) names →
  copy_license_from config fs repo_path names = ([], Err NO_LICENSE).
Proof.
  induction 1 as [|name names Hname _ IH]; cbn [copy_license_from]; [done|].
  by rewrite Hname.
Qed.

Lemma copy_license_from_first before name after :
  Forall (fun n => fs_exists fs (joinpath repo_path n) = false) before →
  fs_exists fs (joinpath repo_path name) = true →
  copy_license_from config fs repo_path (before ++ name :: after)
  = ([Copy2 (joinpath repo_path name) (joinpath (output_path config) name);
      LogInfo (lit "Included license: " ++ name)],
     Ok tt).
Proof.
  intros Hbefore Hname.
  induction Hbefore as [|n before Hn _ IH]; cbn [app copy_license_from].
  - by rewrite Hname.
  - by rewrite Hn.
Qed.

End Outputs.

(** X15: [_copy_license] copies one file, the first of [LICENSE.md],
    [LICENSE] and [LICENSE.txt] that exists in the root of the clone, to
    the same name in the output directory. *)
Theorem copy_license_first_existing (config : Configuration) (fs : FileSystem)
    (repo_path : Path) (before : list str) (name : str) (after : list str) :
  LICENSE_NAMES = before ++ name :: after →
  Forall (fun n => fs_exists fs (joinpath repo_path n) = false) before →
  fs_exists fs (joinpath repo_path name) = true →
  copy_license config fs repo_path
  = ([Copy2 (joinpath repo_path name) (joinpath (output_path config) name);
      LogInfo (lit "Included license: " ++ name)],
     Ok tt).
Proof.
  intros Hnames Hbefore Hname. unfold copy_license.
  change [lit "LICENSE.md"; lit "LICENSE"; lit "LICENSE.txt"] with LICENSE_NAMES.
  rewrite Hnames. by apply copy_license_from_first.
Qed.

Lemma copy_license_first_existing_witness :
  (LICENSE_NAMES = [lit "LICENSE.md"; lit "LICENSE"] ++ lit "LICENSE.txt" :: []
   ∧ Forall (fun n => fs_exists example_fs (joinpath example_repo n) = false)
            [lit "LICENSE.md"; lit "LICENSE"]
   ∧ fs_exists example_fs (joinpath example_repo (lit "LICENSE.txt")) = true)
  ∧ copy_license (example_config false) example_fs example_repo
    = ([Copy2 (joinpath example_repo (lit "LICENSE.txt"))
          (joinpath (output_path (example_config false)) (lit "LICENSE.txt"));
        LogInfo (lit "Included license: " ++ lit "LICENSE.txt")],
       Ok tt).
Proof.
  assert (H1 : LICENSE_NAMES
               = [lit "LICENSE.md"; lit "LICENSE"] ++ lit "LICENSE.txt" :: [])
    by reflexivity.
  assert (H2 : Forall (fun n => fs_exists example_fs (joinpath example_repo n)
                                = false)
                 [lit "LICENSE.md"; lit "LICENSE"])
    by (repeat constructor).
  assert (H3 : fs_exists example_fs (joinpath example_repo (lit "LICENSE.txt"))
               = true) by reflexivity.
  split; [by split_and!|].
  exact (copy_license_first_existing (example_config false) example_fs
           example_repo _ _ _ H1 H2 H3).
Defined.

(** X16: in a real run, a missing license file is found out only after
    the output directory has been prepared and the documents copied: the
    run then fails with [FileNotFoundError], and writes neither the index
    nor the archive. *)
Theorem build_missing_license (config : Configuration) (fs : FileSystem)
    (repo_path : Path) (gh_output : option str) (content : str)
    (tp : list Event) (registry : list DocumentMetadata) :
  dry_run config = false →
  fs_exists fs (joinpath repo_path (TOC_REL_PATH config)) = true →
  fs_read_text fs (joinpath repo_path (TOC_REL_PATH config)) = Ok content →
  process_files config fs repo_path (parse_toc_order_text content)
  = (tp, Ok registry) →
  Forall (fun name => fs_exists fs (joinpath repo_path name) = false)
         LICENSE_NAMES →
  build config fs repo_path gh_output
  = (prelude_events config fs gh_output (get_version_text content) ++ tp,
     Err NO_LICENSE)
  ∧ Forall (fun ev => match ev with
                      | WriteText _ _ | MakeArchive _ _ _ => False
                      | _ => True
                      end)
           (prelude_events config fs gh_output (get_version_text content) ++ tp).
Proof.
  intros Hdry Hex Hread Hprocess Hnone. split.
  - rewrite (build_eq _ _ _ _ content) by done.
    rewrite Hprocess, bind_Ok, bind_Ok. unfold finish. rewrite Hdry.
    cbn [negb when]. unfold copy_license.
    change [lit "LICENSE.md"; lit "LICENSE"; lit "LICENSE.txt"]
      with LICENSE_NAMES.
    rewrite (copy_license_from_missing config fs repo_path _ Hnone).
    cbv [mbind IO_bind]. rewrite bind_Err. cbn [fst snd].
    by rewrite (right_id_L [] (++)).
  - apply Forall_app. split.
    + unfold prelude_events.
      destruct (truthy _), gh_output as [[|c file]|], (dry_run config),
        (fs_exists fs (output_path config)); by repeat constructor.
    + assert (Htp : tp = (process_files config fs repo_path
                            (parse_toc_order_text content)).1)
        by (by rewrite Hprocess).
      rewrite Htp. unfold process_files. cbv [mbind IO_bind mret IO_ret].
      apply bind_events; [|intros fm; apply bind_events; [|intros st]].
      * rewrite build_file_map_eq. unfold missing_warnings.
        apply Forall_fmap, Forall_forall. by intros s _.
      * unfold resolution_pass. apply foldM_events. intros [reg counts] doc.
        unfold process_document.
        destruct (fm !! doc) as [[sec p]|]; [|by constructor].
        cbv [mbind IO_bind mret IO_ret]. unfold lift.
        destruct (extract_metadata fs p sec) as [m|e]; [|by constructor].
        rewrite bind_ret_l. cbn [fst snd].
        destruct (odict_get sec counts) as [c|]; [|by constructor].
        rewrite bind_ret_l. unfold when, emit, ret.
        destruct (dry_run config); cbn [negb];
          repeat (rewrite bind_Ok; cbn beta iota; cbn [fst snd]);
          by repeat constructor.
      * destruct (missing_sections st.2); by repeat constructor.
Qed.

Lemma build_missing_license_witness :
  (dry_run (example_config false) = false
   ∧ fs_exists example_fs_unlicensed
       (joinpath example_repo (TOC_REL_PATH (example_config false))) = true
   ∧ fs_read_text example_fs_unlicensed
       (joinpath example_repo (TOC_REL_PATH (example_config false)))
     = Ok example_toc
   ∧ process_files (example_config false) example_fs_unlicensed example_repo
       (parse_toc_order_text example_toc)
     = ((example_process example_fs_unlicensed).1,
        Ok (example_process example_fs_unlicensed).2)
   ∧ Forall (fun name => fs_exists example_fs_unlicensed
                           (joinpath example_repo name) = false)
            LICENSE_NAMES)
  ∧ (build (example_config false) example_fs_unlicensed example_repo None).2
    = Err NO_LICENSE.
Proof.
  assert (H1 : dry_run (example_config false) = false) by reflexivity.
  assert (H2 : fs_exists example_fs_unlicensed
                 (joinpath example_repo (TOC_REL_PATH (example_config false)))
               = true) by (vm_compute; reflexivity).
  assert (H3 : fs_read_text example_fs_unlicensed
                 (joinpath example_repo (TOC_REL_PATH (example_config false)))
               = Ok example_toc) by (vm_compute; reflexivity).
  assert (H4 : process_files (example_config false) example_fs_unlicensed
                 example_repo (parse_toc_order_text example_toc)
               = ((example_process example_fs_unlicensed).1,
                  Ok (example_process example_fs_unlicensed).2))
    by (vm_compute; reflexivity).
  assert (H5 : Forall (fun name => fs_exists example_fs_unlicensed
                                     (joinpath example_repo name) = false)
                 LICENSE_NAMES) by (repeat constructor).
  split; [by split_and!|].
  destruct (build_missing_license (example_config false) example_fs_unlicensed
              example_repo None example_toc _ _ H1 H2 H3 H4 H5) as [-> _].
  reflexivity.
Defined.

(** X17: a real run that passes validation and finds a license performs
    its writes in one order: the output directory is prepared, the
    documents are copied, then the license, then [SKILL.md] is written
    once from the registry, and the archive is made last, of a directory
    that is complete. *)
Theorem build_real_run_trace (config : Configuration) (fs : FileSystem)
    (repo_path : Path) (gh_output : option str) (content : str)
    (tp tl : list Event) (registry : list DocumentMetadata) :
  dry_run config = false →
  fs_exists fs (joinpath repo_path (TOC_REL_PATH config)) = true →
  fs_read_text fs (joinpath repo_path (TOC_REL_PATH config)) = Ok content →
  process_files config fs repo_path (parse_toc_order_text content)
  = (tp, Ok registry) →
  copy_license config fs repo_path = (tl, Ok tt) →
  build config fs repo_path gh_output
  = (prelude_events config fs gh_output (get_version_text content)
     ++ tp ++ tl
     ++ [WriteText (joinpath (output_path config) (lit "SKILL.md"))
           (skill_md_text config registry (get_version_text content));
         MakeArchive (path_str (output_path config))
           (path_parent (output_path config)) (path_name (output_path config));
         LogInfo (lit "Archive created: "
                  ++ path_str (with_suffix (output_path config) (lit ".zip")));
         LogInfo (lit "Packaging complete")],
     Ok tt).
Proof.
  intros Hdry Hex Hread Hprocess Hlicense.
  rewrite (build_eq _ _ _ _ content) by done.
  rewrite Hprocess, bind_Ok, bind_Ok. unfold finish. rewrite Hdry.
  cbn [negb when]. rewrite Hlicense.
  unfold generate_skill_md, create_zip_archive, log_info, emit.
  cbv [mbind IO_bind].
  repeat (rewrite bind_Ok; cbn beta iota; cbn [fst snd]).
  by rewrite <- !(assoc_L (++)).
Qed.

Lemma build_real_run_trace_witness :
  (dry_run (example_config false) = false
   ∧ fs_exists example_fs
       (joinpath example_repo (TOC_REL_PATH (example_config false))) = true
   ∧ fs_read_text example_fs
       (joinpath example_repo (TOC_REL_PATH (example_config false)))
     = Ok example_toc
   ∧ process_files (example_config false) example_fs example_repo
       (parse_toc_order_text example_toc)
     = ((example_process example_fs).1, Ok (example_process example_fs).2)
   ∧ copy_license (example_config false) example_fs example_repo
     = ((copy_license (example_config false) example_fs example_repo).1, Ok tt))
  ∧ (build (example_config false) example_fs example_repo None).2 = Ok tt.
Proof.
  assert (H1 : dry_run (example_config false) = false) by reflexivity.
  assert (H2 : fs_exists example_fs
                 (joinpath example_repo (TOC_REL_PATH (example_config false)))
               = true) by (vm_compute; reflexivity).
  assert (H3 : fs_read_text example_fs
                 (joinpath example_repo (TOC_REL_PATH (example_config false)))
               = Ok example_toc) by (vm_compute; reflexivity).
  assert (H4 : process_files (example_config false) example_fs example_repo
                 (parse_toc_order_text example_toc)
               = ((example_process example_fs).1,
                  Ok (example_process example_fs).2))
    by (vm_compute; reflexivity).
  assert (H5 : copy_license (example_config false) example_fs example_repo
               = ((copy_license (example_config false) example_fs
                     example_repo).1, Ok tt))
    by (vm_compute; reflexivity).
  split; [by split_and!|].
  by rewrite (build_real_run_trace (example_config false) example_fs
                example_repo None example_toc _ _ _ H1 H2 H3 H4 H5).
Defined.

(** X18: a dry run never looks for the license: once validation has
    passed it succeeds, on a clone with or without a license file, and
    after the log records of the scan it only reports the completion. *)
Theorem build_dry_run_ignores_license (config : Configuration)
    (fs : FileSystem) (repo_path : Path) (gh_output : option str)
    (content : str) (tp : list Event) (registry : list DocumentMetadata) :
  dry_run config = true →
  fs_exists fs (joinpath repo_path (TOC_REL_PATH config)) = true →
  fs_read_text fs (joinpath repo_path (TOC_REL_PATH config)) = Ok content →
  process_files config fs repo_path (parse_toc_order_text content)
  = (tp, Ok registry) →
  build config fs repo_path gh_output
  = (prelude_events config fs gh_output (get_version_text content)
     ++ tp ++ [LogInfo (lit "Packaging complete")],
     Ok tt).
Proof.
  intros Hdry Hex Hread Hprocess.
  rewrite (build_eq _ _ _ _ content) by done.
  rewrite Hprocess, bind_Ok, bind_Ok. unfold finish. rewrite Hdry.
  cbn [negb when]. unfold log_info, emit, ret. cbv [mbind IO_bind].
  by repeat (rewrite bind_Ok; cbn beta iota; cbn [fst snd]).
Qed.

Lemma build_dry_run_ignores_license_witness :
  (dry_run (example_config true) = true
   ∧ fs_exists example_fs_unlicensed
       (joinpath example_repo (TOC_REL_PATH (example_config true))) = true
   ∧ fs_read_text example_fs_unlicensed
       (joinpath example_repo (TOC_REL_PATH (example_config true)))
     = Ok example_toc
   ∧ process_files (example_config true) example_fs_unlicensed example_repo
       (parse_toc_order_text example_toc)
     = ((process_files (example_config true) example_fs_unlicensed
           example_repo example_order).1,
        Ok (example_process example_fs_unlicensed).2))
  ∧ (build (example_config true) example_fs_unlicensed example_repo None).2
    = Ok tt.
Proof.
  assert (H1 : dry_run (example_config true) = true) by reflexivity.
  assert (H2 : fs_exists example_fs_unlicensed
                 (joinpath example_repo (TOC_REL_PATH (example_config true)))
               = true) by (vm_compute; reflexivity).
  assert (H3 : fs_read_text example_fs_unlicensed
                 (joinpath example_repo (TOC_REL_PATH (example_config true)))
               = Ok example_toc) by (vm_compute; reflexivity).
  assert (H4 : process_files (example_config true) example_fs_unlicensed
                 example_repo (parse_toc_order_text example_toc)
               = ((process_files (example_config true) example_fs_unlicensed
                     example_repo example_order).1,
                  Ok (example_process example_fs_unlicensed).2))
    by (vm_compute; reflexivity).
  split; [by split_and!|].
  by rewrite (build_dry_run_ignores_license (example_config true)
                example_fs_unlicensed example_repo None example_toc _ _
                H1 H2 H3 H4).
Defined.

(** ** The index *)

Lemma section_block_ext (registry registry' : list DocumentMetadata) (s : str) :
  filter (fun doc => section doc = s) registry
  = filter (fun doc => section doc = s) registry' →
  section_block registry s = section_block registry' s.
Proof. unfold section_block. by intros ->. Qed.

Lemma flat_map_ext_elem_of {A B : Type} (f g : A → list B) (l : list A) :
  (∀ x, x ∈ l → f x = g x) → flat_map f l = flat_map g l.
Proof.
  induction l as [|x l IH]; intros Hfg; [done|].
  cbn [flat_map]. rewrite Hfg by apply list_elem_of_here.
  rewrite IH; [done|]. intros y Hy. by apply Hfg, list_elem_of_further.
Qed.

Lemma elem_of_flat_map_2 {A B : Type} (f : A → list B) (l : list A) x y :
  x ∈ l → y ∈ f x → y ∈ flat_map f l.
Proof.
  induction 1 as [x l|x x' l _ IH]; intros Hy; cbn [flat_map];
    apply elem_of_app; [by left|right; by apply IH].
Qed.

(** X19: the description of an entry of the index holds neither ['[']
    nor [']'], so it cannot open or close a Markdown link; it has the
    length of the description of the document, and a description
    without brackets is rendered as it is. *)
Theorem safe_desc_no_brackets (description : str) :
  (91 ∉ safe_desc description)
  ∧ (93 ∉ safe_desc description)
  ∧ length (safe_desc description) = length description
  ∧ (91 ∉ description → 93 ∉ description → safe_desc description = description).
Proof.
  rewrite safe_desc_sanitize. split_and!.
  - intros (c & Hc & _)%(list_elem_of_fmap_1 sanitize_char). revert Hc.
    unfold sanitize_char.
    destruct (N.eqb_spec c 91); [done|]. by destruct (N.eqb_spec c 93).
  - intros (c & Hc & _)%(list_elem_of_fmap_1 sanitize_char). revert Hc.
    unfold sanitize_char.
    destruct (N.eqb_spec c 91); [done|]. by destruct (N.eqb_spec c 93).
  - apply length_map.
  - induction description as [|c d IH]; intros H91 H93; [done|].
    apply not_elem_of_cons in H91 as [Hc91 H91].
    apply not_elem_of_cons in H93 as [Hc93 H93].
    cbn [map]. rewrite IH by done. unfold sanitize_char.
    destruct (N.eqb_spec c 91); [congruence|].
    by destruct (N.eqb_spec c 93); [congruence|].
Qed.

(** X20: [_generate_skill_md] drops the documents of the registry whose
    section is not one of the configured sections: the index of a
    registry is the index of its documents of configured sections. *)
Theorem skill_md_lines_configured_only (config : Configuration)
    (registry : list DocumentMetadata) (version : option str) :
  skill_md_lines config registry version
  = skill_md_lines config
      (filter (fun doc => section doc ∈ SECTIONS config) registry) version.
Proof.
  rewrite !skill_md_lines_eq. do 2 f_equal.
  apply flat_map_ext_elem_of. intros s Hs. apply section_block_ext.
  induction registry as [|doc registry IH]; [done|].
  rewrite (filter_cons (fun doc => section doc ∈ SECTIONS config)).
  rewrite (filter_cons (fun doc => section doc = s)).
  destruct (decide (section doc = s)) as [Heq|Hne].
  - rewrite decide_True by (by rewrite Heq).
    rewrite (filter_cons (fun doc => section doc = s)).
    rewrite decide_True by done. by rewrite IH.
  - destruct (decide (section doc ∈ SECTIONS config)); [|done].
    rewrite (filter_cons (fun doc => section doc = s)).
    by rewrite decide_False.
Qed.

(** X21: every document of the registry that belongs to a configured
    section has its entry in the index, under the heading of its
    section. *)
Theorem registered_document_is_listed (config : Configuration)
    (registry : list DocumentMetadata) (version : option str)
    (doc : DocumentMetadata) :
  doc ∈ registry →
  section doc ∈ SECTIONS config →
  index_entry doc ∈ skill_md_lines config registry version
  ∧ (lit "### " ++ default (section doc) (section_titles !! section doc))
    ∈ skill_md_lines config registry version.
Proof.
  intros Hdoc Hsection. rewrite skill_md_lines_eq.
  assert (Hin : doc ∈ filter (fun d => section d = section doc) registry)
    by (by apply list_elem_of_filter).
  assert (Hblock : section_block registry (section doc)
                   = [lit "### " ++ default (section doc)
                                      (section_titles !! section doc); []]
                     ++ map entry_of
                          (filter (fun d => section d = section doc) registry)
                     ++ [[]]).
  { unfold section_block.
    destruct (filter (fun d => section d = section doc) registry); [|done].
    by apply elem_of_nil in Hin. }
  split; apply elem_of_app; right; apply elem_of_app; left;
    apply (elem_of_flat_map_2 _ _ (section doc)); try done; rewrite Hblock.
  - apply elem_of_app. right. apply elem_of_app. left.
    rewrite index_entry_eq. by apply (list_elem_of_fmap_2 entry_of).
  - apply list_elem_of_here.
Qed.

Lemma registered_document_is_listed_witness :
  (∀ doc, doc ∈ example_registry →
     section doc ∈ SECTIONS (example_config false))
  ∧ ∀ doc, doc ∈ example_registry →
      index_entry doc ∈ skill_md_lines (example_config false) example_registry
                          (Some (lit "6.0")).
Proof.
  assert (H : ∀ doc, doc ∈ example_registry →
                section doc ∈ SECTIONS (example_config false)).
  { intros doc Hdoc. for_each_element Hdoc ltac:(by_evaluation). }
  split; [exact H|]. intros doc Hdoc.
  exact (proj1 (registered_document_is_listed (example_config false)
                  example_registry (Some (lit "6.0")) doc Hdoc (H doc Hdoc))).
Defined.

(** ** The archive *)

Lemma join_snoc (sep : str) (parts : list str) (p : str) :
  join sep (parts ++ [p])
  = match parts with [] => p | _ => join sep parts ++ sep ++ p end.
Proof.
  induction parts as [|q parts IH]; [done|].
  cbn [app join]. rewrite IH.
  destruct parts as [|r parts]; [done|].
  cbn [app]. by rewrite <- !(assoc_L (++)).
Qed.

(** X22: [shutil.make_archive] names the archive by the base name it is
    given followed by [.zip]; the path that [_create_zip_archive] logs as
    created is that name exactly when the name of the output directory
    has no suffix.  For an output directory [swift-6.0] the archive is
    [swift-6.0.zip] and the log says [swift-6.zip]. *)
Theorem create_zip_archive_logged_path (config : Configuration) :
  output_path config ≠ [] →
  (create_zip_archive config).1
  = [MakeArchive (path_str (output_path config))
       (path_parent (output_path config)) (path_name (output_path config));
     LogInfo (lit "Archive created: "
              ++ path_str (output_path config) ++ lit ".zip")]
  ↔ path_stem (output_path config) = path_name (output_path config).
Proof.
  intros Hout. unfold create_zip_archive, log_info, emit.
  cbv [mbind IO_bind]. rewrite bind_Ok. cbn [fst snd app].
  assert (Heq : path_str (with_suffix (output_path config) (lit ".zip"))
                = path_str (output_path config) ++ lit ".zip"
                ↔ path_stem (output_path config)
                  = path_name (output_path config)).
  { unfold with_suffix, path_str, path_stem.
    generalize (name_stem (path_name (output_path config))) as stem.
    intros stem.
    rewrite (app_removelast_last [] Hout) at 2.
    fold (path_name (output_path config)).
    fold (path_parent (output_path config)).
    generalize (path_name (output_path config)) as name.
    generalize (path_parent (output_path config)) as parent.
    intros parent name. rewrite !join_snoc.
    destruct parent as [|q parent].
    - split; [by intros ?%(inj (.++ lit ".zip"))|by intros ->].
    - rewrite <- !(assoc_L (++)).
      split; [|by intros ->].
      by intros ?%(inj (_ ++.))%(inj (_ ++.))%(inj (.++ lit ".zip")). }
  rewrite <- Heq. split.
  - by intros [= H].
  - by intros ->.
Qed.

Lemma create_zip_archive_logged_path_witness :
  output_path example_config_dotted ≠ []
  ∧ path_stem (output_path example_config_dotted)
    ≠ path_name (output_path example_config_dotted)
  ∧ (create_zip_archive example_config_dotted).1
    = [MakeArchive (lit "out/swift-6.0") [lit "out"] (lit "swift-6.0");
       LogInfo (lit "Archive created: out/swift-6.zip")].
Proof.
  assert (H : output_path example_config_dotted ≠ []) by done.
  split; [exact H|]. split; [|reflexivity].
  intros Hstem.
  apply (proj2 (create_zip_archive_logged_path example_config_dotted H))
    in Hstem.
  vm_compute in Hstem. discriminate Hstem.
Defined.

(** ** The clone, the clean-up and the exit status *)

Lemma cleanup_not_fatal (config : Configuration) (w : World) (d : str) :
  Forall (fun ev => is_fatal ev = false) (cleanup config w d).
Proof.
  unfold cleanup.
  destruct (keep_temp config), (negb (is_empty_list d) && w_temp_exists w)%bool,
    (w_rmtree w); by repeat constructor.
Qed.

Lemma run_not_fatal (t : list Event) :
  Forall (fun ev => is_fatal ev = false) (Run <$> t).
Proof. apply Forall_fmap, Forall_forall. by intros ev _. Qed.

Lemma run_not_remove_temp (t : list Event) :
  Forall (fun ev => is_remove_temp ev = false) (Run <$> t).
Proof. apply Forall_fmap, Forall_forall. by intros ev _. Qed.

Lemma cleanup_remove_temp (config : Configuration) (w : World) (d d' : str) :
  RemoveTemp d' ∈ cleanup config w d
  ↔ d' = d ∧ keep_temp config = false ∧ d ≠ [] ∧ w_temp_exists w = true.
Proof.
  unfold cleanup. destruct (keep_temp config).
  - rewrite list_elem_of_singleton. split; [done|by intros (_ & ? & _)].
  - destruct d as [|c d]; cbn [is_empty_list negb andb].
    + rewrite elem_of_nil. split; [done|by intros (_ & _ & ? & _)].
    + destruct (w_temp_exists w).
      * destruct (w_rmtree w) as [e|];
          rewrite ?elem_of_cons, ?elem_of_nil;
          (split; [intros [[= ->]|H]; [done|]|intros (-> & _); by left]).
        -- by destruct H.
        -- done.
      * rewrite elem_of_nil. split; [done|by intros (_ & _ & _ & ?)].
Qed.

Lemma cleanup_keep_temp (config : Configuration) (w : World) (d : str) :
  keep_temp config = true →
  cleanup config w d = [Run (LogInfo (lit "Temp directory retained: " ++ d))].
Proof. unfold cleanup. by intros ->. Qed.

Lemma cleanup_removes (config : Configuration) (w : World) (d : str) :
  keep_temp config = false → d ≠ [] → w_temp_exists w = true →
  ∃ t2, cleanup config w d = RemoveTemp d :: t2
        ∧ Forall (fun ev => match ev with
                            | Run (LogWarning _) | LogFatal _ => True
                            | _ => False
                            end) t2.
Proof.
  intros Hkeep Hd Hex. unfold cleanup. rewrite Hkeep, Hex.
  destruct d as [|c d]; [done|]. cbn [is_empty_list negb andb].
  destruct (w_rmtree w) as [e|]; eexists; (split; [done|]);
    by repeat constructor.
Qed.

(** X23: [main] ends with status 0 exactly when the temporary directory
    is made, the clone succeeds and [build] returns; in every other case
    it ends with status 1 and the last record of the run, and no other,
    is the fatal error.  A run that ends with status 0 logs no fatal
    error. *)
Theorem main_exit_status (config : Configuration) (w : World) :
  ((∃ temp_dir, w_mkdtemp w = Some temp_dir ∧ w_git_clone w = Cloned
      ∧ (build config (w_tree w) (repo_of temp_dir) (w_github_output w)).2
        = Ok tt)
   ∧ (main config w).2 = 0%nat
   ∧ Forall (fun ev => is_fatal ev = false) (main config w).1)
  ∨ (¬ (∃ temp_dir, w_mkdtemp w = Some temp_dir ∧ w_git_clone w = Cloned
          ∧ (build config (w_tree w) (repo_of temp_dir) (w_github_output w)).2
            = Ok tt)
     ∧ (main config w).2 = 1%nat
     ∧ ∃ t e, (main config w).1 = t ++ [LogFatal e]
              ∧ Forall (fun ev => is_fatal ev = false) t).
Proof.
  unfold main, clone.
  destruct (w_mkdtemp w) as [d|].
  - destruct (w_git_clone w) as [|stderr| |].
    + destruct (build config (w_tree w) (repo_of d) (w_github_output w))
        as [tb [[]|e]] eqn:Hbuild.
      * left. split_and!; [exists d; by rewrite Hbuild| done |]. cbn [fst].
        repeat first [apply Forall_app; split | apply Forall_cons; split
                     | apply Forall_nil | apply run_not_fatal
                     | apply cleanup_not_fatal | done].
      * right. split_and!; [| done |].
        -- intros (d' & [= <-] & _ & Hok). by rewrite Hbuild in Hok.
        -- eexists _, _. split; [done|].
           repeat first [apply Forall_app; split | apply Forall_cons; split
                        | apply Forall_nil | apply run_not_fatal
                        | apply cleanup_not_fatal | done].
    + right. split_and!; [by intros (? & _ & ? & _) | done |].
      eexists _, _. split; [done|].
      repeat first [apply Forall_app; split | apply Forall_cons; split
                   | apply Forall_nil | apply cleanup_not_fatal | done].
    + right. split_and!; [by intros (? & _ & ? & _) | done |].
      eexists _, _. split; [done|].
      repeat first [apply Forall_app; split | apply Forall_cons; split
                   | apply Forall_nil | apply cleanup_not_fatal | done].
    + right. split_and!; [by intros (? & _ & ? & _) | done |].
      eexists _, _. split; [done|]. by repeat constructor.
  - right. split_and!; [by intros (? & ? & _) | done |].
    exists [], MkdtempError. by split.
Qed.

(** X24: when the temporary directory is not kept, a run that makes it
    and whose [git clone] ends in one of the three handled ways removes
    it once; the generator does nothing after the removal, which only the
    warning of a failed removal and the fatal error can follow. *)
Theorem main_removes_temp_dir_once (config : Configuration) (w : World)
    (d : str) :
  keep_temp config = false →
  w_mkdtemp w = Some d →
  d ≠ [] →
  w_temp_exists w = true →
  w_git_clone w ≠ OtherException →
  ∃ t1 t2,
    (main config w).1 = t1 ++ RemoveTemp d :: t2
    ∧ Forall (fun ev => is_remove_temp ev = false) t1
    ∧ Forall (fun ev => match ev with
                        | Run (LogWarning _) | LogFatal _ => True
                        | _ => False
                        end) t2.
Proof.
  intros Hkeep Hmk Hd Hex Hclone.
  destruct (cleanup_removes config w d Hkeep Hd Hex) as (t2 & Hclean & Ht2).
  unfold main, clone. rewrite Hmk.
  set (started := [Mkdtemp d;
                   Run (LogInfo (lit "Cloning repository from "
                                 ++ REPO_URL config ++ lit "..."));
                   GitClone (REPO_URL config) (path_str (repo_of d))]).
  assert (Hstarted : Forall (fun ev => is_remove_temp ev = false) started)
    by (by repeat constructor).
  destruct (w_git_clone w) as [|stderr| |]; [| | |done].
  - set (cloned := started
                   ++ [Run (LogInfo (lit "Repository cloned successfully"))]).
    assert (Hcloned : Forall (fun ev => is_remove_temp ev = false) cloned)
      by (apply Forall_app; split; [done|by repeat constructor]).
    destruct (build config (w_tree w) (repo_of d) (w_github_output w))
      as [tb [[]|e]]; cbn [fst]; rewrite Hclean.
    + exists (cloned ++ (Run <$> tb)), t2. split_and!; [|  |done].
      * by rewrite (assoc_L (++)).
      * apply Forall_app. split; [done|apply run_not_remove_temp].
    + exists (cloned ++ (Run <$> tb)), (t2 ++ [LogFatal (BuildError e)]).
      split_and!.
      * by rewrite <- !(assoc_L (++)).
      * apply Forall_app. split; [done|apply run_not_remove_temp].
      * apply Forall_app. split; [done|by repeat constructor].
  - cbn [fst]. rewrite Hclean.
    exists (started ++ [LogError (lit "Git clone failed: " ++ strip stderr)]),
      (t2 ++ [LogFatal (CloneError (lit "Failed to clone repository: "
                                    ++ stderr))]).
    split_and!.
    + by rewrite <- !(assoc_L (++)).
    + apply Forall_app. split; [done|by repeat constructor].
    + apply Forall_app. split; [done|by repeat constructor].
  - cbn [fst]. rewrite Hclean.
    exists started,
      (t2 ++ [LogFatal (CloneError
                (lit "Git command not found. Please ensure git is installed."))]).
    split_and!.
    + by rewrite <- !(assoc_L (++)).
    + done.
    + apply Forall_app. split; [done|by repeat constructor].
Qed.

Lemma main_removes_temp_dir_once_witness :
  (keep_temp (example_config false) = false
   ∧ w_mkdtemp (example_world Cloned) = Some example_temp_dir
   ∧ example_temp_dir ≠ []
   ∧ w_temp_exists (example_world Cloned) = true
   ∧ w_git_clone (example_world Cloned) ≠ OtherException)
  ∧ (main (example_config false) (example_world Cloned)).2 = 0%nat
  ∧ ∃ t1 t2,
      (main (example_config false) (example_world Cloned)).1
      = t1 ++ RemoveTemp example_temp_dir :: t2
      ∧ Forall (fun ev => is_remove_temp ev = false) t1
      ∧ Forall (fun ev => match ev with
                          | Run (LogWarning _) | LogFatal _ => True
                          | _ => False
                          end) t2.
Proof.
  assert (H1 : keep_temp (example_config false) = false) by reflexivity.
  assert (H2 : w_mkdtemp (example_world Cloned) = Some example_temp_dir)
    by reflexivity.
  assert (H3 : example_temp_dir ≠ []) by done.
  assert (H4 : w_temp_exists (example_world Cloned) = true) by reflexivity.
  assert (H5 : w_git_clone (example_world Cloned) ≠ OtherException) by done.
  split; [by split_and!|]. split; [by vm_compute|].
  exact (main_removes_temp_dir_once (example_config false)
           (example_world Cloned) example_temp_dir H1 H2 H3 H4 H5).
Defined.

(** X25: with [--keep-temp] no run removes the temporary directory, and
    every run that makes it and whose [git clone] ends in one of the
    three handled ways reports the directory as retained, also when the
    clone failed and the directory holds no repository. *)
Theorem main_keep_temp (config : Configuration) (w : World) (d : str) :
  keep_temp config = true →
  w_mkdtemp w = Some d →
  w_git_clone w ≠ OtherException →
  Forall (fun ev => is_remove_temp ev = false) (main config w).1
  ∧ Run (LogInfo (lit "Temp directory retained: " ++ d)) ∈ (main config w).1.
Proof.
  intros Hkeep Hmk Hclone. unfold main, clone. rewrite Hmk.
  pose proof (cleanup_keep_temp config w d Hkeep) as Hclean.
  set (started := [Mkdtemp d;
                   Run (LogInfo (lit "Cloning repository from "
                                 ++ REPO_URL config ++ lit "..."));
                   GitClone (REPO_URL config) (path_str (repo_of d))]).
  assert (Hstarted : Forall (fun ev => is_remove_temp ev = false) started)
    by (by repeat constructor).
  destruct (w_git_clone w) as [|stderr| |]; [| | |done].
  - destruct (build config (w_tree w) (repo_of d) (w_github_output w))
      as [tb [[]|e]]; cbn [fst]; rewrite Hclean; split.
    + repeat (apply Forall_app; split); try done;
        [by repeat constructor|apply run_not_remove_temp|by repeat constructor].
    + rewrite !elem_of_app. right. right. apply list_elem_of_here.
    + repeat (apply Forall_app; split); try done;
        [by repeat constructor|apply run_not_remove_temp
        |by repeat constructor|by repeat constructor].
    + rewrite !elem_of_app. left. right. right. apply list_elem_of_here.
  - cbn [fst]. rewrite Hclean. split.
    + repeat (apply Forall_app; split); try done; by repeat constructor.
    + rewrite !elem_of_app. left. right. right. apply list_elem_of_here.
  - cbn [fst]. rewrite Hclean. split.
    + repeat (apply Forall_app; split); try done; by repeat constructor.
    + rewrite !elem_of_app. left. right. apply list_elem_of_here.
Qed.

Lemma main_keep_temp_witness :
  (keep_temp (make_config [lit "out"; lit "programming-swift"] true false)
   = true
   ∧ w_mkdtemp (example_world (CalledProcessError (lit "fatal: no network")))
     = Some example_temp_dir
   ∧ w_git_clone (example_world (CalledProcessError (lit "fatal: no network")))
     ≠ OtherException)
  ∧ Run (LogInfo (lit "Temp directory retained: /tmp/swift-skill-x"))
    ∈ (main (make_config [lit "out"; lit "programming-swift"] true false)
         (example_world (CalledProcessError (lit "fatal: no network")))).1.
Proof.
  assert (H1 : keep_temp (make_config [lit "out"; lit "programming-swift"]
                            true false) = true) by reflexivity.
  assert (H2 : w_mkdtemp (example_world
                            (CalledProcessError (lit "fatal: no network")))
               = Some example_temp_dir) by reflexivity.
  assert (H3 : w_git_clone (example_world
                              (CalledProcessError (lit "fatal: no network")))
               ≠ OtherException) by done.
  split; [by split_and!|].
  exact (proj2 (main_keep_temp _ _ example_temp_dir H1 H2 H3)).
Defined.

(** X26: the temporary directory is removed in these circumstances only:
    it was made, it is not kept, it exists at the clean-up, and
    [git clone] ended in one of the three handled ways.  An exception of
    [subprocess.run] that [_clone] does not catch leaves the directory
    behind, since [__exit__] does not run when [__enter__] raises. *)
Theorem main_removes_temp_dir_iff (config : Configuration) (w : World)
    (d : str) :
  RemoveTemp d ∈ (main config w).1
  ↔ w_mkdtemp w = Some d ∧ keep_temp config = false ∧ d ≠ []
    ∧ w_temp_exists w = true ∧ w_git_clone w ≠ OtherException.
Proof.
  unfold main, clone.
  destruct (w_mkdtemp w) as [d0|].
  - set (started := [Mkdtemp d0;
                     Run (LogInfo (lit "Cloning repository from "
                                   ++ REPO_URL config ++ lit "..."));
                     GitClone (REPO_URL config) (path_str (repo_of d0))]).
    assert (Hstarted : RemoveTemp d ∉ started).
    { intros H. repeat (apply elem_of_cons in H as [H|H]; [done|]).
      by apply elem_of_nil in H. }
    assert (Hrun : ∀ tb : list Event, RemoveTemp d ∉ Run <$> tb).
    { intros tb (ev & ? & _)%list_elem_of_fmap_1. done. }
    assert (Hone : ∀ ev : MainEvent,
               is_remove_temp ev = false → RemoveTemp d ∉ [ev]).
    { intros ev Hev <-%list_elem_of_singleton. done. }
    pose proof (cleanup_remove_temp config w d0 d) as Hclean.
    destruct (w_git_clone w) as [|stderr| |].
    + destruct (build config (w_tree w) (repo_of d0) (w_github_output w))
        as [tb [[]|e]]; cbn [fst]; rewrite !elem_of_app, Hclean; split.
      * intros [[H|H]|[H|H]]; [done|by apply Hone in H|by apply Hrun in H|].
        destruct H as (-> & ? & ? & ?). by split_and!.
      * intros ([= ->] & ? & ? & ? & _). right. right. by split_and!.
      * intros [[[H|H]|[H|H]]|H];
          [done|by apply Hone in H|by apply Hrun in H| |by apply Hone in H].
        destruct H as (-> & ? & ? & ?). by split_and!.
      * intros ([= ->] & ? & ? & ? & _). left. right. right. by split_and!.
    + cbn [fst]. rewrite !elem_of_app, Hclean. split.
      * intros [[H|[H|H]]|H]; [done|by apply Hone in H| |by apply Hone in H].
        destruct H as (-> & ? & ? & ?). by split_and!.
      * intros ([= ->] & ? & ? & ? & _). left. right. right. by split_and!.
    + cbn [fst]. rewrite !elem_of_app, Hclean. split.
      * intros [[H|H]|H]; [done| |by apply Hone in H].
        destruct H as (-> & ? & ? & ?). by split_and!.
      * intros ([= ->] & ? & ? & ? & _). left. right. by split_and!.
    + cbn [fst]. rewrite !elem_of_app. split.
      * intros [H|H]; [done|by apply Hone in H].
      * by intros (_ & _ & _ & _ & ?).
  - cbn [fst app]. rewrite list_elem_of_singleton.
    split; [done|by intros (? & _)].
Qed.

(** ** Failures and the output of an earlier run *)

(** X27: in a real run the content is validated only after the output
    directory has been reset: when [_process_files] fails (a document
    that cannot be read or has no description, a section without
    documents), the output directory of an earlier run has already been
    removed and made anew, and it is left with the copies made before the
    failure. *)
Theorem failed_validation_loses_previous_output (config : Configuration)
    (fs : FileSystem) (repo_path : Path) (gh_output : option str)
    (content : str) (tp : list Event) (e : PyError) :
  dry_run config = false →
  fs_exists fs (output_path config) = true →
  fs_exists fs (joinpath repo_path (TOC_REL_PATH config)) = true →
  fs_read_text fs (joinpath repo_path (TOC_REL_PATH config)) = Ok content →
  process_files config fs repo_path (parse_toc_order_text content)
  = (tp, Err e) →
  ∃ t0,
    build config fs repo_path gh_output
    = (t0 ++ [Rmtree (output_path config); Mkdir (output_path config)] ++ tp,
       Err e)
    ∧ Forall (fun ev => match ev with
                        | LogInfo _ | AppendText _ _ => True
                        | _ => False
                        end) t0.
Proof.
  intros Hdry Hout Hex Hread Hprocess.
  rewrite (build_eq _ _ _ _ content) by done.
  rewrite Hprocess, bind_Ok, bind_Err. cbn [fst snd].
  unfold prelude_events. rewrite Hdry, Hout.
  exists ((if truthy (get_version_text content)
           then [LogInfo (lit "Found Swift version: "
                          ++ default [] (get_version_text content))]
           else [])
          ++ match gh_output with
             | Some ((_ :: _) as file) =>
                 [AppendText file
                    (lit "swift_version="
                     ++ (if truthy (get_version_text content)
                         then default [] (get_version_text content)
                         else lit "Unknown")
                     ++ [10])]
             | _ => []
             end).
  split.
  - by rewrite <- !(assoc_L (++)).
  - apply Forall_app. split.
    + destruct (truthy (get_version_text content)); by repeat constructor.
    + destruct gh_output as [[|c file]|]; by repeat constructor.
Qed.

Lemma failed_validation_loses_previous_output_witness :
  (dry_run (example_config false) = false
   ∧ fs_exists example_fs_rerun (output_path (example_config false)) = true
   ∧ fs_exists example_fs_rerun
       (joinpath example_repo (TOC_REL_PATH (example_config false))) = true
   ∧ fs_read_text example_fs_rerun
       (joinpath example_repo (TOC_REL_PATH (example_config false)))
     = Ok example_toc
   ∧ process_files (example_config false) example_fs_rerun example_repo
       (parse_toc_order_text example_toc)
     = ((process_files (example_config false) example_fs_rerun example_repo
           example_order).1,
        Err (UnboundLocalError (lit "description"))))
  ∧ (build (example_config false) example_fs_rerun example_repo None).2
    = Err (UnboundLocalError (lit "description")).
Proof.
  assert (H1 : dry_run (example_config false) = false) by reflexivity.
  assert (H2 : fs_exists example_fs_rerun (output_path (example_config false))
               = true) by (vm_compute; reflexivity).
  assert (H3 : fs_exists example_fs_rerun
                 (joinpath example_repo (TOC_REL_PATH (example_config false)))
               = true) by (vm_compute; reflexivity).
  assert (H4 : fs_read_text example_fs_rerun
                 (joinpath example_repo (TOC_REL_PATH (example_config false)))
               = Ok example_toc) by (vm_compute; reflexivity).
  assert (H5 : process_files (example_config false) example_fs_rerun
                 example_repo (parse_toc_order_text example_toc)
               = ((process_files (example_config false) example_fs_rerun
                     example_repo example_order).1,
                  Err (UnboundLocalError (lit "description"))))
    by (vm_compute; reflexivity).
  split; [by split_and!|].
  destruct (failed_validation_loses_previous_output (example_config false)
              example_fs_rerun example_repo None example_toc _ _
              H1 H2 H3 H4 H5) as (t0 & -> & _).
  reflexivity.
Defined.

(** ** The place of the clone *)




